(** * pdftomarkdown: a shallow embedding of [src/index.ts], [PDFWorker] and
    [src/core/LLMClient.ts], and the properties of its pipeline.

    The program reads a PDF from standard input, resolves a page range,
    shells out to [pdfinfo], [pdftk] and [pdftoppm], asks a completion
    endpoint for the Markdown of every page image and prints the result.

    Modelling conventions.
    - A JavaScript [number] that comes out of [parseInt] is an integer or
      [NaN]; integers are unbounded here (no rounding to a double), so
      the model follows the code on the safe integers, up to 2^53 - 1 in
      absolute value.
    - Strings are sequences of ASCII characters.
    - [async] code is sequential: every call is awaited before the next
      statement, so a promise is modelled by the outcome of running it.
    - Effects are threaded through a [World]: the file system, the number
      of clock reads and HTTP requests made so far, and the trace of
      observable events.  What the outside answers (environment variables,
      the clock, the three tools, the HTTP endpoint) is an [Env]. *)

From Stdlib Require Import ZArith QArith DecimalString Ascii String List Lia.
From stdpp Require Import gmap strings list fin_maps.
Close Scope Q_scope.
Open Scope string_scope.

(** ** JavaScript values and the primitives the program uses *)

Module JS.

(** The numbers the program computes with: results of [parseInt]. *)
Inductive number : Type :=
| Num (z : Z)
| NaN.

(** [a < b]: false as soon as one side is [NaN]. *)
Definition lt (a b : number) : bool :=
  match a, b with
  | Num x, Num y => (x <? y)%Z
  | _, _ => false
  end.

(** [a > b]. *)
Definition gt (a b : number) : bool := lt b a.

(** [a === b] on numbers: [NaN] equals nothing, not even itself. *)
Definition strict_eq (a b : number) : bool :=
  match a, b with
  | Num x, Num y => (x =? y)%Z
  | _, _ => false
  end.

(** [a !== b]. *)
Definition strict_neq (a b : number) : bool := negb (strict_eq a b).

(** Decimal rendering of an integer, as [String(n)] gives it. *)
Definition string_of_Z (z : Z) : string :=
  NilZero.string_of_int (Z.to_int z).

(** [String(n)], also what a template literal [`${n}`] inserts.  Every
    digit is written, as the code does below 10^21 in absolute value
    (from there on it switches to exponent notation). *)
Definition string_of_number (n : number) : string :=
  match n with
  | Num z => string_of_Z z
  | NaN => "NaN"
  end.

(** White space as [parseInt] and the regular expression class [\s] see it
    (TAB, LF, VT, FF, CR, SPACE). *)
Definition is_space (c : ascii) : bool :=
  let n := nat_of_ascii c in
  ((9 <=? n)%nat && (n <=? 13)%nat) || (n =? 32)%nat.

(** A decimal digit, [\d]. *)
Definition is_digit (c : ascii) : bool :=
  let n := nat_of_ascii c in
  (48 <=? n)%nat && (n <=? 57)%nat.

Definition digit_value (c : ascii) : Z := Z.of_nat (nat_of_ascii c) - 48.

Fixpoint drop_while (p : ascii -> bool) (s : string) : string :=
  match s with
  | EmptyString => EmptyString
  | String c s' => if p c then drop_while p s' else s
  end.

Fixpoint take_while (p : ascii -> bool) (s : string) : string :=
  match s with
  | EmptyString => EmptyString
  | String c s' => if p c then String c (take_while p s') else EmptyString
  end.

(** Value of a string of decimal digits, most significant first. *)
Fixpoint digits_value (acc : Z) (s : string) : Z :=
  match s with
  | EmptyString => acc
  | String c s' => digits_value (10 * acc + digit_value c) s'
  end.

(** [parseInt(s, 10)]: leading white space is skipped, one sign is read,
    then the longest run of decimal digits; no digit gives [NaN].  The
    value is that of the digits; the code rounds it to a double, which
    changes it only beyond 2^53. *)
Definition parseInt (s : string) : number :=
  let s1 := drop_while is_space s in
  let '(sign, s2) :=
    match s1 with
    | String "-" r => ((-1)%Z, r)
    | String "+" r => (1%Z, r)
    | _ => (1%Z, s1)
    end in
  let ds := take_while is_digit s2 in
  match ds with
  | EmptyString => NaN
  | _ => Num (sign * digits_value 0 ds)
  end.

(** Truthiness of a string: only the empty string is falsy. *)
Definition truthy_string (s : string) : bool :=
  match s with
  | EmptyString => false
  | _ => true
  end.

(** [s.endsWith(suffix)]. *)
Definition endsWith (s suffix : string) : bool :=
  let n := String.length s in
  let k := String.length suffix in
  (k <=? n)%nat && String.eqb (String.substring (n - k) k s) suffix.

(** [s.replace(/c/g, by)] for a one-character class: every occurrence of a
    character that satisfies [p] is replaced by the string [by_]. *)
Fixpoint replace_all_chars (p : ascii -> bool) (by_ : string) (s : string) : string :=
  match s with
  | EmptyString => EmptyString
  | String c s' =>
      if p c then by_ ++ replace_all_chars p by_ s'
      else String c (replace_all_chars p by_ s')
  end.

(** First occurrence of [pat] in [s]: the text before it and the text
    after it. *)
Fixpoint find_first (pat s : string) : option (string * string) :=
  if String.prefix pat s
  then Some (EmptyString, String.substring (String.length pat) (String.length s - String.length pat) s)
  else match s with
       | EmptyString => None
       | String c s' =>
           match find_first pat s' with
           | Some (before, after) => Some (String c before, after)
           | None => None
           end
       end.

(** The replacement text of [String.prototype.replace] with a string
    pattern: [$$] stands for a dollar, [$&] for the match, [$`] and [$']
    for the text before and after it; anything else is literal. *)
Fixpoint substitution (repl matched before after : string) : string :=
  match repl with
  | String "$" (String "$" r) => "$" ++ substitution r matched before after
  | String "$" (String "&" r) => matched ++ substitution r matched before after
  | String "$" (String "`" r) => before ++ substitution r matched before after
  | String "$" (String "'" r) => after ++ substitution r matched before after
  | String c r => String c (substitution r matched before after)
  | EmptyString => EmptyString
  end.

(** [s.replace(pat, repl)] with a string pattern: the first occurrence
    only. *)
Definition replace_first (pat repl s : string) : string :=
  match find_first pat s with
  | Some (before, after) => before ++ substitution repl pat before after ++ after
  | None => s
  end.

(** Every character of [s] satisfies [p]. *)
Fixpoint all_chars (p : ascii -> bool) (s : string) : bool :=
  match s with
  | EmptyString => true
  | String c s' => p c && all_chars p s'
  end.

(** [s] without the characters at its end that satisfy [p]. *)
Fixpoint drop_while_end (p : ascii -> bool) (s : string) : string :=
  match s with
  | EmptyString => EmptyString
  | String c s' =>
      match drop_while_end p s' with
      | EmptyString => if p c then EmptyString else String c EmptyString
      | r => String c r
      end
  end.

Definition is_hex_digit (c : ascii) : bool :=
  let n := nat_of_ascii c in
  is_digit c || ((65 <=? n)%nat && (n <=? 70)%nat) || ((97 <=? n)%nat && (n <=? 102)%nat).

Definition is_octal_digit (c : ascii) : bool :=
  let n := nat_of_ascii c in
  (48 <=? n)%nat && (n <=? 55)%nat.

Definition is_binary_digit (c : ascii) : bool :=
  Ascii.eqb c "0" || Ascii.eqb c "1".

(** Digits of a literal with a radix prefix: there is at least one, all
    are digits of the radix, and the number they write is not 0. *)
Definition positive_digits (digit : ascii -> bool) (s : string) : bool :=
  truthy_string s && all_chars digit s
  && negb (all_chars (fun c => Ascii.eqb c "0") s).

(** The exponent part of a decimal literal: nothing, or [e] or [E], an
    optional sign and at least one digit. *)
Definition exponent_part (s : string) : option Z :=
  match s with
  | EmptyString => Some 0%Z
  | String c r =>
      if Ascii.eqb c "e" || Ascii.eqb c "E" then
        let '(sign, ds) :=
          match r with
          | String "-" r' => ((-1)%Z, r')
          | String "+" r' => (1%Z, r')
          | _ => (1%Z, r)
          end in
        if truthy_string ds && all_chars is_digit ds
        then Some (sign * digits_value 0 ds)%Z
        else None
      else None
  end.

(** An unsigned decimal literal [int.frac e exp] is read as a number
    above 0: it is well formed, one of its digits is not 0, and its value
    [m * 10^e] does not round to 0 as a double, that is, it lies above
    half the least positive double, [2^-1075]. *)
Definition positive_decimal (s : string) : bool :=
  let int := take_while is_digit s in
  let rest := drop_while is_digit s in
  let '(frac, rest) :=
    match rest with
    | String "." r => (take_while is_digit r, drop_while is_digit r)
    | _ => (EmptyString, rest)
    end in
  match exponent_part rest with
  | None => false
  | Some exp =>
      let m := digits_value 0 (int ++ frac) in
      let e := (exp - Z.of_nat (String.length frac))%Z in
      (truthy_string int || truthy_string frac)
      && (0 <? m)%Z
      && ((0 <=? e)%Z || (10 ^ (- e) <? m * 2 ^ 1075)%Z)
  end.

(** [Number(s) > 0] for a string: white space around the literal is
    dropped; the literal is [Infinity], a hexadecimal, octal or binary
    integer with its prefix and no sign, or a decimal literal with an
    optional sign; the empty string is 0 and anything else is [NaN]. *)
Definition positive_literal (s : string) : bool :=
  let t := drop_while_end is_space (drop_while is_space s) in
  match t with
  | String "0" (String "x" r) | String "0" (String "X" r) => positive_digits is_hex_digit r
  | String "0" (String "o" r) | String "0" (String "O" r) => positive_digits is_octal_digit r
  | String "0" (String "b" r) | String "0" (String "B" r) => positive_digits is_binary_digit r
  | String "-" _ => false
  | String "+" r => String.eqb r "Infinity" || positive_decimal r
  | _ => String.eqb t "Infinity" || positive_decimal t
  end.

(** Insertion into a list sorted by code unit order; [Array.prototype.sort]
    without a comparator orders strings this way. *)
Fixpoint insert_sorted (x : string) (l : list string) : list string :=
  match l with
  | [] => [x]
  | y :: l' => if String.leb x y then x :: l else y :: insert_sorted x l'
  end.

Definition sort (l : list string) : list string :=
  fold_right insert_sorted [] l.

End JS.

(** ** Values of a parsed JSON document *)

(** What [response.data] can hold.  Numbers are modelled by the integers
    and [NaN]; an object is the list of its members. *)
#[warnings="-register-all"]
Inductive value : Type :=
| VUndefined
| VNull
| VBool (b : bool)
| VNum (n : JS.number)
| VStr (s : string)
| VArr (items : list value)
| VObj (members : list (string * value)).

(** An [Error] object: its [name] and its [message]. *)
Record JSError : Type := mkError {
  err_name : string;
  err_message : string
}.

(** [String(e)] and [`${e}`] for an [Error]. *)
Definition string_of_error (e : JSError) : string :=
  err_name e ++ ": " ++ err_message e.

(** [new Error(msg)]. *)
Definition Error (msg : string) : JSError := mkError "Error" msg.

(** The value of an expression, or the error it throws. *)
Inductive result (A : Type) : Type :=
| Ok (a : A)
| Raise (e : JSError).
Arguments Ok {A} a.
Arguments Raise {A} e.

(** Truthiness, as [&&] and [if] test it. *)
Definition truthy (v : value) : bool :=
  match v with
  | VUndefined | VNull => false
  | VBool b => b
  | VNum (JS.Num z) => negb (z =? 0)%Z
  | VNum JS.NaN => false
  | VStr s => JS.truthy_string s
  | VArr _ | VObj _ => true
  end.

(** The member of an object with a given name. *)
Fixpoint assoc (k : string) (l : list (string * value)) : option value :=
  match l with
  | [] => None
  | (k', v) :: l' => if String.eqb k k' then Some v else assoc k l'
  end.

(** How V8 names the base of a failed property read. *)
Definition cannot_read (base prop : string) : JSError :=
  mkError "TypeError"
    ("Cannot read properties of " ++ base ++ " (reading '" ++ prop ++ "')").

(** The error of a conversion to a primitive value that finds no usable
    [toString] or [valueOf]. *)
Definition cannot_convert : JSError :=
  mkError "TypeError" "Cannot convert object to primitive value".

(** [v.prop] for the member names the program reads ([candidates],
    [content], [parts], [text], [length]): reading from [undefined] or
    [null] throws, an array and a string have a [length], an object has
    its members, and everything else reads as [undefined]. *)
Definition get_prop (v : value) (prop : string) : result value :=
  match v with
  | VUndefined => Raise (cannot_read "undefined" prop)
  | VNull => Raise (cannot_read "null" prop)
  | VObj ms => Ok (default VUndefined (assoc prop ms))
  | VArr l =>
      if String.eqb prop "length" then Ok (VNum (JS.Num (Z.of_nat (length l))))
      else Ok VUndefined
  | VStr s =>
      if String.eqb prop "length" then Ok (VNum (JS.Num (Z.of_nat (String.length s))))
      else Ok VUndefined
  | VBool _ | VNum _ => Ok VUndefined
  end.

(** [v[0]]. *)
Definition get_first (v : value) : result value :=
  match v with
  | VUndefined => Raise (cannot_read "undefined" "0")
  | VNull => Raise (cannot_read "null" "0")
  | VObj ms => Ok (default VUndefined (assoc "0" ms))
  | VArr l => Ok (default VUndefined (head l))
  | VStr (String c _) => Ok (VStr (String c EmptyString))
  | VStr EmptyString => Ok VUndefined
  | VBool _ | VNum _ => Ok VUndefined
  end.

(** Sequencing of expressions that may throw. *)
Definition result_bind {A B} (r : result A) (k : A -> result B) : result B :=
  match r with
  | Ok x => k x
  | Raise e => Raise e
  end.

Notation "'let?' x ':=' e 'in' k" := (result_bind e (fun x => k))
  (at level 10, x name, e at level 100, k at level 200).

(** [ToString] of a value of a JSON document, as [+=] on a string and
    [Array.prototype.join] compute it.  An array is the join of its items
    with commas, [null] and [undefined] items being empty.  An object goes
    through [toString]: the inherited one gives ["[object Object]"]; an own
    member named [toString] hides it and, being no function in a JSON
    document, makes the conversion throw (the inherited [valueOf] gives the
    object back, an own one is no function either). *)
Fixpoint string_of_value (v : value) : result string :=
  match v with
  | VUndefined => Ok "undefined"
  | VNull => Ok "null"
  | VBool true => Ok "true"
  | VBool false => Ok "false"
  | VNum n => Ok (JS.string_of_number n)
  | VStr s => Ok s
  | VArr l =>
      let? items :=
        (fix strings (l : list value) : result (list string) :=
           match l with
           | [] => Ok []
           | x :: l' =>
               let? s := match x with
                         | VUndefined | VNull => Ok ""
                         | _ => string_of_value x
                         end in
               let? r := strings l' in
               Ok (s :: r)
           end) l in
      Ok (String.concat "," items)
  | VObj ms =>
      match assoc "toString" ms with
      | Some _ => Raise cannot_convert
      | None => Ok "[object Object]"
      end
  end.

(** [v > 0].  A number compares as itself, [true] as 1, [undefined] as
    [NaN] and [null] as 0; a string is read as a numeric literal; an array
    or an object is first converted to a string, which may throw. *)
Definition gt_zero (v : value) : result bool :=
  match v with
  | VUndefined | VNull => Ok false
  | VBool b => Ok b
  | VNum n => Ok (JS.gt n (JS.Num 0))
  | VStr s => Ok (JS.positive_literal s)
  | VArr _ | VObj _ =>
      let? s := string_of_value v in
      Ok (JS.positive_literal s)
  end.

(** [LLMClient.completion], lines 92-99: the condition of the [if], a chain
    of [&&] evaluated from left to right.  A falsy link ends it with
    [false]; a member read from [null] or [undefined] throws. *)
Definition has_text_shape (data : value) : result bool :=
  if negb (truthy data) then Ok false else
  let? candidates := get_prop data "candidates" in
  if negb (truthy candidates) then Ok false else
  let? n := get_prop candidates "length" in
  let? many := gt_zero n in
  if negb many then Ok false else
  let? c0 := get_first candidates in
  let? content := get_prop c0 "content" in
  if negb (truthy content) then Ok false else
  let? parts := get_prop content "parts" in
  if negb (truthy parts) then Ok false else
  let? m := get_prop parts "length" in
  gt_zero m.

(** [response.data.candidates[0].content.parts[0].text], line 100. *)
Definition first_part_text (data : value) : result value :=
  let? candidates := get_prop data "candidates" in
  let? c0 := get_first candidates in
  let? content := get_prop c0 "content" in
  let? parts := get_prop content "parts" in
  let? p0 := get_first parts in
  get_prop p0 "text".

(** [LLMClient.completion], lines 92-103: what is returned for the body
    [data] of a response. *)
Definition extract_text (data : value) : result value :=
  let? shaped := has_text_shape data in
  if shaped then first_part_text data else Ok (VStr "").

(** ** The request sent to the endpoint *)

(** One entry of a user turn's content: [{ text }] or the inline image
    [{ type: "image", source: { type, media_type, data } }]. *)
Inductive ContentItem : Type :=
| TextItem (text : string)
| ImageItem (source_type media_type data : string).

(** A turn's content: a plain string (system turn), one object, or a list
    that starts with the text and goes on with the images. *)
Inductive Content : Type :=
| ContentString (s : string)
| ContentObject (item : ContentItem)
| ContentList (items : list ContentItem).

Record Message : Type := mkMessage {
  role : string;
  content : Content
}.

Record Payload : Type := mkPayload {
  p_model : string;
  p_messages : list Message;
  p_temperature : Q;
  p_max_tokens : Z
}.

Definition b64_alphabet : string :=
  "ABCDEFGHIJKLMNOPQRSTUVWXYZabcdefghijklmnopqrstuvwxyz0123456789+/".

Definition b64_char (n : N) : string :=
  match String.get (N.to_nat n) b64_alphabet with
  | Some c => String c EmptyString
  | None => EmptyString
  end.

(** [buffer.toString("base64")]: three bytes give four characters, the
    last group is padded with [=]. *)
Fixpoint base64 (s : string) : string :=
  match s with
  | EmptyString => EmptyString
  | String a EmptyString =>
      let x := N_of_ascii a in
      b64_char (x / 4) ++ b64_char ((x mod 4) * 16) ++ "=="
  | String a (String b EmptyString) =>
      let x := N_of_ascii a in
      let y := N_of_ascii b in
      b64_char (x / 4) ++ b64_char ((x mod 4) * 16 + y / 16)
        ++ b64_char ((y mod 16) * 4) ++ "="
  | String a (String b (String c r)) =>
      let x := N_of_ascii a in
      let y := N_of_ascii b in
      let z := N_of_ascii c in
      b64_char (x / 4) ++ b64_char ((x mod 4) * 16 + y / 16)
        ++ b64_char ((y mod 16) * 4 + z / 64) ++ b64_char (z mod 64)
        ++ base64 r
  end.

(** ** The world the program runs in *)

(** An entry of the file system. *)
Inductive Node : Type :=
| Dir
| File (data : string).

(** How a spawned tool ends: it could not be started (the ['error'] event),
    or it closed with an exit code ([None] when a signal ended it). *)
Inductive ToolExit : Type :=
| SpawnError (msg : string)
| Closed (code : option Z).

(** One run of an external tool: how it ended, what it wrote to its
    standard output and the files it left behind. *)
Record ToolRun : Type := mkToolRun {
  tool_exit : ToolExit;
  tool_stdout : string;
  tool_files : list (string * string)
}.

(** The answer to one HTTP request: the body of a successful response, or
    the error [axios] throws (transport failure, non-2xx status). *)
Inductive HttpResult : Type :=
| HttpOk (data : value)
| HttpFail (e : JSError).

(** What the program can observe itself doing. *)
Inductive Event : Type :=
| ConsoleInfo (line : string)
| ConsoleLog (line : string)
| ConsoleError (line : string)
| MkdirSync (path : string)
| WriteFileSync (path : string) (data : string)
| ReadFileSync (path : string)
| ReaddirSync (path : string)
| RmSync (path : string)
| Spawn (cmd : string) (args : list string)
| HttpPost (url : string) (headers : list (string * string)) (payload : Payload)
| Sleep (ms : Z).

(** The outside: [process.env], the clock ([env_now n] is the ISO-8601
    text of the [n]-th [new Date()] of the run), the external tools and
    the endpoint ([env_post n] answers the [n]-th request of the run). *)
Record Env : Type := mkEnv {
  env_getenv : string -> option string;
  env_now : nat -> string;
  env_spawn : string -> list string -> gmap string Node -> ToolRun;
  env_post : nat -> string -> list (string * string) -> Payload -> HttpResult
}.

Record World : Type := mkWorld {
  w_fs : gmap string Node;
  w_clock : nat;
  w_requests : nat;
  w_trace : list Event
}.

Definition set_fs (f : gmap string Node) (w : World) : World :=
  mkWorld f (w_clock w) (w_requests w) (w_trace w).

Definition tick (w : World) : World :=
  mkWorld (w_fs w) (S (w_clock w)) (w_requests w) (w_trace w).

Definition count_request (w : World) : World :=
  mkWorld (w_fs w) (w_clock w) (S (w_requests w)) (w_trace w).

Definition record (e : Event) (w : World) : World :=
  mkWorld (w_fs w) (w_clock w) (w_requests w) (w_trace w ++ [e]).

(** How a computation ends: with a value, with a thrown error (a rejected
    promise), or with [process.exit(code)], which no handler catches. *)
Inductive Outcome (A : Type) : Type :=
| Ret (a : A)
| Throw (e : JSError)
| Exit (code : Z).
Arguments Ret {A} a.
Arguments Throw {A} e.
Arguments Exit {A} code.

(** Computations: a state transformer on the world with an outcome. *)
Definition M (A : Type) : Type := World -> Outcome A * World.

Definition ret {A} (a : A) : M A := fun w => (Ret a, w).

Definition bind {A B} (m : M A) (k : A -> M B) : M B :=
  fun w =>
    match m w with
    | (Ret a, w') => k a w'
    | (Throw e, w') => (Throw e, w')
    | (Exit c, w') => (Exit c, w')
    end.

Definition throw {A} (e : JSError) : M A := fun w => (Throw e, w).

(** [process.exit(code)]. *)
Definition process_exit {A} (code : Z) : M A := fun w => (Exit code, w).

(** [try { m } catch (e) { h e }]. *)
Definition try_catch {A} (m : M A) (h : JSError -> M A) : M A :=
  fun w =>
    match m w with
    | (Throw e, w') => h e w'
    | r => r
    end.

Definition emit (e : Event) : M unit := fun w => (Ret tt, record e w).

Definition lift {A} (r : result A) : M A :=
  match r with
  | Ok a => ret a
  | Raise e => throw e
  end.

Notation "x <- m ;; k" := (bind m (fun x => k))
  (at level 100, m at next level, right associativity).
Notation "m ;; k" := (bind m (fun _ => k))
  (at level 100, right associativity).

(** *** The file system *)

(** [path.join(a, b)] for segments that are already normalised (no empty,
    [.] or [..] component), as all those the program joins are. *)
Definition path_join (a b : string) : string := a ++ "/" ++ b.

(** [p] is [dir] or lies below it. *)
Definition under (dir p : string) : bool :=
  String.eqb p dir || String.prefix (dir ++ "/") p.

(** The path and the directories above it, outermost first. *)
Fixpoint split_ancestors (acc s : string) : list string :=
  match s with
  | EmptyString => [acc]
  | String c s' =>
      if Ascii.eqb c "/"
      then acc :: split_ancestors (acc ++ "/") s'
      else split_ancestors (acc ++ String c EmptyString) s'
  end.

Definition ancestors (p : string) : list string :=
  List.filter JS.truthy_string (split_ancestors EmptyString p).

Definition is_file (fs : gmap string Node) (p : string) : bool :=
  match fs !! p with
  | Some (File _) => true
  | _ => false
  end.

Definition fs_error (code what call p : string) : JSError :=
  Error (code ++ ": " ++ what ++ ", " ++ call ++ " '" ++ p ++ "'").

(** [fs.mkdirSync(p, { recursive: true })]: the directory and the missing
    ones above it are created; a file in the way is an error, [EEXIST]
    when it is at [p] itself and [ENOTDIR] when it is above it. *)
Definition mkdirSync (p : string) : M unit :=
  emit (MkdirSync p) ;;
  fun w =>
    let ds := ancestors p in
    if existsb (is_file (w_fs w)) ds
    then (Throw (if is_file (w_fs w) p
                 then fs_error "EEXIST" "file already exists" "mkdir" p
                 else fs_error "ENOTDIR" "not a directory" "mkdir" p), w)
    else (Ret tt, set_fs (foldr (fun d m => <[d := Dir]> m) (w_fs w) ds) w).

(** [fs.writeFileSync(p, data)]; the callers write into a directory they
    have just created, so only a directory at [p] itself is an error. *)
Definition writeFileSync (p data : string) : M unit :=
  emit (WriteFileSync p data) ;;
  fun w =>
    match w_fs w !! p with
    | Some Dir =>
        (Throw (fs_error "EISDIR" "illegal operation on a directory" "open" p), w)
    | _ => (Ret tt, set_fs (<[p := File data]> (w_fs w)) w)
    end.

(** [fs.readFileSync(p)]. *)
Definition readFileSync (p : string) : M string :=
  emit (ReadFileSync p) ;;
  fun w =>
    match w_fs w !! p with
    | Some (File data) => (Ret data, w)
    | Some Dir => (Throw (Error "EISDIR: illegal operation on a directory, read"), w)
    | None => (Throw (fs_error "ENOENT" "no such file or directory" "open" p), w)
    end.

(** The name of [p] inside [dir], when [p] is an entry of [dir]. *)
Definition entry_name (dir p : string) : option string :=
  let pre := dir ++ "/" in
  if String.prefix pre p then
    let name := String.substring (String.length pre)
                  (String.length p - String.length pre) p in
    match name with
    | EmptyString => None
    | _ => match JS.find_first "/" name with
           | Some _ => None
           | None => Some name
           end
    end
  else None.

(** [fs.readdirSync(dir)]: the names of the entries of [dir]. *)
Definition readdirSync (dir : string) : M (list string) :=
  emit (ReaddirSync dir) ;;
  fun w =>
    match w_fs w !! dir with
    | Some Dir =>
        (Ret (omap (fun kv => entry_name dir kv.1) (map_to_list (w_fs w))), w)
    | Some (File _) =>
        (Throw (fs_error "ENOTDIR" "not a directory" "scandir" dir), w)
    | None =>
        (Throw (fs_error "ENOENT" "no such file or directory" "scandir" dir), w)
    end.

(** [fs.rmSync(dir, { recursive: true, force: true })]: [dir] and all that
    lies below it go; a missing [dir] is no error. *)
Definition rmSync (dir : string) : M unit :=
  emit (RmSync dir) ;;
  fun w =>
    (Ret tt, set_fs (filter (fun kv => under dir kv.1 = false) (w_fs w)) w).

(** A file written by an external tool; a tool does not turn a directory
    into a file. *)
Definition add_file (fs : gmap string Node) (f : string * string) : gmap string Node :=
  match fs !! f.1 with
  | Some Dir => fs
  | _ => <[f.1 := File f.2]> fs
  end.

(** [spawn(cmd, args)] awaited until the child is gone. *)
Definition spawn (env : Env) (cmd : string) (args : list string) : M ToolRun :=
  emit (Spawn cmd args) ;;
  fun w =>
    let run := env_spawn env cmd args (w_fs w) in
    (Ret run, set_fs (fold_left add_file (tool_files run) (w_fs w)) w).

(** *** Console, clock and timers *)

(** [new Date().toISOString()]. *)
Definition date_now (env : Env) : M string :=
  fun w => (Ret (env_now env (w_clock w)), tick w).

Definition console_error (line : string) : M unit := emit (ConsoleError line).

(** [setTimeout] awaited. *)
Definition sleep (ms : Z) : M unit := emit (Sleep ms).

Definition string_of_nat (n : nat) : string := JS.string_of_Z (Z.of_nat n).

(** [logger.info]'s message: with arguments, the first [%1] is replaced by
    the first argument, then the first [%2] by the second, and so on. *)
Definition format_message (message : string) (args : list string) : string :=
  match args with
  | [] => message
  | _ =>
      fst (fold_left
             (fun (acc : string * nat) (arg : string) =>
                (JS.replace_first ("%" ++ string_of_nat (snd acc + 1)) arg (fst acc),
                 S (snd acc)))
             args (message, 0%nat))
  end.

(** [logger.info(message, ...args)], the arguments already as strings. *)
Definition logger_info (env : Env) (message : string) (args : list string) : M unit :=
  let formattedMessage := format_message message args in
  now <- date_now env ;;
  emit (ConsoleInfo (now ++ " - INFO - " ++ formattedMessage)).

(** [logger.error(message)]. *)
Definition logger_error (env : Env) (message : string) : M unit :=
  now <- date_now env ;;
  emit (ConsoleError (now ++ " - ERROR - " ++ message)).

(** ** [PDFWorker] *)

(** The regular expression [/Pages:\s+(\d+)/] tried at the start of [s]:
    the digits of the capture group. *)
Definition match_pages_here (s : string) : option string :=
  if String.prefix "Pages:" s then
    let rest := String.substring 6 (String.length s - 6) s in
    let after_space := JS.drop_while JS.is_space rest in
    if (String.length after_space =? String.length rest)%nat then None
    else
      match JS.take_while JS.is_digit after_space with
      | EmptyString => None
      | digits => Some digits
      end
  else None.

(** [output.match(/Pages:\s+(\d+)/)]: the leftmost match. *)
Fixpoint match_pages (s : string) : option string :=
  match match_pages_here s with
  | Some digits => Some digits
  | None =>
      match s with
      | EmptyString => None
      | String _ s' => match_pages s'
      end
  end.

(** [`${code}`] for the exit code handed to the ['close'] handler. *)
Definition string_of_code (code : option Z) : string :=
  match code with
  | Some z => JS.string_of_Z z
  | None => "null"
  end.

(** [code !== 0]. *)
Definition code_not_zero (code : option Z) : bool :=
  match code with
  | Some z => negb (z =? 0)%Z
  | None => true
  end.

(** [PDFWorker.getTotalPages]. *)
Definition getTotalPages (env : Env) (pdfPath : string) : M JS.number :=
  run <- spawn env "pdfinfo" [pdfPath] ;;
  match tool_exit run with
  | SpawnError msg => throw (Error ("Failed to run pdfinfo: " ++ msg))
  | Closed code =>
      if code_not_zero code
      then throw (Error ("pdfinfo exited with code " ++ string_of_code code))
      else
        match match_pages (tool_stdout run) with
        | Some digits => ret (JS.parseInt digits)
        | None => throw (Error "Could not determine page count")
        end
  end.

(** The range argument handed to [pdftk]: [`${startPage}-${endPage}`]. *)
Definition range_string (startPage endPage : JS.number) : string :=
  JS.string_of_number startPage ++ "-" ++ JS.string_of_number endPage.

(** The path of the extracted PDF. *)
Definition extract_path (outputDir : string) (startPage endPage : JS.number) : string :=
  path_join outputDir
    ("extract_" ++ JS.string_of_number startPage ++ "_"
       ++ JS.string_of_number endPage ++ ".pdf").

(** [PDFWorker.extractPages]. *)
Definition extractPages (env : Env) (pdfPath : string)
    (startPage endPage : JS.number) (outputDir : string) : M string :=
  let outputPath := extract_path outputDir startPage endPage in
  run <- spawn env "pdftk"
           [pdfPath; "cat"; range_string startPage endPage; "output"; outputPath] ;;
  match tool_exit run with
  | SpawnError msg => throw (Error ("Failed to run pdftk: " ++ msg))
  | Closed code =>
      if code_not_zero code
      then throw (Error ("pdftk exited with code " ++ string_of_code code))
      else ret outputPath
  end.

(** [PDFWorker.convertToImages]. *)
Definition convertToImages (env : Env) (pdfPath outputDir : string) : M (list string) :=
  let imageOutputDir := path_join outputDir "images" in
  mkdirSync imageOutputDir ;;
  run <- spawn env "pdftoppm"
           ["-jpeg"; "-r"; "300"; pdfPath; path_join imageOutputDir "page"] ;;
  match tool_exit run with
  | SpawnError msg => throw (Error ("Failed to run pdftoppm: " ++ msg))
  | Closed code =>
      if code_not_zero code
      then throw (Error ("pdftoppm exited with code " ++ string_of_code code))
      else
        try_catch
          (names <- readdirSync imageOutputDir ;;
           ret (map (path_join imageOutputDir)
                  (List.filter (fun file => JS.endsWith file ".jpg") names)))
          (fun err =>
             throw (Error ("Failed to read image directory: " ++ string_of_error err)))
  end.

(** ** [LLMClient] *)

Record LLMClient : Type := mkLLMClient {
  baseUrl : string;
  apiKey : string;
  model : string
}.

(** The loop over [imagePaths], lines 44-61: each image is read and turned
    into an inline item; a failed read is reported and thrown again. *)
Fixpoint read_images (imagePaths : list string) : M (list ContentItem) :=
  match imagePaths with
  | [] => ret []
  | imagePath :: rest =>
      item <- try_catch
                (imageData <- readFileSync imagePath ;;
                 ret (ImageItem "base64" "image/jpeg" (base64 imageData)))
                (fun error =>
                   console_error ("Error reading image file " ++ imagePath ++ ": "
                                    ++ string_of_error error) ;;
                   throw error) ;;
      items <- read_images rest ;;
      ret (item :: items)
  end.

(** [axios.post(url, payload, { headers })] awaited: the body of the
    response, or the error thrown. *)
Definition axios_post (env : Env) (url : string) (headers : list (string * string))
    (payload : Payload) : M value :=
  emit (HttpPost url headers payload) ;;
  fun w =>
    match env_post env (w_requests w) url headers payload with
    | HttpOk data => (Ret data, count_request w)
    | HttpFail e => (Throw e, count_request w)
    end.

(** [LLMClient.completion]; an omitted argument is [None]. *)
Definition client_completion (env : Env) (client : LLMClient) (userMessage : string)
    (systemPrompt : option string) (imagePaths : option (list string))
    (temperature : option Q) (maxTokens : option Z) : M value :=
  let systemPrompt := default "" systemPrompt in
  let temperature := default (1 # 2)%Q temperature in
  let maxTokens := default 8192%Z maxTokens in
  let system_turn :=
    if JS.truthy_string systemPrompt
    then [mkMessage "system" (ContentString systemPrompt)]
    else [] in
  userContent <-
    match imagePaths with
    | Some ((_ :: _) as paths) =>
        images <- read_images paths ;;
        ret (ContentList (TextItem userMessage :: images))
    | _ => ret (ContentObject (TextItem userMessage))
    end ;;
  let messages := (system_turn ++ [mkMessage "user" userContent])%list in
  let payload := mkPayload (model client) messages temperature maxTokens in
  try_catch
    (data <- axios_post env
               (baseUrl client ++ "models/" ++ model client ++ ":generateContent")
               [("Content-Type", "application/json");
                ("Authorization", "Bearer " ++ apiKey client)]
               payload ;;
     lift (extract_text data))
    (fun error =>
       console_error ("Error calling LLM API: " ++ string_of_error error) ;;
       throw error).

(** ** [index.ts] *)

(** A line feed. *)
Definition nl : string := String "010" EmptyString.

(** [a || fallback] for an environment variable: an unset or empty
    variable gives the fallback. *)
Definition env_or (env : Env) (name fallback : string) : string :=
  match env_getenv env name with
  | Some v => if JS.truthy_string v then v else fallback
  | None => fallback
  end.

(** The retry loop, lines 56-74, with [n] iterations left: the first
    attempt that returns ends it; a throwing attempt is logged and followed
    by a 500ms wait; after the last iteration the result is [""].  What is
    thrown here is always an [Error], so the logged text is its message. *)
Fixpoint retry_loop (env : Env) (attempt : M value) (n : nat) : M value :=
  match n with
  | O => ret (VStr "")
  | S n' =>
      try_catch attempt
        (fun e =>
           logger_error env ("LLM call failed: " ++ err_message e) ;;
           sleep 500 ;;
           retry_loop env attempt n')
  end.

(** [completion]; an omitted argument is [None].  The loop
    [for (i = 0; i < retryTimes; i++)] runs [Z.to_nat retryTimes] times. *)
Definition completion (env : Env) (message : string) (model : option string)
    (systemPrompt : option string) (imagePaths : option (list string))
    (temperature : option Q) (maxTokens : option Z) (retryTimes : option Z) : M value :=
  let model := default "" model in
  let systemPrompt := default "" systemPrompt in
  let temperature := default (1 # 2)%Q temperature in
  let maxTokens := default 8192%Z maxTokens in
  let retryTimes := default 3%Z retryTimes in
  let apiKey := default "" (env_getenv env "OPENAI_API_KEY") in
  if negb (JS.truthy_string apiKey) then
    logger_error env "Please set the OPENAI_API_KEY environment variables" ;;
    process_exit 1
  else
    let baseUrl :=
      env_or env "OPENAI_API_BASE"
        "https://generativelanguage.googleapis.com/v1beta/openai/" in
    let model :=
      if negb (JS.truthy_string model)
      then env_or env "OPENAI_DEFAULT_MODEL" "gemini-1.5-pro"
      else model in
    let client := mkLLMClient baseUrl apiKey model in
    retry_loop env
      (client_completion env client message (Some systemPrompt) imagePaths
         (Some temperature) (Some maxTokens))
      (Z.to_nat retryTimes).

Definition userPrompt : string :=
  nl ++ "    Please read the content in the image and transcribe it into Markdown, paying special attention to maintaining the format of headings, text, formulas, and table rows and columns. Only output the Markdown, no additional explanation is needed."
     ++ nl ++ "  ".

(** [convertImageToMarkdown]. *)
Definition convertImageToMarkdown (env : Env) (imagePath : string) : M value :=
  completion env userPrompt (Some "gemini-1.5-pro") (Some "") (Some [imagePath])
    (Some (3 # 10)%Q) (Some 8192%Z) None.

(** Lines 97-115: the page bounds read from the arguments. *)
Definition parse_args (args : list string) : JS.number * JS.number :=
  match args with
  | a0 :: a1 :: _ => (JS.parseInt a0, JS.parseInt a1)
  | [a0] => (JS.Num 1, JS.parseInt a0)
  | [] => (JS.Num 1, JS.Num 0)
  end.

(** Lines 148-153: the bounds once the page count is known. *)
Definition resolve_range (totalPages startPage endPage : JS.number)
  : JS.number * JS.number :=
  let startPage :=
    if JS.lt startPage (JS.Num 1) || JS.gt startPage totalPages
    then JS.Num 1 else startPage in
  let endPage :=
    if JS.strict_eq endPage (JS.Num 0) || JS.gt endPage totalPages
    then totalPages else endPage in
  (startPage, endPage).

(** Line 162: the condition of the extraction step. *)
Definition needs_extraction (totalPages startPage endPage : JS.number) : bool :=
  JS.strict_neq startPage (JS.Num 1) || JS.strict_neq endPage totalPages.

(** Lines 178-186: the loop over the sorted image paths, [markdown] being
    the text accumulated so far. *)
Fixpoint transcribe (env : Env) (imgPaths : list string) (markdown : string) : M string :=
  match imgPaths with
  | [] => ret markdown
  | imgPath :: rest =>
      let normalizedPath :=
        JS.replace_all_chars (Ascii.eqb "\") "/" imgPath in
      logger_info env "Converting image %1 to Markdown" [normalizedPath] ;;
      imgMarkdown <- convertImageToMarkdown env normalizedPath ;;
      text <- lift (string_of_value imgMarkdown) ;;
      let markdown := markdown ++ text in
      let markdown := markdown ++ nl ++ nl in
      logger_info env "Markdown info %1" [markdown] ;;
      transcribe env rest markdown
  end.

(** Lines 148-175: from the known page count to the image paths. *)
Definition render_range (env : Env) (outputDir inputPdfPath : string)
    (totalPages startPage endPage : JS.number) : M (list string) :=
  let '(startPage, endPage) := resolve_range totalPages startPage endPage in
  logger_info env "Start processing from page %1 to page %2"
    [JS.string_of_number startPage; JS.string_of_number endPage] ;;
  extractPath <-
    (if needs_extraction totalPages startPage endPage then
       extractPath <- extractPages env inputPdfPath startPage endPage outputDir ;;
       logger_info env "Extract pages to %1" [extractPath] ;;
       ret extractPath
     else ret inputPdfPath) ;;
  imgPaths <- convertToImages env extractPath outputDir ;;
  logger_info env "Image conversion completed" [] ;;
  ret imgPaths.

(** Lines 145-175: the page count, then the images. *)
Definition rasterize (env : Env) (outputDir inputPdfPath : string)
    (startPage endPage : JS.number) : M (list string) :=
  totalPages <- getTotalPages env inputPdfPath ;;
  render_range env outputDir inputPdfPath totalPages startPage endPage.

(** The name of the working directory for a timestamp. *)
Definition output_dir (now : string) : string :=
  path_join "output"
    (JS.replace_all_chars (fun c => Ascii.eqb c ":" || Ascii.eqb c ".") "" now).

(** Lines 97-175, on the arguments [process.argv.slice(2)] and the whole of
    standard input: validation, the working directory, the saved input and
    the images.  The result is the working directory and the image paths. *)
Definition prepare (env : Env) (args : list string) (stdin : string)
  : M (string * list string) :=
  match args with
  | [] =>
      logger_error env "Usage: ts-node index.ts [start_page] [end_page] < path_to_input.md" ;;
      process_exit 1
  | _ =>
      let '(startPage, endPage) := parse_args args in
      if (String.length stdin =? 0)%nat then
        logger_error env "No input data received" ;;
        logger_error env "Usage: ts-node index.ts [start_page] [end_page] < path_to_input.pdf" ;;
        process_exit 1
      else
        now <- date_now env ;;
        let outputDir := output_dir now in
        mkdirSync outputDir ;;
        let inputPdfPath := path_join outputDir "input.pdf" in
        writeFileSync inputPdfPath stdin ;;
        imgPaths <- rasterize env outputDir inputPdfPath startPage endPage ;;
        ret (outputDir, imgPaths)
  end.

(** Lines 177-197: transcription, output and removal of the working
    directory [outputDir]. *)
Definition finish (env : Env) (outputDir : string) (imgPaths : list string) : M unit :=
  markdown <- transcribe env (JS.sort imgPaths) "" ;;
  logger_info env "Image conversion to Markdown completed" [] ;;
  emit (ConsoleLog markdown) ;;
  rmSync outputDir ;;
  process_exit 0.

(** [main].  An outcome [Throw e] is a rejection of the promise of the
    ['end'] handler of standard input, inside which all the steps after
    the check of the arguments run. *)
Definition main (env : Env) (args : list string) (stdin : string) : M unit :=
  prepared <- prepare env args stdin ;;
  finish env (fst prepared) (snd prepared).

(** ** Observations on a run *)

(** What Node writes to standard output for an event: [console.log] and
    [console.info] both print their line there, followed by a line feed. *)
Definition stdout_chunk (e : Event) : option string :=
  match e with
  | ConsoleInfo line | ConsoleLog line => Some (line ++ nl)
  | _ => None
  end.

(** The text on standard output after a trace. *)
Definition stdout (t : list Event) : string :=
  String.concat "" (omap stdout_chunk t).

(** The arguments of the [console.log] calls of a trace. *)
Definition console_logs (t : list Event) : list string :=
  omap (fun e => match e with ConsoleLog line => Some line | _ => None end) t.

(** The tool invocations of a trace. *)
Definition spawns (t : list Event) : list (string * list string) :=
  omap (fun e => match e with Spawn cmd args => Some (cmd, args) | _ => None end) t.

(** The requests of a trace. *)
Definition posts (t : list Event) : list (string * Payload) :=
  omap (fun e => match e with HttpPost url _ p => Some (url, p) | _ => None end) t.

(** The files read in a trace. *)
Definition reads (t : list Event) : list string :=
  omap (fun e => match e with ReadFileSync p => Some p | _ => None end) t.

(** The directories removed in a trace. *)
Definition removals (t : list Event) : list string :=
  omap (fun e => match e with RmSync p => Some p | _ => None end) t.

(** Something exists at [dir] or below it. *)
Definition on_disk (fs : gmap string Node) (dir : string) : Prop :=
  exists p, under dir p = true /\ is_Some (fs !! p).

(** The world at the start of a run. *)
Definition initial_world (fs : gmap string Node) : World := mkWorld fs 0 0 [].

(** ** Vocabulary of the properties *)

(** The world after the [catch] block of the retry loop has handled the
    error [e]: the error is logged and 500ms are waited. *)
Definition after_failure (env : Env) (e : JSError) (w : World) : World :=
  record (Sleep 500)
    (record (ConsoleError (env_now env (w_clock w) ++ " - ERROR - "
                             ++ "LLM call failed: " ++ err_message e))
       (tick w)).

(** [failed_attempts env attempt k w w']: from [w], [k] attempts in a row
    threw, each followed by the handler, and the world is then [w']. *)
Inductive failed_attempts (env : Env) (attempt : M value) : nat -> World -> World -> Prop :=
| failed_none w : failed_attempts env attempt 0 w w
| failed_next k w e w1 w2 :
    attempt w = (Throw e, w1) ->
    failed_attempts env attempt k (after_failure env e w1) w2 ->
    failed_attempts env attempt (S k) w w2.

(** The API key is set to a non-empty string. *)
Definition has_key (env : Env) : bool :=
  JS.truthy_string (default "" (env_getenv env "OPENAI_API_KEY")).

(** The client [completion] builds when the key is set. *)
Definition client_of (env : Env) (model : string) : LLMClient :=
  mkLLMClient
    (env_or env "OPENAI_API_BASE"
       "https://generativelanguage.googleapis.com/v1beta/openai/")
    (default "" (env_getenv env "OPENAI_API_KEY"))
    (if negb (JS.truthy_string model)
     then env_or env "OPENAI_DEFAULT_MODEL" "gemini-1.5-pro"
     else model).

(** One attempt of the transcription of the image at [imagePath]. *)
Definition page_attempt (env : Env) (imagePath : string) : M value :=
  client_completion env (client_of env "gemini-1.5-pro") userPrompt (Some "")
    (Some [imagePath]) (Some (3 # 10)%Q) (Some 8192%Z).

(** [sound d Q C m]: whatever world [m] starts in, it leaves a directory
    at [d] in place, every event it adds to the trace satisfies [Q], and
    if it ends the process the exit code satisfies [C]. *)
Definition sound (d : string) (Q : Event -> Prop) (C : Z -> Prop) {A} (m : M A) : Prop :=
  forall w out w',
    m w = (out, w') ->
    (w_fs w !! d = Some Dir -> w_fs w' !! d = Some Dir)
    /\ (exists evs, w_trace w' = (w_trace w ++ evs)%list /\ Forall Q evs)
    /\ (forall c, out = Exit c -> C c).

(** The request parameters of the transcription call. *)
Definition vision_payload (p : Payload) : Prop :=
  p_model p = "gemini-1.5-pro"
  /\ p_temperature p = (3 # 10)%Q
  /\ p_max_tokens p = 8192%Z.

(** The events of a call of [completion] whose requests satisfy [P]. *)
Definition completion_event (P : Payload -> Prop) (e : Event) : Prop :=
  match e with
  | ConsoleError _ | ReadFileSync _ => True
  | Sleep ms => ms = 500%Z
  | HttpPost _ _ p => P p
  | _ => False
  end.

(** The events of the transcription loop. *)
Definition transcribe_event (e : Event) : Prop :=
  match e with
  | ConsoleInfo _ => True
  | _ => completion_event vision_payload e
  end.

(** The events of [PDFWorker.convertToImages] on [pdfPath]. *)
Definition raster_event (pdfPath outputDir : string) (e : Event) : Prop :=
  match e with
  | MkdirSync _ | ReaddirSync _ => True
  | Spawn cmd args =>
      cmd = "pdftoppm"
      /\ args = ["-jpeg"; "-r"; "300"; pdfPath;
                 path_join (path_join outputDir "images") "page"]
  | _ => False
  end.

(** The events from the end of the extraction step to the image paths. *)
Definition render_event (pdfPath outputDir : string) (e : Event) : Prop :=
  match e with
  | ConsoleInfo _ => True
  | _ => raster_event pdfPath outputDir e
  end.

(** The kinds of events of the steps up to the image paths. *)
Definition prepare_event (e : Event) : Prop :=
  match e with
  | ConsoleInfo _ | MkdirSync _ | WriteFileSync _ _ | ReaddirSync _ | Spawn _ _ => True
  | _ => False
  end.

(** An event that removes nothing. *)
Definition no_removal (e : Event) : Prop :=
  match e with
  | RmSync _ => False
  | _ => True
  end.

(** An event that is no tool invocation. *)
Definition no_spawn (e : Event) : Prop :=
  match e with
  | Spawn _ _ => False
  | _ => True
  end.

(** An event that is neither a request nor a removal. *)
Definition no_post_no_rm (e : Event) : Prop :=
  match e with
  | HttpPost _ _ _ | RmSync _ => False
  | _ => True
  end.

(** The invocation of [pdftk] for a range. *)
Definition pdftk_call (outputDir inputPdfPath : string) (startPage endPage : JS.number)
  : string * list string :=
  ("pdftk", [inputPdfPath; "cat"; range_string startPage endPage; "output";
             extract_path outputDir startPage endPage]).

(** The invocation of [pdftoppm] on a PDF. *)
Definition pdftoppm_call (outputDir pdfPath : string) : string * list string :=
  ("pdftoppm", ["-jpeg"; "-r"; "300"; pdfPath;
                path_join (path_join outputDir "images") "page"]).

(** The tool invocations of the steps from the resolved range to the
    images: [pdftk] on the range and [pdftoppm] on the extracted PDF when
    the range is not the whole document, [pdftoppm] on the input PDF
    otherwise. *)
Definition range_calls (outputDir inputPdfPath : string)
    (totalPages startPage endPage : JS.number) : list (string * list string) :=
  if needs_extraction totalPages startPage endPage
  then [pdftk_call outputDir inputPdfPath startPage endPage;
        pdftoppm_call outputDir (extract_path outputDir startPage endPage)]
  else [pdftoppm_call outputDir inputPdfPath].

(** ** A small concrete outside, to run the program on

    A PDF is a string with one character per page.  [pdfinfo] prints the
    page count, [pdftk] cuts a range out, [pdftoppm] writes one image per
    page whose content is the page's character, and the endpoint answers
    an image of page [c] with the text ["# Page c"] and a line feed. *)
Module Toy.

Definition failed : ToolRun := mkToolRun (Closed (Some 1%Z)) "" [].

Definition pdfinfo (args : list string) (fs : gmap string Node) : ToolRun :=
  match args with
  | [p] =>
      match fs !! p with
      | Some (File d) =>
          mkToolRun (Closed (Some 0%Z))
            ("Title:          toy" ++ nl ++ "Pages:          "
               ++ string_of_nat (String.length d) ++ nl)
            []
      | _ => failed
      end
  | _ => failed
  end.

Definition pdftk (args : list string) (fs : gmap string Node) : ToolRun :=
  match args with
  | [p; "cat"; range; "output"; out] =>
      match fs !! p, JS.find_first "-" range with
      | Some (File d), Some (a, b) =>
          match JS.parseInt a, JS.parseInt b with
          | JS.Num s, JS.Num e =>
              if ((1 <=? s) && (s <=? e) && (e <=? Z.of_nat (String.length d)))%Z
              then mkToolRun (Closed (Some 0%Z)) ""
                     [(out, String.substring (Z.to_nat (s - 1)) (Z.to_nat (e - s + 1)) d)]
              else failed
          | _, _ => failed
          end
      | _, _ => failed
      end
  | _ => failed
  end.

Fixpoint page_images (prefix : string) (i : nat) (d : string) : list (string * string) :=
  match d with
  | EmptyString => []
  | String c d' =>
      (prefix ++ "-" ++ string_of_nat i ++ ".jpg", String c EmptyString)
        :: page_images prefix (S i) d'
  end.

Definition pdftoppm (args : list string) (fs : gmap string Node) : ToolRun :=
  match args with
  | ["-jpeg"; "-r"; "300"; p; prefix] =>
      match fs !! p with
      | Some (File d) => mkToolRun (Closed (Some 0%Z)) "" (page_images prefix 1 d)
      | _ => failed
      end
  | _ => failed
  end.

Definition tools (cmd : string) (args : list string) (fs : gmap string Node) : ToolRun :=
  if String.eqb cmd "pdfinfo" then pdfinfo args fs
  else if String.eqb cmd "pdftk" then pdftk args fs
  else if String.eqb cmd "pdftoppm" then pdftoppm args fs
  else mkToolRun (SpawnError ("spawn " ++ cmd ++ " ENOENT")) "" [].

(** The image data of a request: the last inline image of its turns. *)
Definition image_data (p : Payload) : option string :=
  last (concat
          (map (fun m =>
                  match content m with
                  | ContentList items =>
                      omap (fun it => match it with
                                      | ImageItem _ _ d => Some d
                                      | TextItem _ => None
                                      end) items
                  | _ => []
                  end) (p_messages p))).

Definition pages : list string := ["1"; "2"; "3"; "4"; "5"; "6"; "7"; "8"; "9"].

Definition answer (text : value) : value :=
  VObj [("candidates", VArr [VObj [("content", VObj [("parts", VArr [VObj [("text", text)]])])]])].

(** The endpoint that transcribes page [c] as ["# Page c"]. *)
Definition transcriber (n : nat) (url : string) (headers : list (string * string))
    (p : Payload) : HttpResult :=
  match image_data p with
  | Some d =>
      match List.find (fun c => String.eqb (base64 c) d) pages with
      | Some c => HttpOk (answer (VStr ("# Page " ++ c ++ nl)))
      | None => HttpFail (Error "Request failed with status code 400")
      end
  | None => HttpFail (Error "Request failed with status code 400")
  end.

(** The endpoint that is down. *)
Definition unreachable (n : nat) (url : string) (headers : list (string * string))
    (p : Payload) : HttpResult :=
  HttpFail (Error "connect ECONNREFUSED").

Definition with_key (name : string) : option string :=
  if String.eqb name "OPENAI_API_KEY" then Some "secret" else None.

Definition without_key (name : string) : option string := None.

Definition clock (n : nat) : string := "2024-01-02T03:04:05.678Z".

Definition env : Env := mkEnv with_key clock tools transcriber.

Definition env_down : Env := mkEnv with_key clock tools unreachable.

Definition env_no_key : Env := mkEnv without_key clock tools transcriber.

(** No tool can be started. *)
Definition no_tools (cmd : string) (args : list string) (fs : gmap string Node) : ToolRun :=
  mkToolRun (SpawnError ("spawn " ++ cmd ++ " ENOENT")) "" [].

Definition env_no_tools : Env := mkEnv with_key clock no_tools transcriber.

(** The endpoint whose answers have a first part without a [text]. *)
Definition textless : value :=
  VObj [("candidates", VArr [VObj [("content", VObj [("parts", VArr [VObj []])])]])].

Definition env_textless : Env :=
  mkEnv with_key clock tools (fun _ _ _ _ => HttpOk textless).

(** The working directory of a run under [clock]. *)
Definition dir : string := "output/2024-01-02T030405678Z".

(** A disk with one page image on it. *)
Definition one_image : gmap string Node := {["a.jpg" := File "1"]}.

(** The scenario: a PDF of three pages, the arguments [2] and [3]. *)
Definition scenario : Outcome unit * World :=
  main env ["2"; "3"] "123" (initial_world ∅).

(** The text the scenario is expected to print. *)
Definition expected : string :=
  "# Page 2" ++ nl ++ nl ++ nl ++ "# Page 3" ++ nl ++ nl ++ nl.

End Toy.

(** ** Further vocabulary *)

From Stdlib Require Sorted DecimalPos.

(** Every character of [s] satisfies [p]. *)
Fixpoint string_forall (p : ascii -> bool) (s : string) : bool :=
  match s with
  | EmptyString => true
  | String c s' => p c && string_forall p s'
  end.

(** [steps R m]: whatever world [m] starts in, the world it ends in is
    related to it by [R]. *)
Definition steps (R : World -> World -> Prop) {A} (m : M A) : Prop :=
  forall w out w', m w = (out, w') -> R w w'.

(** What was on disk is still there (its content may have changed). *)
Definition fs_grows (w w' : World) : Prop :=
  forall p, is_Some (w_fs w !! p) -> is_Some (w_fs w' !! p).

(** The world with more events on its trace. *)
Definition add_events (evs : list Event) (w : World) : World :=
  mkWorld (w_fs w) (w_clock w) (w_requests w) (w_trace w ++ evs).

(** The inline item of an image with the content [d]. *)
Definition image_item (d : string) : ContentItem :=
  ImageItem "base64" "image/jpeg" (base64 d).

(** The waits of a trace, in milliseconds. *)
Definition sleeps (t : list Event) : list Z :=
  omap (fun e => match e with Sleep ms => Some ms | _ => None end) t.

(** [costs_at_most r p s m]: a run of [m] reads at most [r] files, sends
    at most [p] requests and waits at most [s] times. *)
Definition costs_at_most (r p s : nat) {A} (m : M A) : Prop :=
  forall w out w',
    m w = (out, w') ->
    exists evs,
      w_trace w' = (w_trace w ++ evs)%list
      /\ (length (reads evs) <= r)%nat
      /\ (length (posts evs) <= p)%nat
      /\ (length (sleeps evs) <= s)%nat.

(** The lines written to standard error. *)
Definition console_errors (t : list Event) : list string :=
  omap (fun e => match e with ConsoleError line => Some line | _ => None end) t.

(** The user turn the client builds for a message and the contents of its
    images: one object without images, a list with them. *)
Definition user_content (userMessage : string) (images : list string) : Content :=
  match images with
  | [] => ContentObject (TextItem userMessage)
  | _ => ContentList (TextItem userMessage
                        :: map image_item images)
  end.

(** The turns of a request. *)
Definition request_messages (systemPrompt userMessage : string) (images : list string)
  : list Message :=
  ((if JS.truthy_string systemPrompt
    then [mkMessage "system" (ContentString systemPrompt)]
    else [])
     ++ [mkMessage "user" (user_content userMessage images)])%list.

(** The address and the headers of a client's requests. *)
Definition request_url (client : LLMClient) : string :=
  baseUrl client ++ "models/" ++ model client ++ ":generateContent".

Definition request_headers (client : LLMClient) : list (string * string) :=
  [("Content-Type", "application/json"); ("Authorization", "Bearer " ++ apiKey client)].

(** The events of the steps up to the image paths, diagnostics included. *)
Definition early_event (e : Event) : Prop :=
  match e with
  | ConsoleError _ => True
  | _ => prepare_event e
  end.

(** A number that a double holds exactly and that [String(n)] writes
    digit by digit: [NaN], or an integer of absolute value at most
    [Number.MAX_SAFE_INTEGER], 2^53 - 1. *)
Definition safe_number (n : JS.number) : Prop :=
  match n with
  | JS.Num z => (Z.abs z <= 9007199254740991)%Z
  | JS.NaN => True
  end.

(** More concrete outsides. *)
Module Cases.

(** Tools that all succeed and leave nothing behind; [pdfinfo] reports a
    document without pages. *)
Definition blank_tools (cmd : string) (args : list string) (fs : gmap string Node) : ToolRun :=
  mkToolRun (Closed (Some 0%Z)) ("Pages:          0" ++ nl) [].

Definition env_blank : Env := mkEnv Toy.without_key Toy.clock blank_tools Toy.transcriber.

(** A response body that has [null] for first candidate. *)
Definition null_candidate : value := VObj [("candidates", VArr [VNull])].

(** A disk with two page images. *)
Definition two_images : gmap string Node :=
  {["a.jpg" := File "1"; "b.jpg" := File "2"]}.

End Cases.

(** * Properties *)

(** ** Page-range resolution *)

Section RangeResolution.

Variable totalPages : Z.
Hypothesis at_least_one_page : (1 <= totalPages)%Z.

(** A valid range is returned as it is. *)
Lemma resolve_range_valid (s e : Z) :
  (1 <= s)%Z -> (s <= e)%Z -> (e <= totalPages)%Z ->
  resolve_range (JS.Num totalPages) (JS.Num s) (JS.Num e) = (JS.Num s, JS.Num e).
Proof.
  intros Hs Hse He. unfold resolve_range, JS.gt, JS.lt, JS.strict_eq.
  replace (s <? 1)%Z with false by (symmetry; apply Z.ltb_ge; lia).
  replace (totalPages <? s)%Z with false by (symmetry; apply Z.ltb_ge; lia).
  replace (e =? 0)%Z with false by (symmetry; apply Z.eqb_neq; lia).
  replace (totalPages <? e)%Z with false by (symmetry; apply Z.ltb_ge; lia).
  reflexivity.
Qed.

(** A start outside [1, totalPages] becomes 1, whatever the end is. *)
Lemma resolve_range_start_outside (s : Z) (e : JS.number) :
  (s < 1 \/ totalPages < s)%Z ->
  fst (resolve_range (JS.Num totalPages) (JS.Num s) e) = JS.Num 1.
Proof.
  intros H. unfold resolve_range, JS.gt, JS.lt. cbn [fst].
  destruct (Z.ltb_spec s 1); [reflexivity |].
  destruct (Z.ltb_spec totalPages s); [reflexivity | lia].
Qed.

(** An end that is 0 or above the page count becomes the page count. *)
Lemma resolve_range_end_unset_or_above (s : JS.number) (e : Z) :
  (e = 0 \/ totalPages < e)%Z ->
  snd (resolve_range (JS.Num totalPages) s (JS.Num e)) = JS.Num totalPages.
Proof.
  intros H. unfold resolve_range, JS.gt, JS.lt, JS.strict_eq. cbn [snd].
  destruct (Z.eqb_spec e 0); [reflexivity |].
  destruct (Z.ltb_spec totalPages e); [reflexivity | lia].
Qed.

(** An end below 0 is out of bounds and yet kept: the test on the end has
    no lower bound other than the value 0. *)
Lemma resolve_range_end_negative (s : JS.number) (e : Z) :
  (e < 0)%Z ->
  snd (resolve_range (JS.Num totalPages) s (JS.Num e)) = JS.Num e.
Proof.
  intros H. unfold resolve_range, JS.gt, JS.lt, JS.strict_eq. cbn [snd].
  destruct (Z.eqb_spec e 0); [lia |].
  destruct (Z.ltb_spec totalPages e); [lia | reflexivity].
Qed.

End RangeResolution.

(** C1 (the code departs from it): the arguments [1] and [-1] on a
    document of three pages.  The end [-1] is out of bounds and should
    resolve to the page count 3; the code keeps [-1] and hands the range
    [1--1] to [pdftk]. *)
Theorem negative_end_is_not_clamped :
  resolve_range (JS.Num 3) (JS.parseInt "1") (JS.parseInt "-1")
    = (JS.Num 1, JS.Num (-1))
  /\ spawns (w_trace (snd (main Toy.env ["1"; "-1"] "123" (initial_world ∅))))
     = [("pdfinfo", [path_join Toy.dir "input.pdf"]);
        pdftk_call Toy.dir (path_join Toy.dir "input.pdf") (JS.Num 1) (JS.Num (-1))]
  /\ range_string (JS.Num 1) (JS.Num (-1)) = "1--1".
Proof.
  split; [vm_compute; reflexivity |].
  split; vm_compute; reflexivity.
Qed.

(** ** The primitives on concrete inputs *)

Example parseInt_examples :
  JS.parseInt "12" = JS.Num 12
  /\ JS.parseInt "  -7px" = JS.Num (-7)
  /\ JS.parseInt "+3" = JS.Num 3
  /\ JS.parseInt "0x10" = JS.Num 0
  /\ JS.parseInt "abc" = JS.NaN
  /\ JS.parseInt "" = JS.NaN
  /\ JS.parseInt "-" = JS.NaN.
Proof. repeat split. Qed.

Example parse_args_examples :
  parse_args ["2"; "3"] = (JS.Num 2, JS.Num 3)
  /\ parse_args ["5"] = (JS.Num 1, JS.Num 5)
  /\ parse_args ["2"; "3"; "4"] = (JS.Num 2, JS.Num 3)
  /\ parse_args ["x"] = (JS.Num 1, JS.NaN).
Proof. repeat split. Qed.

Example match_pages_examples :
  match_pages ("Title: a" ++ nl ++ "Pages:          12" ++ nl ++ "Encrypted: no") = Some "12"
  /\ match_pages "Pages:3" = None
  /\ match_pages "Pages: three" = None
  /\ match_pages "Pages: x Pages:  7" = Some "7".
Proof. repeat split. Qed.

Example sort_is_by_code_unit :
  JS.sort ["page-2.jpg"; "page-10.jpg"; "page-1.jpg"]
  = ["page-1.jpg"; "page-10.jpg"; "page-2.jpg"].
Proof. reflexivity. Qed.

Example format_message_examples :
  format_message "Start processing from page %1 to page %2" ["2"; "3"]
  = "Start processing from page 2 to page 3"
  /\ format_message "Markdown info %1" ["a $$ b"] = "Markdown info a $ b"
  /\ format_message "Image conversion completed" [] = "Image conversion completed".
Proof. repeat split. Qed.

Example base64_examples :
  base64 "Man" = "TWFu" /\ base64 "Ma" = "TWE=" /\ base64 "M" = "TQ==" /\ base64 "" = "".
Proof. repeat split. Qed.

Example output_dir_example :
  output_dir "2024-01-02T03:04:05.678Z" = "output/2024-01-02T030405678Z".
Proof. reflexivity. Qed.

Example ancestors_example :
  ancestors "output/t/images" = ["output"; "output/t"; "output/t/images"].
Proof. reflexivity. Qed.

Example string_of_value_examples :
  string_of_value VUndefined = Ok "undefined"
  /\ string_of_value (VArr [VNum (JS.Num 1); VNull; VStr "a"]) = Ok "1,,a"
  /\ string_of_value (VObj []) = Ok "[object Object]"
  /\ string_of_value (VObj [("toString", VNum (JS.Num 0))])
     = Raise cannot_convert
  /\ string_of_value (VArr [VStr "a"; VObj [("toString", VNull)]])
     = Raise cannot_convert.
Proof. repeat split. Qed.

Example positive_literal_examples :
  map JS.positive_literal
    ["1"; " 12 "; "0"; ""; "-3"; "+.5"; "5."; "."; "1e-400"; "3e-324"; "2e-324";
     "0x1F"; "0x"; "0b0"; "Infinity"; "-Infinity"; "infinity"; "1e5x"; "1,2";
     "[object Object]"; "1e400"; "0.000"]
  = [true; true; false; false; false; true; true; false; false; true; false;
     true; false; false; true; false; false; false; false;
     false; true; false].
Proof. vm_compute. reflexivity. Qed.

Example gt_zero_examples :
  gt_zero (VStr "1") = Ok true
  /\ gt_zero (VArr [VNum (JS.Num 2)]) = Ok true
  /\ gt_zero (VArr []) = Ok false
  /\ gt_zero (VObj [("valueOf", VNum (JS.Num 1))]) = Ok false
  /\ gt_zero (VObj [("valueOf", VNum (JS.Num 0)); ("toString", VNum (JS.Num 0))])
     = Raise cannot_convert.
Proof. repeat split. Qed.
(** ** Parsing of the response *)

Lemma gt_zero_length {A} (x : A) (l : list A) :
  gt_zero (VNum (JS.Num (Z.of_nat (length (x :: l))))) = Ok true.
Proof. reflexivity. Qed.

Lemma get_prop_member (ms : list (string * value)) (prop : string) (v : value) :
  assoc prop ms = Some v -> get_prop (VObj ms) prop = Ok v.
Proof. intros H. cbn [get_prop]. rewrite H. reflexivity. Qed.

Lemma get_prop_no_member (ms : list (string * value)) (prop : string) :
  assoc prop ms = None -> get_prop (VObj ms) prop = Ok VUndefined.
Proof. intros H. cbn [get_prop]. rewrite H. reflexivity. Qed.

Lemma get_prop_length (l : list value) :
  get_prop (VArr l) "length" = Ok (VNum (JS.Num (Z.of_nat (length l)))).
Proof. reflexivity. Qed.

(** A response of the expected shape gives the [text] member of the first
    part of the first candidate, and [undefined] when that part has none. *)
Lemma extract_text_shaped (ms cm km pm : list (string * value)) (cs ps : list value) :
  assoc "candidates" ms = Some (VArr (VObj cm :: cs)) ->
  assoc "content" cm = Some (VObj km) ->
  assoc "parts" km = Some (VArr (VObj pm :: ps)) ->
  extract_text (VObj ms) = Ok (default VUndefined (assoc "text" pm)).
Proof.
  intros Hc Hk Hp.
  unfold extract_text, has_text_shape, first_part_text.
  rewrite (get_prop_member _ _ _ Hc).
  cbn [truthy negb result_bind get_first head default from_option id].
  rewrite (get_prop_member _ _ _ Hk).
  cbn [truthy negb result_bind].
  rewrite (get_prop_member _ _ _ Hp), !get_prop_length.
  cbn [truthy negb result_bind].
  rewrite !gt_zero_length.
  reflexivity.
Qed.

(** A body that is falsy gives the empty string. *)
Lemma extract_text_no_data (data : value) :
  truthy data = false -> extract_text data = Ok (VStr "").
Proof.
  intros H. unfold extract_text, has_text_shape. rewrite H. reflexivity.
Qed.

(** No [candidates] member: the empty string. *)
Lemma extract_text_no_candidates (ms : list (string * value)) :
  assoc "candidates" ms = None -> extract_text (VObj ms) = Ok (VStr "").
Proof.
  intros H. unfold extract_text, has_text_shape.
  rewrite (get_prop_no_member _ _ H). reflexivity.
Qed.

(** An empty [candidates] array: the empty string. *)
Lemma extract_text_empty_candidates (ms : list (string * value)) :
  assoc "candidates" ms = Some (VArr []) -> extract_text (VObj ms) = Ok (VStr "").
Proof.
  intros H. unfold extract_text, has_text_shape.
  rewrite (get_prop_member _ _ _ H). reflexivity.
Qed.

(** A first candidate without [content]: the empty string. *)
Lemma extract_text_no_content (ms cm : list (string * value)) (cs : list value) :
  assoc "candidates" ms = Some (VArr (VObj cm :: cs)) ->
  assoc "content" cm = None ->
  extract_text (VObj ms) = Ok (VStr "").
Proof.
  intros Hc Hk. unfold extract_text, has_text_shape.
  rewrite (get_prop_member _ _ _ Hc).
  cbn [truthy negb result_bind get_first head default from_option id].
  rewrite get_prop_length.
  cbn [truthy negb result_bind get_first head default from_option id].
  rewrite gt_zero_length.
  cbn [truthy negb result_bind get_first head default from_option id].
  rewrite (get_prop_no_member _ _ Hk). reflexivity.
Qed.

(** A first candidate whose [content] has no [parts], or an empty array
    of them: the empty string. *)
Lemma extract_text_no_parts (ms cm km : list (string * value)) (cs : list value) :
  assoc "candidates" ms = Some (VArr (VObj cm :: cs)) ->
  assoc "content" cm = Some (VObj km) ->
  assoc "parts" km = None \/ assoc "parts" km = Some (VArr []) ->
  extract_text (VObj ms) = Ok (VStr "").
Proof.
  intros Hc Hk Hp. unfold extract_text, has_text_shape.
  rewrite (get_prop_member _ _ _ Hc).
  cbn [truthy negb result_bind get_first head default from_option id].
  rewrite get_prop_length.
  cbn [truthy negb result_bind get_first head default from_option id].
  rewrite gt_zero_length.
  cbn [truthy negb result_bind get_first head default from_option id].
  rewrite (get_prop_member _ _ _ Hk).
  cbn [truthy negb result_bind].
  destruct Hp as [Hp | Hp].
  - rewrite (get_prop_no_member _ _ Hp). reflexivity.
  - rewrite (get_prop_member _ _ _ Hp). reflexivity.
Qed.

(** A first candidate that is [null] makes the guard itself throw. *)
Lemma extract_text_null_candidate (ms : list (string * value)) (cs : list value) :
  assoc "candidates" ms = Some (VArr (VNull :: cs)) ->
  extract_text (VObj ms) = Raise (cannot_read "null" "content").
Proof.
  intros Hc. unfold extract_text, has_text_shape.
  rewrite (get_prop_member _ _ _ Hc).
  cbn [truthy negb result_bind get_first head default from_option id].
  rewrite get_prop_length.
  cbn [truthy negb result_bind get_first head default from_option id].
  rewrite gt_zero_length.
  cbn [truthy negb result_bind get_first head default from_option id].
  reflexivity.
Qed.

(** Induction on a value whose array items satisfy the property. *)
Lemma value_items_ind (P : value -> Prop) :
  P VUndefined -> P VNull -> (forall b, P (VBool b)) -> (forall n, P (VNum n)) ->
  (forall s, P (VStr s)) ->
  (forall l, Forall P l -> P (VArr l)) ->
  (forall ms, P (VObj ms)) ->
  forall v, P v.
Proof.
  intros HU HN HB HNum HS HA HO.
  exact (fix F (v : value) : P v :=
           match v with
           | VUndefined => HU
           | VNull => HN
           | VBool b => HB b
           | VNum n => HNum n
           | VStr s => HS s
           | VArr l =>
               HA l ((fix G (l : list value) : Forall P l :=
                        match l with
                        | [] => @List.Forall_nil value P
                        | x :: l' => @List.Forall_cons value P x l' (F x) (G l')
                        end) l)
           | VObj ms => HO ms
           end).
Qed.

(** A conversion to a string throws nothing but [cannot_convert]. *)
Lemma string_of_value_raise (v : value) (e : JSError) :
  string_of_value v = Raise e -> e = cannot_convert.
Proof.
  revert e. induction v as [| | b | n | s | l IH | ms] using value_items_ind; intros e;
    cbn [string_of_value]; try discriminate.
  - destruct b; discriminate.
  - match goal with
    | |- result_bind (?strings l) _ = _ -> _ =>
        assert (G : forall e0, strings l = Raise e0 -> e0 = cannot_convert)
    end.
    { induction IH as [| x l0 Hx _ IHl]; intros e0; [discriminate |].
      assert (Hx' : forall e1,
                 match x with
                 | VUndefined | VNull => Ok ""
                 | _ => string_of_value x
                 end = Raise e1 -> e1 = cannot_convert).
      { intros e1. destruct x; try discriminate; apply Hx. }
      destruct (match x with
                | VUndefined | VNull => Ok ""
                | _ => string_of_value x
                end) as [sx | ex] eqn:Ex; cbn [result_bind].
      - destruct (_ l0) as [r | er] eqn:E; cbn [result_bind]; [discriminate |].
        intros H; inversion H; subst. apply IHl. reflexivity.
      - intros H; inversion H; subst. apply Hx'. reflexivity. }
    destruct (_ l) as [r | er] eqn:E; cbn [result_bind]; [discriminate |].
    intros H; inversion H; subst. apply G. reflexivity.
  - destruct (assoc "toString" ms); [| discriminate].
    intros H; inversion H; reflexivity.
Qed.

Lemma gt_zero_raise (v : value) (e : JSError) :
  gt_zero v = Raise e -> e = cannot_convert.
Proof.
  destruct v as [| | b | n | s | l | ms]; cbn [gt_zero]; try discriminate.
  - destruct (string_of_value (VArr l)) as [s | e'] eqn:E; cbn [result_bind];
      [discriminate |].
    intros H; inversion H; subst. exact (string_of_value_raise _ _ E).
  - destruct (string_of_value (VObj ms)) as [s | e'] eqn:E; cbn [result_bind];
      [discriminate |].
    intros H; inversion H; subst. exact (string_of_value_raise _ _ E).
Qed.

(** C6 (the code departs from it): a response whose first part has no
    [text] member should give the empty string; the code returns
    [undefined], from the parser and from the client alike, and a run
    prints the word [undefined] for the page. *)
Theorem absent_text_is_undefined :
  extract_text Toy.textless = Ok VUndefined
  /\ extract_text Toy.textless <> Ok (VStr "")
  /\ fst (client_completion Toy.env_textless (client_of Toy.env_textless "gemini-1.5-pro")
            "transcribe" None None None None (initial_world ∅))
     = Ret VUndefined
  /\ console_logs (w_trace (snd (main Toy.env_textless ["1"] "1" (initial_world ∅))))
     = ["undefined" ++ nl ++ nl].
Proof.
  split; [vm_compute; reflexivity |].
  split; [vm_compute; discriminate |].
  split; vm_compute; reflexivity.
Qed.

(** ** Reasoning about computations *)

Lemma bind_inv {A B} (m : M A) (k : A -> M B) (w : World) (out : Outcome B) (w' : World) :
  bind m k w = (out, w') ->
  (exists a w1, m w = (Ret a, w1) /\ k a w1 = (out, w'))
  \/ (exists e, m w = (Throw e, w') /\ out = Throw e)
  \/ (exists c, m w = (Exit c, w') /\ out = Exit c).
Proof.
  unfold bind. destruct (m w) as [[a | e | c] w1]; intros H.
  - left. eauto.
  - right. left. inversion H; subst. eauto.
  - right. right. inversion H; subst. eauto.
Qed.

Lemma try_catch_inv {A} (m : M A) (h : JSError -> M A) (w : World) (out : Outcome A) (w' : World) :
  try_catch m h w = (out, w') ->
  (exists e w1, m w = (Throw e, w1) /\ h e w1 = (out, w'))
  \/ (m w = (out, w') /\ forall e, out <> Throw e).
Proof.
  unfold try_catch. destruct (m w) as [[a | e | c] w1]; intros H.
  - right. inversion H; subst. split; [reflexivity | discriminate].
  - left. eauto.
  - right. inversion H; subst. split; [reflexivity | discriminate].
Qed.

Lemma bind_ret_eq {A B} (m : M A) (k : A -> M B) (w : World) (a : A) (w1 : World) :
  m w = (Ret a, w1) -> bind m k w = k a w1.
Proof. intros H. unfold bind. rewrite H. reflexivity. Qed.

Lemma bind_throw_eq {A B} (m : M A) (k : A -> M B) (w : World) (e : JSError) (w1 : World) :
  m w = (Throw e, w1) -> bind m k w = (Throw e, w1).
Proof. intros H. unfold bind. rewrite H. reflexivity. Qed.

Lemma bind_exit_eq {A B} (m : M A) (k : A -> M B) (w : World) (c : Z) (w1 : World) :
  m w = (Exit c, w1) -> bind m k w = (Exit c, w1).
Proof. intros H. unfold bind. rewrite H. reflexivity. Qed.

Lemma logger_error_eq (env : Env) (message : string) (w : World) :
  logger_error env message w
  = (Ret tt, record (ConsoleError (env_now env (w_clock w) ++ " - ERROR - " ++ message))
               (tick w)).
Proof. reflexivity. Qed.

Lemma logger_info_eq (env : Env) (message : string) (args : list string) (w : World) :
  logger_info env message args w
  = (Ret tt, record (ConsoleInfo (env_now env (w_clock w) ++ " - INFO - "
                                    ++ format_message message args))
               (tick w)).
Proof. reflexivity. Qed.

Section Sound.

Variable d : string.
Variable Q : Event -> Prop.
Variable C : Z -> Prop.

Lemma sound_ret {A} (a : A) : sound d Q C (ret a).
Proof.
  intros w out w' H. inversion H; subst. split; [auto |]. split.
  - exists []. rewrite app_nil_r. auto.
  - discriminate.
Qed.

Lemma sound_throw {A} (e : JSError) : sound d Q C (@throw A e).
Proof.
  intros w out w' H. inversion H; subst. split; [auto |]. split.
  - exists []. rewrite app_nil_r. auto.
  - discriminate.
Qed.

Lemma sound_exit {A} (c : Z) : C c -> sound d Q C (@process_exit A c).
Proof.
  intros Hc w out w' H. inversion H; subst. split; [auto |]. split.
  - exists []. rewrite app_nil_r. auto.
  - intros c' Hc'. inversion Hc'; subst. exact Hc.
Qed.

Lemma sound_bind {A B} (m : M A) (k : A -> M B) :
  sound d Q C m -> (forall a, sound d Q C (k a)) -> sound d Q C (bind m k).
Proof.
  intros Hm Hk w out w' H.
  apply bind_inv in H as [(a & w1 & H1 & H2) | [(e & H1 & ->) | (c & H1 & ->)]].
  - destruct (Hm _ _ _ H1) as (F1 & (evs1 & T1 & Q1) & _).
    destruct (Hk a _ _ _ H2) as (F2 & (evs2 & T2 & Q2) & X2).
    split; [auto |]. split; [| exact X2].
    exists (evs1 ++ evs2)%list. rewrite T2, T1, app_assoc. split; [reflexivity |].
    apply Forall_app. auto.
  - destruct (Hm _ _ _ H1) as (F1 & T1 & _). split; [auto |]. split; [auto | discriminate].
  - destruct (Hm _ _ _ H1) as (F1 & T1 & X1). split; [auto |]. split; [auto |].
    intros c' Hc'. inversion Hc'; subst. apply X1. reflexivity.
Qed.

Lemma sound_try_catch {A} (m : M A) (h : JSError -> M A) :
  sound d Q C m -> (forall e, sound d Q C (h e)) -> sound d Q C (try_catch m h).
Proof.
  intros Hm Hh w out w' H.
  apply try_catch_inv in H as [(e & w1 & H1 & H2) | (H1 & _)].
  - destruct (Hm _ _ _ H1) as (F1 & (evs1 & T1 & Q1) & _).
    destruct (Hh e _ _ _ H2) as (F2 & (evs2 & T2 & Q2) & X2).
    split; [auto |]. split; [| exact X2].
    exists (evs1 ++ evs2)%list. rewrite T2, T1, app_assoc. split; [reflexivity |].
    apply Forall_app. auto.
  - exact (Hm _ _ _ H1).
Qed.

Lemma sound_emit (e : Event) : Q e -> sound d Q C (emit e).
Proof.
  intros He w out w' H. inversion H; subst. split; [auto |]. split.
  - exists [e]. split; [reflexivity | auto].
  - discriminate.
Qed.

Lemma sound_lift {A} (r : result A) : sound d Q C (lift r).
Proof. destruct r; [apply sound_ret | apply sound_throw]. Qed.

Lemma sound_date_now (env : Env) : sound d Q C (date_now env).
Proof.
  intros w out w' H. inversion H; subst. split; [auto |]. split.
  - exists []. cbn. rewrite app_nil_r. auto.
  - discriminate.
Qed.

(** A computation that only looks at the world and changes nothing but,
    possibly, the request counter. *)
Lemma sound_quiet {A} (f : World -> Outcome A * World) :
  (forall w, w_fs (snd (f w)) = w_fs w /\ w_trace (snd (f w)) = w_trace w
             /\ forall c, fst (f w) <> Exit c) ->
  sound d Q C f.
Proof.
  intros Hf w out w' H. destruct (Hf w) as (F & T & X). rewrite H in F, T, X.
  cbn in F, T, X. split; [rewrite F; auto |]. split.
  - exists []. rewrite T, app_nil_r. auto.
  - intros c ->. exfalso. exact (X c eq_refl).
Qed.

Lemma sound_logger_info (env : Env) (message : string) (args : list string) :
  (forall line, Q (ConsoleInfo line)) -> sound d Q C (logger_info env message args).
Proof.
  intros HQ. apply sound_bind; [apply sound_date_now | intros now; apply sound_emit, HQ].
Qed.

Lemma sound_logger_error (env : Env) (message : string) :
  (forall line, Q (ConsoleError line)) -> sound d Q C (logger_error env message).
Proof.
  intros HQ. apply sound_bind; [apply sound_date_now | intros now; apply sound_emit, HQ].
Qed.

Lemma insert_dirs_keeps (ds : list string) (fs : gmap string Node) :
  fs !! d = Some Dir -> foldr (fun p m => <[p := Dir]> m) fs ds !! d = Some Dir.
Proof.
  intros H. induction ds as [| p ds IH]; [exact H |].
  cbn [foldr]. destruct (decide (p = d)) as [-> | Hne].
  - apply lookup_insert_eq.
  - rewrite lookup_insert_ne; auto.
Qed.

Lemma sound_mkdirSync (p : string) : Q (MkdirSync p) -> sound d Q C (mkdirSync p).
Proof.
  intros HQ. apply sound_bind; [apply sound_emit, HQ | intros _].
  intros w out w' H. cbv zeta in H.
  destruct (existsb (is_file (w_fs w)) (ancestors p)); inversion H; subst.
  - split; [auto |]. split; [exists []; rewrite app_nil_r; auto | discriminate].
  - split; [apply insert_dirs_keeps |].
    split; [exists []; cbn; rewrite app_nil_r; auto | discriminate].
Qed.

Lemma sound_writeFileSync (p data : string) :
  Q (WriteFileSync p data) -> sound d Q C (writeFileSync p data).
Proof.
  intros HQ. apply sound_bind; [apply sound_emit, HQ | intros _].
  intros w out w' H.
  destruct (w_fs w !! p) as [[| old] |] eqn:Hp; inversion H; subst.
  - split; [auto |]. split; [exists []; rewrite app_nil_r; auto | discriminate].
  - split; [| split; [exists []; cbn; rewrite app_nil_r; auto | discriminate]].
    intros Hd. cbn. destruct (decide (p = d)) as [-> | Hne]; [congruence |].
    rewrite lookup_insert_ne; auto.
  - split; [| split; [exists []; cbn; rewrite app_nil_r; auto | discriminate]].
    intros Hd. cbn. destruct (decide (p = d)) as [-> | Hne]; [congruence |].
    rewrite lookup_insert_ne; auto.
Qed.

Lemma sound_readFileSync (p : string) : Q (ReadFileSync p) -> sound d Q C (readFileSync p).
Proof.
  intros HQ. apply sound_bind; [apply sound_emit, HQ | intros _].
  apply sound_quiet. intros w. destruct (w_fs w !! p) as [[| data] |]; cbn; repeat split; discriminate.
Qed.

Lemma sound_readdirSync (p : string) : Q (ReaddirSync p) -> sound d Q C (readdirSync p).
Proof.
  intros HQ. apply sound_bind; [apply sound_emit, HQ | intros _].
  apply sound_quiet. intros w. destruct (w_fs w !! p) as [[| data] |]; cbn; repeat split; discriminate.
Qed.

Lemma add_files_keep (files : list (string * string)) (fs : gmap string Node) :
  fs !! d = Some Dir -> fold_left add_file files fs !! d = Some Dir.
Proof.
  revert fs. induction files as [| f files IH]; intros fs H; [exact H |].
  cbn [fold_left]. apply IH. unfold add_file.
  destruct (fs !! f.1) as [[| old] |] eqn:Hf; [exact H | |].
  - destruct (decide (f.1 = d)) as [E | Hne]; [congruence |].
    rewrite lookup_insert_ne; auto.
  - destruct (decide (f.1 = d)) as [E | Hne]; [congruence |].
    rewrite lookup_insert_ne; auto.
Qed.

Lemma sound_spawn (env : Env) (cmd : string) (args : list string) :
  Q (Spawn cmd args) -> sound d Q C (spawn env cmd args).
Proof.
  intros HQ. apply sound_bind; [apply sound_emit, HQ | intros _].
  intros w out w' H. inversion H; subst.
  split; [apply add_files_keep |].
  split; [exists []; cbn; rewrite app_nil_r; auto | discriminate].
Qed.

Lemma sound_axios_post (env : Env) (url : string) (headers : list (string * string))
    (payload : Payload) :
  Q (HttpPost url headers payload) -> sound d Q C (axios_post env url headers payload).
Proof.
  intros HQ. apply sound_bind; [apply sound_emit, HQ | intros _].
  apply sound_quiet. intros w.
  destruct (env_post env (w_requests w) url headers payload); cbn; repeat split; discriminate.
Qed.

End Sound.

Lemma sound_weaken (d : string) (Q Q' : Event -> Prop) (C C' : Z -> Prop) {A} (m : M A) :
  (forall e, Q e -> Q' e) -> (forall c, C c -> C' c) ->
  sound d Q C m -> sound d Q' C' m.
Proof.
  intros HQ HC Hm w out w' H. destruct (Hm _ _ _ H) as (F & (evs & T & QQ) & X).
  split; [exact F |]. split.
  - exists evs. split; [exact T |]. eapply Forall_impl; eauto.
  - intros c Hc. apply HC, X, Hc.
Qed.

(** ** What each part of the program may do *)

Section SoundProgram.

Variable d : string.
Variable env : Env.

Lemma sound_read_images (P : Payload -> Prop) (C : Z -> Prop) (imagePaths : list string) :
  sound d (completion_event P) C (read_images imagePaths).
Proof.
  induction imagePaths as [| imagePath rest IH]; cbn [read_images].
  - apply sound_ret.
  - apply sound_bind.
    + apply sound_try_catch.
      * apply sound_bind; [apply sound_readFileSync; exact I | intros; apply sound_ret].
      * intros e. apply sound_bind; [apply sound_emit; exact I | intros; apply sound_throw].
    + intros item. apply sound_bind; [exact IH | intros; apply sound_ret].
Qed.

(** The client reads the images, sends one request with its model, the
    temperature and the token budget it was given, and never ends the
    process. *)
Lemma sound_client_completion (P : Payload -> Prop) (C : Z -> Prop) (client : LLMClient)
    (userMessage : string) (systemPrompt : option string)
    (imagePaths : option (list string)) (temperature : option Q) (maxTokens : option Z) :
  (forall messages,
     P (mkPayload (model client) messages (default (1 # 2)%Q temperature)
          (default 8192%Z maxTokens))) ->
  sound d (completion_event P) C
    (client_completion env client userMessage systemPrompt imagePaths temperature maxTokens).
Proof.
  intros HP. unfold client_completion. apply sound_bind.
  - destruct imagePaths as [[| p ps] |].
    + apply sound_ret.
    + apply sound_bind; [apply sound_read_images | intros; apply sound_ret].
    + apply sound_ret.
  - intros userContent. apply sound_try_catch.
    + apply sound_bind; [apply sound_axios_post; apply HP | intros; apply sound_lift].
    + intros e. apply sound_bind; [apply sound_emit; exact I | intros; apply sound_throw].
Qed.

Lemma sound_retry_loop (P : Payload -> Prop) (C : Z -> Prop) (attempt : M value) (n : nat) :
  sound d (completion_event P) C attempt ->
  sound d (completion_event P) C (retry_loop env attempt n).
Proof.
  intros Ha. induction n as [| n IH]; cbn [retry_loop].
  - apply sound_ret.
  - apply sound_try_catch; [exact Ha | intros e].
    apply sound_bind; [apply sound_logger_error; intros; exact I | intros _].
    apply sound_bind; [apply sound_emit; reflexivity | intros _; exact IH].
Qed.

(** The model a call of [completion] ends up with. *)
Lemma sound_completion (message : string) (model systemPrompt : option string)
    (imagePaths : option (list string)) (temperature : option Q)
    (maxTokens retryTimes : option Z) :
  sound d
    (completion_event
       (fun p =>
          p_model p = (if negb (JS.truthy_string (default "" model))
                       then env_or env "OPENAI_DEFAULT_MODEL" "gemini-1.5-pro"
                       else default "" model)
          /\ p_temperature p = default (1 # 2)%Q temperature
          /\ p_max_tokens p = default 8192%Z maxTokens))
    (fun c => c = 1%Z)
    (completion env message model systemPrompt imagePaths temperature maxTokens retryTimes).
Proof.
  unfold completion.
  destruct (negb (JS.truthy_string (default "" (env_getenv env "OPENAI_API_KEY")))).
  - apply sound_bind; [apply sound_logger_error; intros; exact I | intros _].
    apply sound_exit. reflexivity.
  - apply sound_retry_loop, sound_client_completion.
    intros messages. cbn. auto.
Qed.

Lemma sound_convertImageToMarkdown (imagePath : string) :
  sound d (completion_event vision_payload) (fun c => c = 1%Z)
    (convertImageToMarkdown env imagePath).
Proof.
  unfold convertImageToMarkdown.
  eapply sound_weaken; [| | apply sound_completion]; [| auto].
  intros [] H; cbn in *; auto.
Qed.

Lemma sound_transcribe (imgPaths : list string) (markdown : string) :
  sound d transcribe_event (fun c => c = 1%Z) (transcribe env imgPaths markdown).
Proof.
  revert markdown. induction imgPaths as [| imgPath rest IH]; intros markdown; cbn [transcribe].
  - apply sound_ret.
  - apply sound_bind; [apply sound_logger_info; intros; exact I | intros _].
    apply sound_bind.
    + eapply sound_weaken; [| | apply sound_convertImageToMarkdown]; [| auto].
      intros [] H; cbn in *; auto.
    + intros imgMarkdown.
      apply sound_bind; [apply sound_lift | intros text].
      apply sound_bind; [apply sound_logger_info; intros; exact I | intros _; apply IH].
Qed.

Lemma sound_getTotalPages (Q : Event -> Prop) (C : Z -> Prop) (pdfPath : string) :
  Q (Spawn "pdfinfo" [pdfPath]) -> sound d Q C (getTotalPages env pdfPath).
Proof.
  intros HQ. unfold getTotalPages.
  apply sound_bind; [apply sound_spawn, HQ | intros run].
  destruct (tool_exit run) as [msg | code]; [apply sound_throw |].
  destruct (code_not_zero code); [apply sound_throw |].
  destruct (match_pages (tool_stdout run)); [apply sound_ret | apply sound_throw].
Qed.

Lemma sound_extractPages (Q : Event -> Prop) (C : Z -> Prop) (pdfPath : string)
    (startPage endPage : JS.number) (outputDir : string) :
  Q (Spawn (fst (pdftk_call outputDir pdfPath startPage endPage))
       (snd (pdftk_call outputDir pdfPath startPage endPage))) ->
  sound d Q C (extractPages env pdfPath startPage endPage outputDir).
Proof.
  intros HQ. unfold extractPages.
  apply sound_bind; [apply sound_spawn, HQ | intros run].
  destruct (tool_exit run) as [msg | code]; [apply sound_throw |].
  destruct (code_not_zero code); [apply sound_throw | apply sound_ret].
Qed.

Lemma sound_convertToImages (C : Z -> Prop) (pdfPath outputDir : string) :
  sound d (raster_event pdfPath outputDir) C (convertToImages env pdfPath outputDir).
Proof.
  unfold convertToImages.
  apply sound_bind; [apply sound_mkdirSync; exact I | intros _].
  apply sound_bind; [apply sound_spawn; split; reflexivity | intros run].
  destruct (tool_exit run) as [msg | code]; [apply sound_throw |].
  destruct (code_not_zero code); [apply sound_throw |].
  apply sound_try_catch.
  - apply sound_bind; [apply sound_readdirSync; exact I | intros; apply sound_ret].
  - intros e. apply sound_throw.
Qed.

End SoundProgram.

(** ** One call of the client *)

Lemma add_events_nil (w : World) : add_events [] w = w.
Proof. destruct w. unfold add_events. cbn. rewrite app_nil_r. reflexivity. Qed.

Lemma add_events_app (l1 l2 : list Event) (w : World) :
  add_events l2 (add_events l1 w) = add_events (l1 ++ l2) w.
Proof. unfold add_events. cbn. rewrite app_assoc. reflexivity. Qed.

Lemma readFileSync_file (p d : string) (w : World) :
  w_fs w !! p = Some (File d) ->
  readFileSync p w = (Ret d, add_events [ReadFileSync p] w).
Proof.
  intros H. unfold readFileSync, bind, emit. cbn [record w_fs]. rewrite H. reflexivity.
Qed.

(** Images that are all on disk are read once each, in order. *)
Lemma read_images_ok (paths datas : list string) (w : World) :
  Forall2 (fun p d => w_fs w !! p = Some (File d)) paths datas ->
  read_images paths w = (Ret (map image_item datas), add_events (map ReadFileSync paths) w).
Proof.
  intros H. revert w H.
  assert (G : forall fs, Forall2 (fun p d => fs !! p = Some (File d)) paths datas ->
              forall w, w_fs w = fs ->
              read_images paths w
              = (Ret (map image_item datas), add_events (map ReadFileSync paths) w)).
  { intros fs H. induction H as [| p d paths datas Hp _ IH]; intros w Hw.
    - cbn. rewrite add_events_nil. reflexivity.
    - cbn [read_images map].
      erewrite bind_ret_eq.
      2:{ unfold try_catch. erewrite bind_ret_eq by (apply readFileSync_file; rewrite Hw; exact Hp).
          reflexivity. }
      erewrite bind_ret_eq by (apply IH; exact Hw).
      unfold ret. rewrite add_events_app. reflexivity. }
  intros w H. exact (G (w_fs w) H w eq_refl).
Qed.

(** The request and the parsing of its answer, lines 78-107. *)
Lemma post_and_parse (env : Env) (url : string) (headers : list (string * string))
    (payload : Payload) (w : World) :
  try_catch
    (data <- axios_post env url headers payload ;; lift (extract_text data))
    (fun error =>
       console_error ("Error calling LLM API: " ++ string_of_error error) ;;
       throw error) w
  = match env_post env (w_requests w) url headers payload with
    | HttpOk data =>
        match extract_text data with
        | Ok text =>
            (Ret text, count_request (add_events [HttpPost url headers payload] w))
        | Raise e =>
            (Throw e,
             count_request
               (add_events
                  [HttpPost url headers payload;
                   ConsoleError ("Error calling LLM API: " ++ string_of_error e)] w))
        end
    | HttpFail e =>
        (Throw e,
         count_request
           (add_events
              [HttpPost url headers payload;
               ConsoleError ("Error calling LLM API: " ++ string_of_error e)] w))
    end.
Proof.
  destruct (env_post env (w_requests w) url headers payload) as [data | e] eqn:E.
  - unfold try_catch, bind at 1. unfold bind at 1.
    replace (axios_post env url headers payload w)
      with (@Ret value data, count_request (add_events [HttpPost url headers payload] w))
      by (unfold axios_post, bind, emit; cbn [record w_requests]; rewrite E; reflexivity).
    destruct (extract_text data) as [text | e]; [reflexivity |].
    unfold lift, console_error, emit, throw, bind, count_request, add_events, record.
    cbn. rewrite <- ?app_assoc. reflexivity.
  - unfold try_catch, bind at 1. unfold bind at 1.
    replace (axios_post env url headers payload w)
      with (@Throw value e, count_request (add_events [HttpPost url headers payload] w))
      by (unfold axios_post, bind, emit; cbn [record w_requests]; rewrite E; reflexivity).
    unfold lift, console_error, emit, throw, bind, count_request, add_events, record.
    cbn. rewrite <- ?app_assoc. reflexivity.
Qed.

(** A client call whose images are all on disk reads them and sends its
    request, whatever comes of it. *)
Lemma client_completion_sends (env : Env) (client : LLMClient) (userMessage : string)
    (systemPrompt : option string) (paths datas : list string)
    (temperature : option Q) (maxTokens : option Z) (w : World) :
  Forall2 (fun p d => w_fs w !! p = Some (File d)) paths datas ->
  exists out w' tail,
    client_completion env client userMessage systemPrompt (Some paths) temperature
      maxTokens w = (out, w')
    /\ w_trace w'
       = (w_trace w
            ++ map ReadFileSync paths
            ++ HttpPost (request_url client) (request_headers client)
                 (mkPayload (model client)
                    (request_messages (default "" systemPrompt) userMessage datas)
                    (default (1 # 2)%Q temperature) (default 8192%Z maxTokens))
            :: tail)%list.
Proof.
  intros H.
  unfold request_url, request_headers, request_messages, client_completion.
  assert (E1 : (match Some paths with
                | Some ((_ :: _) as paths0) =>
                    images <- read_images paths0 ;;
                    ret (ContentList (TextItem userMessage :: images))
                | _ => ret (ContentObject (TextItem userMessage))
                end) w
               = (Ret (user_content userMessage datas),
                  add_events (map ReadFileSync paths) w)).
  { destruct H as [| p d paths datas Hp Hrest].
    - cbn. rewrite add_events_nil. reflexivity.
    - erewrite bind_ret_eq
        by (apply read_images_ok; constructor; [exact Hp | exact Hrest]).
      reflexivity. }
  erewrite bind_ret_eq by exact E1.
  rewrite post_and_parse. cbn [add_events w_requests].
  destruct (env_post _ _ _ _ _) as [data | e].
  - destruct (extract_text data) as [text | e]; rewrite add_events_app;
      do 2 eexists; [exists [] | eexists]; (split; [reflexivity |]);
      cbn [count_request add_events w_trace]; rewrite <- ?app_assoc; reflexivity.
  - rewrite add_events_app. do 2 eexists. eexists. split; [reflexivity |].
    cbn [count_request add_events w_trace]. rewrite <- ?app_assoc. reflexivity.
Qed.
(** ** The requests of the transcription call *)

Lemma posts_app (t1 t2 : list Event) : posts (t1 ++ t2) = (posts t1 ++ posts t2)%list.
Proof. unfold posts. apply omap_app. Qed.

Lemma posts_of_completion_events (P : Payload -> Prop) (evs : list Event) :
  Forall (completion_event P) evs -> Forall (fun up => P (snd up)) (posts evs).
Proof.
  induction 1 as [| e evs He _ IH]; [constructor |].
  destruct e; cbn in *; auto.
Qed.

(** ** The retry loop *)

Lemma handler_eq (env : Env) (attempt : M value) (n : nat) (e : JSError) (w : World) :
  (logger_error env ("LLM call failed: " ++ err_message e) ;;
   sleep 500 ;;
   retry_loop env attempt n) w
  = retry_loop env attempt n (after_failure env e w).
Proof. reflexivity. Qed.

(** One turn of the loop. *)
Lemma retry_loop_turn (env : Env) (attempt : M value) (n : nat) (w : World) :
  retry_loop env attempt (S n) w
  = match attempt w with
    | (Throw e, w1) => retry_loop env attempt n (after_failure env e w1)
    | r => r
    end.
Proof. reflexivity. Qed.

(** Attempts that all throw exhaust the loop, which then returns the
    empty string. *)
Lemma retry_loop_all_failed (env : Env) (attempt : M value) (n : nat) (w w' : World) :
  failed_attempts env attempt n w w' ->
  retry_loop env attempt n w = (Ret (VStr ""), w').
Proof.
  induction 1 as [w | k w e w1 w2 Ha _ IH]; [reflexivity |].
  cbn [retry_loop]. unfold try_catch. rewrite Ha, handler_eq. exact IH.
Qed.

(** The first attempt that does not throw ends the loop at once. *)
Lemma retry_loop_first_success (env : Env) (attempt : M value) (n k : nat)
    (w w1 w' : World) (out : Outcome value) :
  failed_attempts env attempt k w w1 ->
  (k < n)%nat ->
  attempt w1 = (out, w') ->
  (forall e, out <> Throw e) ->
  retry_loop env attempt n w = (out, w').
Proof.
  intros Hf. revert n. induction Hf as [w | k w e w1 w2 Ha _ IH]; intros n Hk Hs Hne.
  - destruct n as [| n]; [lia |]. cbn [retry_loop]. unfold try_catch. rewrite Hs.
    destruct out; [reflexivity | exfalso; eapply Hne; reflexivity | reflexivity].
  - destruct n as [| n]; [lia |]. cbn [retry_loop]. unfold try_catch.
    rewrite Ha, handler_eq. apply IH; [lia | exact Hs | exact Hne].
Qed.

(** Every run of the loop is of one of these two kinds. *)
Lemma retry_loop_spec (env : Env) (attempt : M value) (n : nat) (w : World) :
  exists k w1,
    failed_attempts env attempt k w w1
    /\ ((k = n /\ retry_loop env attempt n w = (Ret (VStr ""), w1))
        \/ ((k < n)%nat
            /\ attempt w1 = retry_loop env attempt n w
            /\ forall e, fst (retry_loop env attempt n w) <> Throw e)).
Proof.
  revert w. induction n as [| n IH]; intros w.
  - exists 0%nat, w. split; [constructor |]. left. split; reflexivity.
  - destruct (attempt w) as [[r | e | c] w1] eqn:Ha.
    + exists 0%nat, w. split; [constructor |]. right.
      cbn [retry_loop]. unfold try_catch. rewrite Ha. repeat split; [lia | discriminate].
    + destruct (IH (after_failure env e w1)) as (k & w2 & Hf & Hcase).
      exists (S k), w2. split; [econstructor; eauto |].
      cbn [retry_loop]. unfold try_catch. rewrite Ha, handler_eq.
      destruct Hcase as [(-> & Hr) | (Hk & Hs & Hne)].
      * left. split; [reflexivity | exact Hr].
      * right. repeat split; [lia | exact Hs | exact Hne].
    + exists 0%nat, w. split; [constructor |]. right.
      cbn [retry_loop]. unfold try_catch. rewrite Ha. repeat split; [lia | discriminate].
Qed.

(** With a key, [completion] is the retry loop around its client. *)
Lemma completion_with_key (env : Env) (message : string) (model systemPrompt : option string)
    (imagePaths : option (list string)) (temperature : option Q)
    (maxTokens retryTimes : option Z) :
  has_key env = true ->
  completion env message model systemPrompt imagePaths temperature maxTokens retryTimes
  = retry_loop env
      (client_completion env (client_of env (default "" model)) message
         (Some (default "" systemPrompt)) imagePaths
         (Some (default (1 # 2)%Q temperature)) (Some (default 8192%Z maxTokens)))
      (Z.to_nat (default 3%Z retryTimes)).
Proof. unfold has_key, completion. intros ->. reflexivity. Qed.

(** Without a key, [completion] logs and ends the process with code 1. *)
Lemma completion_without_key (env : Env) (message : string) (model systemPrompt : option string)
    (imagePaths : option (list string)) (temperature : option Q)
    (maxTokens retryTimes : option Z) (w : World) :
  has_key env = false ->
  completion env message model systemPrompt imagePaths temperature maxTokens retryTimes w
  = (Exit 1,
     record (ConsoleError (env_now env (w_clock w) ++ " - ERROR - "
                             ++ "Please set the OPENAI_API_KEY environment variables"))
       (tick w)).
Proof. unfold has_key, completion. intros ->. reflexivity. Qed.

(** The client never ends the process. *)
Lemma client_completion_no_exit (env : Env) (client : LLMClient) (userMessage : string)
    (systemPrompt : option string) (imagePaths : option (list string))
    (temperature : option Q) (maxTokens : option Z) (w : World) (c : Z) :
  fst (client_completion env client userMessage systemPrompt imagePaths temperature
         maxTokens w) <> Exit c.
Proof.
  destruct (client_completion env client userMessage systemPrompt imagePaths temperature
              maxTokens w) as [out w'] eqn:E.
  intros H. cbn in H.
  destruct (sound_client_completion "" env (fun _ => True) (fun _ => False) client
              userMessage systemPrompt imagePaths temperature maxTokens
              (fun _ => I) _ _ _ E) as (_ & _ & X).
  exact (X c H).
Qed.

(** C5: with the key set, a call of [completion] makes at most
    [retryTimes] attempts (3 when the argument is omitted).  Each attempt
    that throws is followed by the logged error and a wait of 500ms
    ([failed_attempts]).  Either all [retryTimes] attempts threw and the
    result is the empty string, or fewer threw and the result is what the
    next attempt returned, with nothing done after it.  No error reaches
    the caller. *)
Theorem completion_retries (env : Env) (message : string) (model systemPrompt : option string)
    (imagePaths : option (list string)) (temperature : option Q)
    (maxTokens retryTimes : option Z) (w : World) :
  has_key env = true ->
  let attempt :=
    client_completion env (client_of env (default "" model)) message
      (Some (default "" systemPrompt)) imagePaths
      (Some (default (1 # 2)%Q temperature)) (Some (default 8192%Z maxTokens)) in
  let n := Z.to_nat (default 3%Z retryTimes) in
  let run :=
    completion env message model systemPrompt imagePaths temperature maxTokens
      retryTimes w in
  (retryTimes = None -> n = 3%nat)
  /\ (forall e, fst run <> Throw e)
  /\ exists k w1,
       failed_attempts env attempt k w w1
       /\ ((k = n /\ run = (Ret (VStr ""), w1))
           \/ ((S k <= n)%nat /\ exists r, attempt w1 = (Ret r, snd run) /\ fst run = Ret r)).
Proof.
  intros Hkey attempt n run.
  assert (Hrun : run = retry_loop env attempt n w)
    by (unfold run; rewrite completion_with_key by exact Hkey; reflexivity).
  split; [intros ->; reflexivity |].
  destruct (retry_loop_spec env attempt n w) as (k & w1 & Hf & Hcase).
  rewrite <- Hrun in Hcase.
  destruct Hcase as [(Hk & Hr) | (Hk & Hs & Hne)].
  - split; [rewrite Hr; discriminate |].
    exists k, w1. split; [exact Hf |]. left. split; assumption.
  - split; [exact Hne |].
    exists k, w1. split; [exact Hf |]. right. split; [lia |].
    destruct run as [[r | e | c] w'] eqn:E.
    + exists r. split; [exact Hs | reflexivity].
    + exfalso. exact (Hne e eq_refl).
    + exfalso.
      eapply (client_completion_no_exit env (client_of env (default "" model)) message
                (Some (default "" systemPrompt)) imagePaths
                (Some (default (1 # 2)%Q temperature)) (Some (default 8192%Z maxTokens))
                w1 c).
      fold attempt. rewrite Hs. reflexivity.
Qed.

(** What the handler of a failed attempt adds to the trace. *)
Lemma after_failure_trace (env : Env) (e : JSError) (w : World) :
  w_trace (after_failure env e w)
  = (w_trace w
       ++ [ConsoleError (env_now env (w_clock w) ++ " - ERROR - "
                           ++ "LLM call failed: " ++ err_message e);
           Sleep 500])%list.
Proof. unfold after_failure, record. cbn. rewrite <- app_assoc. reflexivity. Qed.

(** [completion_retries] on an endpoint that is down: three attempts. *)
Lemma completion_retries_witness :
  has_key Toy.env_down = true
  /\ let attempt :=
       client_completion Toy.env_down (client_of Toy.env_down "gemini-1.5-pro")
         userPrompt (Some "") (Some ["a.jpg"]) (Some (3 # 10)%Q) (Some 8192%Z) in
     let run := convertImageToMarkdown Toy.env_down "a.jpg" (initial_world Toy.one_image) in
     (forall e, fst run <> Throw e)
     /\ exists k w1,
          failed_attempts Toy.env_down attempt k (initial_world Toy.one_image) w1
          /\ ((k = 3%nat /\ run = (Ret (VStr ""), w1))
              \/ ((S k <= 3)%nat
                  /\ exists r, attempt w1 = (Ret r, snd run) /\ fst run = Ret r)).
Proof.
  split; [reflexivity |].
  apply (completion_retries Toy.env_down userPrompt (Some "gemini-1.5-pro") (Some "")
           (Some ["a.jpg"]) (Some (3 # 10)%Q) (Some 8192%Z) None
           (initial_world Toy.one_image)).
  reflexivity.
Defined.

(** ** A page that cannot be transcribed *)

Lemma convertImageToMarkdown_with_key (env : Env) (imagePath : string) :
  has_key env = true ->
  convertImageToMarkdown env imagePath = retry_loop env (page_attempt env imagePath) 3.
Proof.
  intros Hkey. unfold convertImageToMarkdown. rewrite completion_with_key by exact Hkey.
  reflexivity.
Qed.

(** C8: every request of [convertImageToMarkdown] names the model
    [gemini-1.5-pro], the temperature 0.3 and a budget of 8192 tokens,
    whatever the environment holds; the variable OPENAI_DEFAULT_MODEL
    decides the model only of a call of [completion] without a model.
    Such a request is sent: with the key set and the image a readable
    file, the call reads the image and then posts the prompt and the image
    with exactly these parameters. *)
Theorem vision_call_parameters (env : Env) (w : World) :
  (forall imagePath,
     exists evs,
       w_trace (snd (convertImageToMarkdown env imagePath w)) = (w_trace w ++ evs)%list
       /\ Forall (fun up => vision_payload (snd up)) (posts evs))
  /\ (forall message systemPrompt imagePaths temperature maxTokens retryTimes,
        exists evs,
          w_trace (snd (completion env message None systemPrompt imagePaths temperature
                          maxTokens retryTimes w))
          = (w_trace w ++ evs)%list
          /\ Forall (fun up => p_model (snd up)
                               = env_or env "OPENAI_DEFAULT_MODEL" "gemini-1.5-pro")
               (posts evs))
  /\ (forall imagePath data,
        has_key env = true ->
        w_fs w !! imagePath = Some (File data) ->
        exists evs,
          w_trace (snd (convertImageToMarkdown env imagePath w))
          = (w_trace w
               ++ ReadFileSync imagePath
               :: HttpPost
                    (env_or env "OPENAI_API_BASE"
                       "https://generativelanguage.googleapis.com/v1beta/openai/"
                       ++ "models/gemini-1.5-pro:generateContent")%string
                    [("Content-Type", "application/json");
                     ("Authorization",
                      ("Bearer " ++ default "" (env_getenv env "OPENAI_API_KEY"))%string)]
                    (mkPayload "gemini-1.5-pro"
                       [mkMessage "user"
                          (ContentList [TextItem userPrompt;
                                        ImageItem "base64" "image/jpeg" (base64 data)])]
                       (3 # 10)%Q 8192%Z)
               :: evs)%list).
Proof.
  split; [| split].
  - intros imagePath.
    destruct (convertImageToMarkdown env imagePath w) as [out w'] eqn:E.
    destruct (sound_convertImageToMarkdown "" env imagePath _ _ _ E) as (_ & (evs & T & HQ) & _).
    exists evs. split; [exact T |]. apply posts_of_completion_events, HQ.
  - intros message systemPrompt imagePaths temperature maxTokens retryTimes.
    destruct (completion env message None systemPrompt imagePaths temperature maxTokens
                retryTimes w) as [out w'] eqn:E.
    destruct (sound_completion "" env _ _ _ _ _ _ _ _ _ _ E) as (_ & (evs & T & HQ) & _).
    exists evs. split; [exact T |].
    apply posts_of_completion_events in HQ.
    eapply Forall_impl; [exact HQ |]. cbn. intros up (Hm & _). exact Hm.
  - intros imagePath data K Hf.
    rewrite (convertImageToMarkdown_with_key env imagePath K).
    destruct (client_completion_sends env (client_of env "gemini-1.5-pro") userPrompt
                (Some "") [imagePath] [data] (Some (3 # 10)%Q) (Some 8192%Z) w)
      as (out & w1 & tail & E & T).
    { constructor; [exact Hf | constructor]. }
    fold (page_attempt env imagePath) in E.
    change (w_trace w1
            = (w_trace w
                 ++ ReadFileSync imagePath
                 :: HttpPost
                      (env_or env "OPENAI_API_BASE"
                         "https://generativelanguage.googleapis.com/v1beta/openai/"
                         ++ "models/gemini-1.5-pro:generateContent")%string
                      [("Content-Type", "application/json");
                       ("Authorization",
                        ("Bearer " ++ default "" (env_getenv env "OPENAI_API_KEY"))%string)]
                      (mkPayload "gemini-1.5-pro"
                         [mkMessage "user"
                            (ContentList [TextItem userPrompt;
                                          ImageItem "base64" "image/jpeg" (base64 data)])]
                         (3 # 10)%Q 8192%Z)
                 :: tail)%list) in T.
    rewrite retry_loop_turn, E.
    destruct out as [v | e | c]; [exists tail; exact T | | exists tail; exact T].
    destruct (retry_loop env (page_attempt env imagePath) 2 (after_failure env e w1))
      as [out2 w2] eqn:E2.
    assert (S : sound "" (completion_event (fun _ => True)) (fun _ => True)
                  (page_attempt env imagePath))
      by (apply sound_client_completion; intros; exact I).
    destruct (sound_retry_loop "" env _ _ _ 2 S _ _ _ E2) as (_ & (evs2 & T2 & _) & _).
    cbn [snd]. rewrite T2, after_failure_trace, T.
    eexists. rewrite <- !app_assoc. cbn [app]. reflexivity.
Qed.

(** [vision_call_parameters] on a readable page image, with the key set:
    the request is sent. *)
Lemma vision_call_parameters_witness :
  (has_key Toy.env = true
   /\ w_fs (initial_world Toy.one_image) !! "a.jpg" = Some (File "1"))
  /\ exists evs,
       w_trace (snd (convertImageToMarkdown Toy.env "a.jpg" (initial_world Toy.one_image)))
       = (w_trace (initial_world Toy.one_image)
            ++ ReadFileSync "a.jpg"
            :: HttpPost
                 (env_or Toy.env "OPENAI_API_BASE"
                    "https://generativelanguage.googleapis.com/v1beta/openai/"
                    ++ "models/gemini-1.5-pro:generateContent")%string
                 [("Content-Type", "application/json");
                  ("Authorization",
                   ("Bearer " ++ default "" (env_getenv Toy.env "OPENAI_API_KEY"))%string)]
                 (mkPayload "gemini-1.5-pro"
                    [mkMessage "user"
                       (ContentList [TextItem userPrompt;
                                     ImageItem "base64" "image/jpeg" (base64 "1")])]
                    (3 # 10)%Q 8192%Z)
            :: evs)%list.
Proof.
  assert (K : has_key Toy.env = true) by reflexivity.
  assert (F : w_fs (initial_world Toy.one_image) !! "a.jpg" = Some (File "1"))
    by (vm_compute; reflexivity).
  split; [split; [exact K | exact F] |].
  exact (proj2 (proj2 (vision_call_parameters Toy.env (initial_world Toy.one_image)))
           "a.jpg" "1" K F).
Defined.

(** C4: a page whose three attempts all throw adds the empty string and
    then the separator of two line feeds to the Markdown; nothing is
    thrown, and the loop goes on with the pages that follow. *)
Theorem failed_page_adds_separator (env : Env) (imgPath : string) (rest : list string)
    (markdown : string) (w w' : World) :
  has_key env = true ->
  let normalizedPath := JS.replace_all_chars (Ascii.eqb "\") "/" imgPath in
  failed_attempts env (page_attempt env normalizedPath) 3
    (snd (logger_info env "Converting image %1 to Markdown" [normalizedPath] w)) w' ->
  transcribe env (imgPath :: rest) markdown w
  = (logger_info env "Markdown info %1" [(markdown ++ "") ++ nl ++ nl] ;;
     transcribe env rest ((markdown ++ "") ++ nl ++ nl)) w'.
Proof.
  intros Hkey normalizedPath Hf.
  cbn [transcribe]. fold normalizedPath.
  rewrite logger_info_eq in Hf. cbn [snd] in Hf.
  erewrite bind_ret_eq by apply logger_info_eq.
  rewrite (convertImageToMarkdown_with_key env normalizedPath Hkey).
  erewrite bind_ret_eq by (apply retry_loop_all_failed; exact Hf).
  reflexivity.
Qed.

(** [failed_page_adds_separator] on an endpoint that is down, for a page
    followed by another one. *)
Lemma failed_page_adds_separator_witness :
  let w1 := snd (logger_info Toy.env_down "Converting image %1 to Markdown" ["a.jpg"]
                   (initial_world Toy.one_image)) in
  let w' := snd (retry_loop Toy.env_down (page_attempt Toy.env_down "a.jpg") 3 w1) in
  has_key Toy.env_down = true
  /\ failed_attempts Toy.env_down (page_attempt Toy.env_down "a.jpg") 3 w1 w'
  /\ transcribe Toy.env_down ["a.jpg"; "b.jpg"] "# Title" (initial_world Toy.one_image)
     = (logger_info Toy.env_down "Markdown info %1" [("# Title" ++ "") ++ nl ++ nl] ;;
        transcribe Toy.env_down ["b.jpg"] (("# Title" ++ "") ++ nl ++ nl)) w'.
Proof.
  intros w1 w'.
  assert (Hf : failed_attempts Toy.env_down (page_attempt Toy.env_down "a.jpg") 3 w1 w').
  { eapply failed_next; [vm_compute; reflexivity |].
    eapply failed_next; [vm_compute; reflexivity |].
    eapply failed_next; [vm_compute; reflexivity |].
    apply failed_none. }
  split; [reflexivity |]. split; [exact Hf |].
  apply (failed_page_adds_separator Toy.env_down "a.jpg" ["b.jpg"] "# Title"
           (initial_world Toy.one_image) w'); [reflexivity | exact Hf].
Defined.

(** ** The extraction step *)

Lemma needs_extraction_false_iff (t : Z) (s e : JS.number) :
  needs_extraction (JS.Num t) s e = false <-> (s, e) = (JS.Num 1, JS.Num t).
Proof.
  unfold needs_extraction, JS.strict_neq, JS.strict_eq.
  destruct s as [s |], e as [e |]; cbn; split; intros H; try discriminate.
  - apply orb_false_iff in H as [H1 H2].
    apply negb_false_iff, Z.eqb_eq in H1. apply negb_false_iff, Z.eqb_eq in H2.
    congruence.
  - inversion H; subst. rewrite !Z.eqb_refl. reflexivity.
  - destruct (s =? 1)%Z; discriminate.
Qed.

Lemma sound_render_tail (d : string) (env : Env) (C : Z -> Prop) (pdfPath outputDir : string) :
  sound d (render_event pdfPath outputDir) C
    (imgPaths <- convertToImages env pdfPath outputDir ;;
     logger_info env "Image conversion completed" [] ;;
     ret imgPaths).
Proof.
  apply sound_bind.
  - eapply sound_weaken; [| | apply sound_convertToImages]; [| intros c H; exact H].
    intros [] H; cbn in *; auto; contradiction.
  - intros imgPaths. apply sound_bind; [apply sound_logger_info; intros; exact I |].
    intros _. apply sound_ret.
Qed.

(** [extractPages] adds one event, the invocation of [pdftk], and either
    returns the path of the extracted PDF or throws. *)
Lemma extractPages_run (env : Env) (pdfPath : string) (startPage endPage : JS.number)
    (outputDir : string) (w : World) :
  w_trace (snd (extractPages env pdfPath startPage endPage outputDir w))
  = (w_trace w
       ++ [Spawn "pdftk" (snd (pdftk_call outputDir pdfPath startPage endPage))])%list
  /\ (fst (extractPages env pdfPath startPage endPage outputDir w)
      = Ret (extract_path outputDir startPage endPage)
      \/ exists err,
           fst (extractPages env pdfPath startPage endPage outputDir w) = Throw err).
Proof.
  unfold extractPages, bind, spawn, emit. cbn.
  destruct (tool_exit _) as [msg | code]; cbn; [split; eauto |].
  destruct (code_not_zero code); cbn; split; eauto.
Qed.

(** The events of [render_range], by the outcome of the test of line 162. *)
Lemma render_range_events (env : Env) (outputDir inputPdfPath : string)
    (total s e : JS.number) (w : World) :
  let s' := fst (resolve_range total s e) in
  let e' := snd (resolve_range total s e) in
  exists evs,
    w_trace (snd (render_range env outputDir inputPdfPath total s e w))
    = (w_trace w ++ evs)%list
    /\ if needs_extraction total s' e'
       then exists pre post,
              evs = (pre ++ Spawn "pdftk"
                              (snd (pdftk_call outputDir inputPdfPath s' e')) :: post)%list
              /\ Forall no_spawn pre
              /\ Forall (render_event (extract_path outputDir s' e') outputDir) post
       else Forall (render_event inputPdfPath outputDir) evs.
Proof.
  intros s' e'.
  unfold render_range. subst s' e'.
  destruct (resolve_range total s e) as [s' e']. cbn [fst snd].
  destruct (needs_extraction total s' e') eqn:Hx.
  - erewrite bind_ret_eq by apply logger_info_eq.
    set (w1 := record _ (tick w)).
    destruct (extractPages_run env inputPdfPath s' e' outputDir w1) as (T & [R | (err & R)]).
    + destruct (extractPages env inputPdfPath s' e' outputDir w1) as [out w2] eqn:E.
      cbn in T, R. subst out.
      erewrite bind_ret_eq
        by (erewrite bind_ret_eq by exact E;
            erewrite bind_ret_eq by apply logger_info_eq; reflexivity).
      set (w3 := record _ (tick w2)).
      match goal with |- context [snd (?m w3)] => destruct (m w3) as [out w4] eqn:E4 end.
      destruct (sound_render_tail "" env (fun _ => True) _ _ _ _ _ E4)
        as (_ & (evs & T4 & Q4) & _).
      cbn [snd]. rewrite T4. subst w3. cbn. rewrite T. subst w1. cbn.
      eexists. split; [rewrite <- !app_assoc; reflexivity |].
      exists [ConsoleInfo (env_now env (w_clock w) ++ " - INFO - "
                ++ format_message "Start processing from page %1 to page %2"
                     [JS.string_of_number s'; JS.string_of_number e'])].
      eexists. split; [cbn; reflexivity |].
      split; [repeat constructor |]. constructor; [exact I | exact Q4].
    + destruct (extractPages env inputPdfPath s' e' outputDir w1) as [out w2] eqn:E.
      cbn in T, R. subst out.
      erewrite bind_throw_eq by (erewrite bind_throw_eq by exact E; reflexivity).
      cbn [snd]. rewrite T. subst w1. cbn.
      eexists. split; [rewrite <- !app_assoc; reflexivity |].
      exists [ConsoleInfo (env_now env (w_clock w) ++ " - INFO - "
                ++ format_message "Start processing from page %1 to page %2"
                     [JS.string_of_number s'; JS.string_of_number e'])], [].
      split; [reflexivity |]. split; repeat constructor.
  - match goal with |- context [snd (?m w)] => destruct (m w) as [out w'] eqn:E end.
    assert (S : sound "" (render_event inputPdfPath outputDir) (fun _ => True)
                  (logger_info env "Start processing from page %1 to page %2"
                     [JS.string_of_number s'; JS.string_of_number e'] ;;
                   imgPaths <- convertToImages env inputPdfPath outputDir ;;
                   logger_info env "Image conversion completed" [] ;;
                   ret imgPaths)).
    { apply sound_bind; [apply sound_logger_info; intros; exact I | intros _].
      apply sound_render_tail. }
    destruct (S _ _ _ E) as (_ & (evs & T & HQ) & _).
    exists evs. split; [exact T | exact HQ].
Qed.

Lemma spawns_app (t1 t2 : list Event) : spawns (t1 ++ t2) = (spawns t1 ++ spawns t2)%list.
Proof. unfold spawns. apply omap_app. Qed.

Lemma mkdirSync_run (p : string) (w : World) :
  exists out w',
    mkdirSync p w = (out, w')
    /\ w_trace w' = (w_trace w ++ [MkdirSync p])%list
    /\ forall c, out <> Exit c.
Proof.
  unfold mkdirSync, bind, emit. cbn [record w_fs]. cbv zeta.
  destruct (existsb _ _); do 2 eexists; (split; [reflexivity |]);
    (split; [reflexivity | discriminate]).
Qed.

Lemma readdirSync_run (p : string) (w : World) :
  exists out w',
    readdirSync p w = (out, w')
    /\ w_trace w' = (w_trace w ++ [ReaddirSync p])%list
    /\ forall c, out <> Exit c.
Proof.
  unfold readdirSync, bind, emit. cbn [record w_fs].
  destruct (w_fs w !! p) as [[| data] |]; do 2 eexists; (split; [reflexivity |]);
    (split; [reflexivity | discriminate]).
Qed.

Lemma spawn_run (env : Env) (cmd : string) (args : list string) (w : World) :
  exists w',
    spawn env cmd args w = (Ret (env_spawn env cmd args (w_fs w)), w')
    /\ w_trace w' = (w_trace w ++ [Spawn cmd args])%list.
Proof. eexists. split; reflexivity. Qed.

(** The tool invocations of [convertToImages]: [pdftoppm] once when it
    resolves, at most once when it rejects. *)
Lemma convertToImages_spawns (env : Env) (pdfPath outputDir : string) (w : World) :
  exists evs,
    w_trace (snd (convertToImages env pdfPath outputDir w)) = (w_trace w ++ evs)%list
    /\ match fst (convertToImages env pdfPath outputDir w) with
       | Ret _ => spawns evs = [pdftoppm_call outputDir pdfPath]
       | Throw _ => spawns evs = [] \/ spawns evs = [pdftoppm_call outputDir pdfPath]
       | Exit _ => False
       end.
Proof.
  unfold convertToImages. cbv zeta. set (dir := path_join outputDir "images").
  destruct (mkdirSync_run dir w) as ([[] | e | c] & w1 & H1 & T1 & X1).
  - erewrite bind_ret_eq by exact H1.
    destruct (spawn_run env "pdftoppm" ["-jpeg"; "-r"; "300"; pdfPath; path_join dir "page"] w1)
      as (w2 & H2 & T2).
    erewrite bind_ret_eq by exact H2.
    assert (T : w_trace w2
                = (w_trace w ++ [MkdirSync dir;
                                 Spawn "pdftoppm" (snd (pdftoppm_call outputDir pdfPath))])%list).
    { rewrite T2, T1, <- app_assoc. reflexivity. }
    destruct (tool_exit _) as [msg | code].
    { cbn [throw fst snd]. eexists. split; [exact T |]. right. reflexivity. }
    destruct (code_not_zero code).
    { cbn [throw fst snd]. eexists. split; [exact T |]. right. reflexivity. }
    destruct (readdirSync_run dir w2) as ([names | e | c] & w3 & H3 & T3 & X3).
    + unfold try_catch. erewrite bind_ret_eq by exact H3. cbn [ret fst snd].
      eexists. split; [rewrite T3, T, <- app_assoc; reflexivity |]. reflexivity.
    + unfold try_catch. erewrite bind_throw_eq by exact H3. cbn [throw fst snd].
      eexists. split; [rewrite T3, T, <- app_assoc; reflexivity |]. right. reflexivity.
    + exfalso. exact (X3 c eq_refl).
  - erewrite bind_throw_eq by exact H1. cbn [fst snd].
    eexists. split; [exact T1 |]. left. reflexivity.
  - exfalso. exact (X1 c eq_refl).
Qed.

(** The tool invocations of [render_range]: all of [range_calls] when it
    resolves, a first part of them when it rejects. *)
Lemma render_range_spawns (env : Env) (outputDir inputPdfPath : string)
    (total s e : JS.number) (w : World) :
  let s' := fst (resolve_range total s e) in
  let e' := snd (resolve_range total s e) in
  exists evs,
    w_trace (snd (render_range env outputDir inputPdfPath total s e w))
    = (w_trace w ++ evs)%list
    /\ match fst (render_range env outputDir inputPdfPath total s e w) with
       | Ret _ => spawns evs = range_calls outputDir inputPdfPath total s' e'
       | Throw _ =>
           exists rest,
             range_calls outputDir inputPdfPath total s' e' = (spawns evs ++ rest)%list
       | Exit _ => False
       end.
Proof.
  intros s' e'. unfold render_range, range_calls. subst s' e'.
  destruct (resolve_range total s e) as [s' e']. cbn [fst snd].
  erewrite bind_ret_eq by apply logger_info_eq.
  set (w1 := record _ (tick w)).
  assert (T1 : w_trace w1 = (w_trace w ++ [ConsoleInfo
                 (env_now env (w_clock w) ++ " - INFO - "
                    ++ format_message "Start processing from page %1 to page %2"
                         [JS.string_of_number s'; JS.string_of_number e'])])%list)
    by reflexivity.
  assert (Tail : forall pdfPath w2 pre,
             w_trace w2 = (w_trace w ++ pre)%list ->
             exists evs,
               w_trace (snd ((imgPaths <- convertToImages env pdfPath outputDir ;;
                              logger_info env "Image conversion completed" [] ;;
                              ret imgPaths) w2))
               = (w_trace w ++ pre ++ evs)%list
               /\ match fst ((imgPaths <- convertToImages env pdfPath outputDir ;;
                              logger_info env "Image conversion completed" [] ;;
                              ret imgPaths) w2) with
                  | Ret _ => spawns evs = [pdftoppm_call outputDir pdfPath]
                  | Throw _ =>
                      spawns evs = [] \/ spawns evs = [pdftoppm_call outputDir pdfPath]
                  | Exit _ => False
                  end).
  { intros pdfPath w2 pre T2.
    destruct (convertToImages_spawns env pdfPath outputDir w2) as (evs & T & Hs).
    destruct (convertToImages env pdfPath outputDir w2) as [[imgs | err | c] w3] eqn:E;
      cbn [fst snd] in T, Hs.
    - erewrite bind_ret_eq by exact E.
      erewrite bind_ret_eq by apply logger_info_eq. cbn [ret fst snd].
      exists (evs ++ [ConsoleInfo (env_now env (w_clock w3) ++ " - INFO - "
                        ++ format_message "Image conversion completed" [])])%list.
      split.
      + unfold record, tick. cbn [w_trace]. rewrite T, T2, <- !app_assoc. reflexivity.
      + rewrite spawns_app, Hs. reflexivity.
    - erewrite bind_throw_eq by exact E. cbn [fst snd].
      exists evs. split; [rewrite T, T2, <- app_assoc; reflexivity | exact Hs].
    - contradiction. }
  destruct (needs_extraction total s' e').
  - destruct (extractPages_run env inputPdfPath s' e' outputDir w1) as (T & [R | (err & R)]);
      destruct (extractPages env inputPdfPath s' e' outputDir w1) as [out w2] eqn:E;
      cbn [fst snd] in T, R; subst out.
    + erewrite bind_ret_eq
        by (erewrite bind_ret_eq by exact E;
            erewrite bind_ret_eq by apply logger_info_eq; reflexivity).
      set (w3 := record _ (tick w2)).
      destruct (Tail (extract_path outputDir s' e') w3
                  [ConsoleInfo (env_now env (w_clock w) ++ " - INFO - "
                     ++ format_message "Start processing from page %1 to page %2"
                          [JS.string_of_number s'; JS.string_of_number e']);
                   Spawn "pdftk" (snd (pdftk_call outputDir inputPdfPath s' e'));
                   ConsoleInfo (env_now env (w_clock w2) ++ " - INFO - "
                     ++ format_message "Extract pages to %1"
                          [extract_path outputDir s' e'])])
        as (evs & T3 & Hs).
      { subst w3. unfold record, tick. cbn [w_trace]. rewrite T, T1, <- !app_assoc.
        reflexivity. }
      eexists. split; [exact T3 |].
      destruct (fst _) as [imgs | err | c]; [| | contradiction].
      * rewrite spawns_app, Hs. reflexivity.
      * rewrite spawns_app. destruct Hs as [-> | ->]; [eexists; reflexivity | exists []].
        reflexivity.
    + erewrite bind_throw_eq by (erewrite bind_throw_eq by exact E; reflexivity).
      cbn [fst snd]. eexists. split; [rewrite T, T1, <- app_assoc; reflexivity |].
      eexists. reflexivity.
  - erewrite bind_ret_eq by reflexivity.
    destruct (Tail inputPdfPath w1
                [ConsoleInfo (env_now env (w_clock w) ++ " - INFO - "
                   ++ format_message "Start processing from page %1 to page %2"
                        [JS.string_of_number s'; JS.string_of_number e'])])
      as (evs & T3 & Hs); [exact T1 |].
    eexists. split; [exact T3 |].
    destruct (fst _) as [imgs | err | c]; [| | contradiction].
    + rewrite spawns_app, Hs. reflexivity.
    + rewrite spawns_app. destruct Hs as [-> | ->]; [eexists; reflexivity | exists []].
      reflexivity.
Qed.

(** C7: after range resolution on a document of [t] pages, either the
    range is (1, t), and then the only tool invoked is [pdftoppm], on the
    saved input PDF ([pdftk] is not run, so no extracted PDF appears); or
    the range differs, and then [pdftk] is run on that range and the only
    tool invoked after it is [pdftoppm], on the extracted PDF.  When the
    step resolves, these invocations have all been made: [pdftoppm] has
    run on the input PDF in the first case, [pdftk] and then [pdftoppm] on
    the extracted PDF in the second; when it rejects, those made are the
    first of them; it never ends the process. *)
Theorem extraction_only_for_partial_range (env : Env) (outputDir inputPdfPath : string)
    (t : Z) (s e : JS.number) (w : World) :
  let s' := fst (resolve_range (JS.Num t) s e) in
  let e' := snd (resolve_range (JS.Num t) s e) in
  (needs_extraction (JS.Num t) s' e' = false <-> (s', e') = (JS.Num 1, JS.Num t))
  /\ exists evs,
       w_trace (snd (render_range env outputDir inputPdfPath (JS.Num t) s e w))
       = (w_trace w ++ evs)%list
       /\ (if needs_extraction (JS.Num t) s' e'
           then exists pre post,
                  evs = (pre ++ Spawn "pdftk"
                                  (snd (pdftk_call outputDir inputPdfPath s' e')) :: post)%list
                  /\ Forall no_spawn pre
                  /\ Forall (render_event (extract_path outputDir s' e') outputDir) post
           else Forall (render_event inputPdfPath outputDir) evs)
       /\ match fst (render_range env outputDir inputPdfPath (JS.Num t) s e w) with
          | Ret _ =>
              spawns evs
              = (if needs_extraction (JS.Num t) s' e'
                 then [pdftk_call outputDir inputPdfPath s' e';
                       pdftoppm_call outputDir (extract_path outputDir s' e')]
                 else [pdftoppm_call outputDir inputPdfPath])
          | Throw _ =>
              exists rest,
                (if needs_extraction (JS.Num t) s' e'
                 then [pdftk_call outputDir inputPdfPath s' e';
                       pdftoppm_call outputDir (extract_path outputDir s' e')]
                 else [pdftoppm_call outputDir inputPdfPath])
                = (spawns evs ++ rest)%list
          | Exit _ => False
          end.
Proof.
  intros s' e'. split; [apply needs_extraction_false_iff |].
  destruct (render_range_events env outputDir inputPdfPath (JS.Num t) s e w)
    as (evs & T & H).
  destruct (render_range_spawns env outputDir inputPdfPath (JS.Num t) s e w)
    as (evs' & T' & H').
  rewrite T in T'. apply app_inv_head in T'. subst evs'.
  exists evs. split; [exact T |]. split; [exact H | exact H'].
Qed.

(** [extraction_only_for_partial_range] on pages 2 to 3 of a document of
    three pages: the step resolves after [pdftk] and [pdftoppm]. *)
Lemma extraction_only_for_partial_range_witness :
  exists evs imgPaths,
    w_trace (snd (render_range Toy.env "out" "in.pdf" (JS.Num 3) (JS.Num 2) (JS.Num 3)
                    (initial_world {["in.pdf" := File "123"]})))
    = (w_trace (initial_world {["in.pdf" := File "123"]}) ++ evs)%list
    /\ fst (render_range Toy.env "out" "in.pdf" (JS.Num 3) (JS.Num 2) (JS.Num 3)
              (initial_world {["in.pdf" := File "123"]}))
       = Ret imgPaths
    /\ spawns evs
       = [pdftk_call "out" "in.pdf" (JS.Num 2) (JS.Num 3);
          pdftoppm_call "out" (extract_path "out" (JS.Num 2) (JS.Num 3))].
Proof.
  destruct (proj2 (extraction_only_for_partial_range Toy.env "out" "in.pdf" 3
                     (JS.Num 2) (JS.Num 3) (initial_world {["in.pdf" := File "123"]})))
    as (evs & T & _ & H).
  assert (R : fst (render_range Toy.env "out" "in.pdf" (JS.Num 3) (JS.Num 2) (JS.Num 3)
                     (initial_world {["in.pdf" := File "123"]}))
              = Ret ["out/images/page-1.jpg"; "out/images/page-2.jpg"])
    by (vm_compute; reflexivity).
  rewrite R in H.
  exists evs, ["out/images/page-1.jpg"; "out/images/page-2.jpg"].
  split; [exact T |]. split; [exact R | exact H].
Defined.

(** [getTotalPages] returns a number that is an integer: the digits the
    regular expression captured always parse. *)
Lemma digit_is_plain (c : ascii) :
  JS.is_digit c = true ->
  JS.is_space c = false /\ c <> "-"%char /\ c <> "+"%char.
Proof.
  destruct c as [[] [] [] [] [] [] [] []]; cbn; intros H;
    try discriminate; repeat split; discriminate.
Qed.

Lemma parseInt_digits (c : ascii) (r : string) :
  JS.is_digit c = true -> exists z, JS.parseInt (String c r) = JS.Num z.
Proof.
  intros Hd. destruct (digit_is_plain c Hd) as (Hs & Hm & Hp).
  unfold JS.parseInt. cbn [JS.drop_while]. rewrite Hs.
  destruct (Ascii.eqb_spec c "-"); [contradiction |].
  destruct (Ascii.eqb_spec c "+"); [contradiction |].
  assert (E : (let '(sign, s2) :=
                 match String c r with
                 | String "-" r0 => ((-1)%Z, r0)
                 | String "+" r0 => (1%Z, r0)
                 | _ => (1%Z, String c r)
                 end in
               match JS.take_while JS.is_digit s2 with
               | EmptyString => JS.NaN
               | _ => JS.Num (sign * JS.digits_value 0 (JS.take_while JS.is_digit s2))
               end)
              = JS.Num (1 * JS.digits_value 0 (JS.take_while JS.is_digit (String c r)))).
  { destruct c as [[] [] [] [] [] [] [] []]; try discriminate Hd;
      try contradiction; cbn [JS.take_while]; rewrite ?Hd; reflexivity. }
  eexists. exact E.
Qed.

Lemma take_while_head (p : ascii -> bool) (s : string) (c : ascii) (r : string) :
  JS.take_while p s = String c r -> p c = true.
Proof.
  destruct s as [| a s]; cbn; [discriminate |].
  destruct (p a) eqn:Ha; [| discriminate]. intros H. inversion H; subst. exact Ha.
Qed.

Lemma match_pages_digits (s digits : string) :
  match_pages s = Some digits -> exists z, JS.parseInt digits = JS.Num z.
Proof.
  induction s as [| a s IH]; cbn [match_pages].
  - cbn. discriminate.
  - destruct (match_pages_here (String a s)) as [ds |] eqn:Hh; [| exact IH].
    intros H. inversion H; subst. clear H IH.
    unfold match_pages_here in Hh.
    destruct (String.prefix "Pages:" (String a s)); [| discriminate].
    destruct (_ =? _)%nat; [discriminate |].
    destruct (JS.take_while JS.is_digit _) as [| c r] eqn:Ht; [discriminate |].
    inversion Hh; subst. apply parseInt_digits. eapply take_while_head; eauto.
Qed.

(** The page count is always an integer. *)
Lemma getTotalPages_integer (env : Env) (pdfPath : string) (w w' : World) (total : JS.number) :
  getTotalPages env pdfPath w = (Ret total, w') -> exists t, total = JS.Num t.
Proof.
  intros H. unfold getTotalPages in H.
  apply bind_inv in H as [(run & w1 & _ & H) | [(e & _ & H) | (c & _ & H)]];
    try discriminate.
  destruct (tool_exit run) as [msg | code]; [discriminate |].
  destruct (code_not_zero code); [discriminate |].
  destruct (match_pages (tool_stdout run)) as [digits |] eqn:Hm; [| discriminate].
  inversion H; subst. eapply match_pages_digits; eauto.
Qed.

(** ** Page arguments that do not parse *)

Lemma resolve_range_nan_start (total e : JS.number) :
  fst (resolve_range total JS.NaN e) = JS.NaN.
Proof. unfold resolve_range, JS.gt, JS.lt. destruct total; reflexivity. Qed.

Lemma resolve_range_nan_end (total s : JS.number) :
  snd (resolve_range total s JS.NaN) = JS.NaN.
Proof. unfold resolve_range, JS.gt, JS.lt, JS.strict_eq. destruct total; reflexivity. Qed.

(** C9 (as stated, refuted): one argument that does not parse is enough
    for the premise, and the range handed to [pdftk] is then [NaN-2], not
    [NaN-NaN]. *)
Lemma one_unparsable_argument_is_not_NaN_NaN :
  JS.parseInt "x" = JS.NaN
  /\ spawns (w_trace (snd (main Toy.env ["x"; "2"] "123" (initial_world ∅))))
     = [("pdfinfo", [path_join Toy.dir "input.pdf"]);
        ("pdftk", [path_join Toy.dir "input.pdf"; "cat"; "NaN-2"; "output";
                   path_join Toy.dir "extract_NaN_2.pdf"])]
  /\ "NaN-2" <> "NaN-NaN".
Proof.
  split; [vm_compute; reflexivity |].
  split; [vm_compute; reflexivity | discriminate].
Qed.

(** C9 (amended): a bound that [parseInt] turns into [NaN] passes range
    resolution unchanged, the extraction step is taken, and [pdftk] is
    invoked on a range in which that bound reads [NaN]; the range is
    [NaN-NaN] when both bounds are [NaN]. *)
Theorem unparsable_bound_reaches_pdftk (env : Env) (outputDir inputPdfPath : string)
    (t : Z) (args : list string) (w : World) :
  let s := fst (parse_args args) in
  let e := snd (parse_args args) in
  s = JS.NaN \/ e = JS.NaN ->
  let s' := fst (resolve_range (JS.Num t) s e) in
  let e' := snd (resolve_range (JS.Num t) s e) in
  (s = JS.NaN -> s' = JS.NaN)
  /\ (e = JS.NaN -> e' = JS.NaN)
  /\ needs_extraction (JS.Num t) s' e' = true
  /\ (exists pre post,
        w_trace (snd (render_range env outputDir inputPdfPath (JS.Num t) s e w))
        = (w_trace w
             ++ pre ++ Spawn "pdftk" [inputPdfPath; "cat"; range_string s' e'; "output";
                                      extract_path outputDir s' e'] :: post)%list
        /\ Forall no_spawn pre)
  /\ (s = JS.NaN -> e = JS.NaN -> range_string s' e' = "NaN-NaN").
Proof.
  intros s e Hnan s' e'.
  assert (Hs : s = JS.NaN -> s' = JS.NaN)
    by (intros E; subst s'; rewrite E; apply resolve_range_nan_start).
  assert (He : e = JS.NaN -> e' = JS.NaN)
    by (intros E; subst e'; rewrite E; apply resolve_range_nan_end).
  assert (Hx : needs_extraction (JS.Num t) s' e' = true).
  { unfold needs_extraction. destruct Hnan as [E | E].
    - rewrite (Hs E). reflexivity.
    - rewrite (He E). apply orb_true_r. }
  split; [exact Hs |]. split; [exact He |]. split; [exact Hx |]. split.
  - destruct (render_range_events env outputDir inputPdfPath (JS.Num t) s e w)
      as (evs & T & Hcase).
    fold s' e' in Hcase. rewrite Hx in Hcase.
    destruct Hcase as (pre & post & -> & Hpre & _).
    exists pre, post. split; [exact T | exact Hpre].
  - intros E1 E2. rewrite (Hs E1), (He E2). reflexivity.
Qed.

(** [unparsable_bound_reaches_pdftk] on the arguments [x] and [y]. *)
Lemma unparsable_bound_reaches_pdftk_witness :
  (fst (parse_args ["x"; "y"]) = JS.NaN \/ snd (parse_args ["x"; "y"]) = JS.NaN)
  /\ exists pre post,
       w_trace (snd (render_range Toy.env Toy.dir (path_join Toy.dir "input.pdf")
                       (JS.Num 3) JS.NaN JS.NaN (initial_world ∅)))
       = ([] ++ pre ++ Spawn "pdftk" [path_join Toy.dir "input.pdf"; "cat"; "NaN-NaN";
                                      "output"; path_join Toy.dir "extract_NaN_NaN.pdf"]
                  :: post)%list
       /\ Forall no_spawn pre.
Proof.
  split; [left; reflexivity |].
  apply (unparsable_bound_reaches_pdftk Toy.env Toy.dir (path_join Toy.dir "input.pdf")
           3 ["x"; "y"] (initial_world ∅)).
  left. reflexivity.
Defined.

(** ** The working directory *)

Lemma append_assoc (a b c : string) : (a ++ b) ++ c = a ++ b ++ c.
Proof.
  induction a as [| x a IH]; [reflexivity |].
  change (String x ((a ++ b) ++ c) = String x (a ++ b ++ c)). f_equal. exact IH.
Qed.

Lemma append_empty_r (a : string) : a ++ "" = a.
Proof.
  induction a as [| x a IH]; [reflexivity |].
  change (String x (a ++ "") = String x a). f_equal. exact IH.
Qed.

Lemma split_ancestors_self (acc s : string) : In (acc ++ s) (split_ancestors acc s).
Proof.
  revert acc. induction s as [| c s IH]; intros acc; cbn [split_ancestors].
  - left. symmetry. apply append_empty_r.
  - destruct (Ascii.eqb_spec c "/") as [-> | Hc].
    + right. specialize (IH (acc ++ "/")). rewrite append_assoc in IH. exact IH.
    + specialize (IH (acc ++ String c EmptyString)). rewrite append_assoc in IH. exact IH.
Qed.

Lemma ancestors_self (p : string) : p <> "" -> In p (ancestors p).
Proof.
  intros Hp. unfold ancestors. apply filter_In. split.
  - exact (split_ancestors_self "" p).
  - destruct p; [contradiction | reflexivity].
Qed.

Lemma insert_dirs_creates (ds : list string) (fs : gmap string Node) (p : string) :
  In p ds -> foldr (fun q m => <[q := Dir]> m) fs ds !! p = Some Dir.
Proof.
  induction ds as [| q ds IH]; intros H; [contradiction |].
  cbn [foldr]. destruct (decide (q = p)) as [-> | Hne].
  - apply lookup_insert_eq.
  - rewrite lookup_insert_ne by exact Hne. apply IH. destruct H; [contradiction | assumption].
Qed.

(** A successful [mkdirSync] leaves a directory at its path. *)
Lemma mkdirSync_ret (p : string) (w w' : World) :
  p <> "" ->
  mkdirSync p w = (Ret tt, w') ->
  w_fs w' !! p = Some Dir /\ w_trace w' = (w_trace w ++ [MkdirSync p])%list.
Proof.
  intros Hp H. unfold mkdirSync, bind, emit in H. cbn in H.
  destruct (existsb _ _); inversion H; subst. cbn. split; [| reflexivity].
  apply insert_dirs_creates, ancestors_self, Hp.
Qed.

(** [mkdirSync] succeeds when no file is in the way. *)
Lemma mkdirSync_succeeds (p : string) (w : World) :
  existsb (is_file (w_fs w)) (ancestors p) = false ->
  exists w', mkdirSync p w = (Ret tt, w').
Proof.
  intros H. unfold mkdirSync, bind, emit. cbn. rewrite H. eauto.
Qed.

Lemma writeFileSync_ret (p data : string) (w w' : World) :
  writeFileSync p data w = (Ret tt, w') ->
  w_trace w' = (w_trace w ++ [WriteFileSync p data])%list.
Proof.
  intros H. unfold writeFileSync, bind, emit in H. cbn in H.
  destruct (w_fs w !! p) as [[| old] |]; inversion H; subst; reflexivity.
Qed.

Lemma getTotalPages_trace (env : Env) (pdfPath : string) (w : World) :
  w_trace (snd (getTotalPages env pdfPath w))
  = (w_trace w ++ [Spawn "pdfinfo" [pdfPath]])%list.
Proof.
  unfold getTotalPages, bind, spawn, emit. cbn.
  destruct (tool_exit _) as [msg | code]; [reflexivity |].
  destruct (code_not_zero code); [reflexivity |].
  destruct (match_pages _); reflexivity.
Qed.

Lemma output_dir_not_empty (now : string) : output_dir now <> "".
Proof. discriminate. Qed.

Section SoundPrepare.

Variable d : string.
Variable env : Env.
Variable C : Z -> Prop.

Lemma sound_render_range (outputDir inputPdfPath : string) (total s e : JS.number) :
  sound d prepare_event C (render_range env outputDir inputPdfPath total s e).
Proof.
  unfold render_range. destruct (resolve_range total s e) as [s' e'].
  apply sound_bind; [apply sound_logger_info; intros; exact I | intros _].
  apply sound_bind.
  - destruct (needs_extraction total s' e'); [| apply sound_ret].
    apply sound_bind; [apply sound_extractPages; exact I | intros p].
    apply sound_bind; [apply sound_logger_info; intros; exact I | intros _; apply sound_ret].
  - intros p. eapply sound_weaken; [| | apply sound_render_tail]; [| intros c H; exact H].
    intros [] H; cbn in *; auto.
Qed.

Lemma sound_rasterize (outputDir inputPdfPath : string) (s e : JS.number) :
  sound d prepare_event C (rasterize env outputDir inputPdfPath s e).
Proof.
  apply sound_bind; [apply sound_getTotalPages; exact I | intros total].
  apply sound_render_range.
Qed.

End SoundPrepare.

(** When [convertToImages] returns, [pdftoppm] has been run. *)
Lemma convertToImages_ret (env : Env) (pdfPath outputDir : string) (w w' : World)
    (imgPaths : list string) :
  convertToImages env pdfPath outputDir w = (Ret imgPaths, w') ->
  exists evs,
    w_trace w' = (w_trace w ++ evs)%list
    /\ In (Spawn "pdftoppm" (snd (pdftoppm_call outputDir pdfPath))) evs.
Proof.
  intros H.
  destruct (sound_convertToImages "" env (fun _ => True) pdfPath outputDir _ _ _ H)
    as (_ & (evs & T & HQ) & _).
  exists evs. split; [exact T |].
  unfold convertToImages in H.
  apply bind_inv in H as [([] & w1 & H1 & H) | [(? & _ & H) | (? & _ & H)]];
    try discriminate.
  apply bind_inv in H as [(run & w2 & H2 & H) | [(? & _ & H) | (? & _ & H)]];
    try discriminate.
  destruct (sound_mkdirSync "" (fun _ => True) (fun _ => True) _ I _ _ _ H1)
    as (_ & (evs1 & T1 & _) & _).
  assert (T2 : w_trace w2 = (w_trace w1 ++ [Spawn "pdftoppm"
                                              (snd (pdftoppm_call outputDir pdfPath))])%list).
  { unfold spawn, bind, emit in H2. cbn in H2. inversion H2; subst. reflexivity. }
  assert (S3 : exists evs3, w_trace w' = (w_trace w2 ++ evs3)%list).
  { destruct (tool_exit run) as [msg | code]; [discriminate |].
    destruct (code_not_zero code); [discriminate |].
    match type of H with ?m w2 = _ =>
      assert (S : sound "" (fun _ => True) (fun _ => True) m)
        by (apply sound_try_catch;
            [apply sound_bind; [apply sound_readdirSync; exact I | intros; apply sound_ret]
            | intros; apply sound_throw])
    end.
    destruct (S _ _ _ H) as (_ & (evs3 & T3 & _) & _). eauto. }
  destruct S3 as (evs3 & T3).
  rewrite T3, T2, T1, <- !app_assoc in T. apply app_inv_head in T. subst evs.
  apply in_or_app. right. apply in_or_app. left. left. reflexivity.
Qed.

(** When [render_range] returns, [pdftoppm] has been run on some PDF. *)
Lemma render_range_ret (env : Env) (outputDir inputPdfPath : string)
    (total s e : JS.number) (w w' : World) (imgPaths : list string) :
  render_range env outputDir inputPdfPath total s e w = (Ret imgPaths, w') ->
  exists evs pdfPath,
    w_trace w' = (w_trace w ++ evs)%list
    /\ In (Spawn "pdftoppm" (snd (pdftoppm_call outputDir pdfPath))) evs.
Proof.
  intros H.
  destruct (sound_render_range "" env (fun _ => True) _ _ _ _ _ _ _ _ H)
    as (_ & (evs & T & _) & _).
  unfold render_range in H. destruct (resolve_range total s e) as [s' e'].
  apply bind_inv in H as [([] & w1 & H1 & H) | [(? & _ & H) | (? & _ & H)]];
    try discriminate.
  apply bind_inv in H as [(pdfPath & w2 & H2 & H) | [(? & _ & H) | (? & _ & H)]];
    try discriminate.
  apply bind_inv in H as [(imgs & w3 & H3 & H) | [(? & _ & H) | (? & _ & H)]];
    try discriminate.
  apply bind_inv in H as [([] & w4 & H4 & H) | [(? & _ & H) | (? & _ & H)]];
    try discriminate.
  inversion H; subst. clear H.
  exists evs, pdfPath. split; [exact T |].
  destruct (convertToImages_ret _ _ _ _ _ _ H3) as (evs3 & T3 & In3).
  rewrite logger_info_eq in H1, H4. inversion H1; subst. inversion H4; subst. clear H1 H4.
  assert (S2 : exists evs2, w_trace w2 = (w_trace (record (ConsoleInfo
                 (env_now env (w_clock w) ++ " - INFO - "
                    ++ format_message "Start processing from page %1 to page %2"
                         [JS.string_of_number s'; JS.string_of_number e'])) (tick w))
                 ++ evs2)%list).
  { match type of H2 with ?m _ = _ =>
      assert (S : sound "" (fun _ => True) (fun _ => True) m)
    end.
    { destruct (needs_extraction total s' e'); [| apply sound_ret].
      apply sound_bind; [apply sound_extractPages; exact I | intros p].
      apply sound_bind; [apply sound_logger_info; intros; exact I | intros _; apply sound_ret]. }
    destruct (S _ _ _ H2) as (_ & (evs2 & T2 & _) & _). eauto. }
  destruct S2 as (evs2 & T2).
  cbn in T. rewrite T3, T2 in T. cbn in T. rewrite <- !app_assoc in T.
  apply app_inv_head in T. subst evs.
  apply in_or_app. right. apply in_or_app. right. apply in_or_app. left. exact In3.
Qed.

(** ** Whole runs *)

Lemma removals_none (evs : list Event) : Forall no_removal evs -> removals evs = [].
Proof.
  induction 1 as [| e evs He _ IH]; [reflexivity |].
  destruct e; cbn in *; try exact IH. contradiction.
Qed.

Lemma posts_none (evs : list Event) : Forall no_post_no_rm evs -> posts evs = [].
Proof.
  induction 1 as [| e evs He _ IH]; [reflexivity |].
  destruct e; cbn in *; try exact IH. contradiction.
Qed.

Lemma prepare_event_no_removal (e : Event) : prepare_event e -> no_removal e.
Proof. destruct e; cbn; auto. Qed.

Lemma prepare_event_no_post (e : Event) : prepare_event e -> no_post_no_rm e.
Proof. destruct e; cbn; auto. Qed.

Lemma transcribe_event_no_removal (e : Event) : transcribe_event e -> no_removal e.
Proof. destruct e; cbn; auto. Qed.

(** The steps of [prepare] once the arguments and the input are accepted. *)
Lemma prepare_accepted (env : Env) (args : list string) (stdin : string) (w : World) :
  args <> [] -> stdin <> "" ->
  prepare env args stdin w
  = (let outputDir := output_dir (env_now env (w_clock w)) in
     mkdirSync outputDir ;;
     writeFileSync (path_join outputDir "input.pdf") stdin ;;
     imgPaths <- rasterize env outputDir (path_join outputDir "input.pdf")
                   (fst (parse_args args)) (snd (parse_args args)) ;;
     ret (outputDir, imgPaths)) (tick w).
Proof.
  intros Ha Hs. unfold prepare.
  destruct args as [| a args]; [contradiction |].
  destruct (parse_args (a :: args)) as [s e]. cbn [fst snd].
  destruct stdin as [| c stdin]; [contradiction |]. reflexivity.
Qed.

(** [prepare] ends the process only on a rejected input, with code 1. *)
Lemma prepare_rejected (env : Env) (args : list string) (stdin : string) (w : World) :
  args = [] \/ stdin = "" -> fst (prepare env args stdin w) = Exit 1.
Proof.
  intros [-> | ->]; [reflexivity |].
  unfold prepare. destruct args as [| a args]; [reflexivity |].
  destruct (parse_args (a :: args)) as [s e]. reflexivity.
Qed.

(** What a returning [prepare] has done. *)
Lemma prepare_ret (env : Env) (args : list string) (stdin : string) (w w1 : World)
    (outputDir : string) (imgPaths : list string) :
  prepare env args stdin w = (Ret (outputDir, imgPaths), w1) ->
  args <> [] /\ stdin <> ""
  /\ outputDir = output_dir (env_now env (w_clock w))
  /\ w_fs w1 !! outputDir = Some Dir
  /\ exists evs pdfPath,
       w_trace w1
       = (w_trace w
            ++ MkdirSync outputDir
            :: WriteFileSync (path_join outputDir "input.pdf") stdin
            :: Spawn "pdfinfo" [path_join outputDir "input.pdf"]
            :: evs)%list
       /\ In (Spawn "pdftoppm" (snd (pdftoppm_call outputDir pdfPath))) evs
       /\ Forall prepare_event evs.
Proof.
  intros H.
  assert (Ha : args <> []).
  { intros ->. pose proof (prepare_rejected env [] stdin w (or_introl eq_refl)) as X.
    rewrite H in X. discriminate. }
  assert (Hs : stdin <> "").
  { intros ->. pose proof (prepare_rejected env args "" w (or_intror eq_refl)) as X.
    rewrite H in X. discriminate. }
  split; [exact Ha |]. split; [exact Hs |].
  rewrite (prepare_accepted env args stdin w Ha Hs) in H. cbv zeta in H.
  set (d := output_dir (env_now env (w_clock w))) in *.
  apply bind_inv in H as [([] & wa & H1 & H) | [(? & _ & H) | (? & _ & H)]];
    try discriminate.
  apply bind_inv in H as [([] & wb & H2 & H) | [(? & _ & H) | (? & _ & H)]];
    try discriminate.
  apply bind_inv in H as [(imgs & wc & H3 & H) | [(? & _ & H) | (? & _ & H)]];
    try discriminate.
  inversion H; subst outputDir imgs wc. clear H.
  destruct (mkdirSync_ret d _ _ (output_dir_not_empty _) H1) as (F1 & T1).
  pose proof (writeFileSync_ret _ _ _ _ H2) as T2.
  destruct (sound_writeFileSync d (fun _ => True) (fun _ => True) _ _ I _ _ _ H2)
    as (F2 & _ & _).
  destruct (sound_rasterize d env (fun _ => True) _ _ _ _ _ _ _ H3) as (F3 & _ & _).
  split; [reflexivity |]. split; [auto |].
  unfold rasterize in H3.
  apply bind_inv in H3 as [(total & wd & H4 & H3) | [(? & _ & H3) | (? & _ & H3)]];
    try discriminate.
  pose proof (getTotalPages_trace env (path_join d "input.pdf") wb) as T4.
  rewrite H4 in T4. cbn [snd] in T4.
  destruct (render_range_ret _ _ _ _ _ _ _ _ _ H3) as (evs & pdfPath & T5 & In5).
  destruct (sound_render_range d env (fun _ => True) _ _ _ _ _ _ _ _ H3)
    as (_ & (evs' & T5' & Q5) & _).
  rewrite T5 in T5'. apply app_inv_head in T5'. subst evs'.
  exists evs, pdfPath. split; [| split; [exact In5 | exact Q5]].
  rewrite T5, T4, T2, T1. cbn. rewrite <- !app_assoc. reflexivity.
Qed.

(** The working directory through [prepare]: once created it stays, and
    nothing is removed. *)
Lemma prepare_run (env : Env) (args : list string) (stdin : string) (w : World) :
  args <> [] -> stdin <> "" ->
  let d := output_dir (env_now env (w_clock w)) in
  existsb (is_file (w_fs w)) (ancestors d) = false ->
  w_fs (snd (prepare env args stdin w)) !! d = Some Dir
  /\ (exists evs,
        w_trace (snd (prepare env args stdin w)) = (w_trace w ++ evs)%list
        /\ Forall no_removal evs)
  /\ ((exists imgPaths, fst (prepare env args stdin w) = Ret (d, imgPaths))
      \/ exists e, fst (prepare env args stdin w) = Throw e).
Proof.
  intros Ha Hs d Hfree.
  rewrite (prepare_accepted env args stdin w Ha Hs). cbv zeta. fold d.
  destruct (mkdirSync_succeeds d (tick w) Hfree) as (wa & H1).
  destruct (mkdirSync_ret d _ _ (output_dir_not_empty _) H1) as (F1 & T1).
  erewrite bind_ret_eq by exact H1.
  destruct (writeFileSync (path_join d "input.pdf") stdin wa) as [[[] | e | c] wb] eqn:H2.
  - destruct (sound_writeFileSync d no_removal (fun _ => False) _ _ I _ _ _ H2)
      as (F2 & (evs2 & T2 & Q2) & _).
    erewrite bind_ret_eq by exact H2.
    destruct (rasterize env d (path_join d "input.pdf") (fst (parse_args args))
                (snd (parse_args args)) wb) as [[imgs | e | c] wc] eqn:H3;
      destruct (sound_rasterize d env (fun _ => False) _ _ _ _ _ _ _ H3)
        as (F3 & (evs3 & T3 & Q3) & X3).
    + erewrite bind_ret_eq by exact H3. cbn [fst snd ret].
      split; [auto |]. split; [| left; eauto].
      exists ([MkdirSync d] ++ evs2 ++ evs3)%list.
      rewrite T3, T2, T1. cbn. rewrite <- !app_assoc. split; [reflexivity |].
      constructor; [exact I |]. apply Forall_app. split; [exact Q2 |].
      eapply Forall_impl; [exact Q3 | apply prepare_event_no_removal].
    + erewrite bind_throw_eq by exact H3. cbn [fst snd].
      split; [auto |]. split; [| right; eauto].
      exists ([MkdirSync d] ++ evs2 ++ evs3)%list.
      rewrite T3, T2, T1. cbn. rewrite <- !app_assoc. split; [reflexivity |].
      constructor; [exact I |]. apply Forall_app. split; [exact Q2 |].
      eapply Forall_impl; [exact Q3 | apply prepare_event_no_removal].
    + exfalso. exact (X3 c eq_refl).
  - destruct (sound_writeFileSync d no_removal (fun _ => False) _ _ I _ _ _ H2)
      as (F2 & (evs2 & T2 & Q2) & _).
    erewrite bind_throw_eq by exact H2. cbn [fst snd].
    split; [auto |]. split; [| right; eauto].
    exists ([MkdirSync d] ++ evs2)%list.
    rewrite T2, T1. cbn. rewrite <- !app_assoc. split; [reflexivity |].
    constructor; [exact I | exact Q2].
  - destruct (sound_writeFileSync d no_removal (fun _ => False) _ _ I _ _ _ H2)
      as (_ & _ & X2).
    exfalso. exact (X2 c eq_refl).
Qed.

Lemma removed_is_gone (dir : string) (fs : gmap string Node) :
  ~ on_disk (filter (fun kv => under dir kv.1 = false) fs) dir.
Proof.
  intros (p & Hu & (x & Hx)). apply map_lookup_filter_Some in Hx as (_ & Hf).
  cbn in Hf. congruence.
Qed.

(** The end of [finish], once the Markdown is there. *)
Lemma finish_tail_eq (env : Env) (d markdown : string) (w : World) :
  (logger_info env "Image conversion to Markdown completed" [] ;;
   emit (ConsoleLog markdown) ;;
   rmSync d ;;
   @process_exit unit 0) w
  = (Exit 0,
     set_fs (filter (fun kv => under d kv.1 = false) (w_fs w))
       (record (RmSync d)
          (record (ConsoleLog markdown)
             (record (ConsoleInfo (env_now env (w_clock w) ++ " - INFO - "
                                     ++ format_message
                                          "Image conversion to Markdown completed" []))
                (tick w))))).
Proof. reflexivity. Qed.

(** The working directory through [finish]: removed when the end is
    reached, which is the only way to exit with code 0; left in place
    otherwise. *)
Lemma finish_run (env : Env) (d : string) (imgPaths : list string) (w : World) :
  w_fs w !! d = Some Dir ->
  (fst (finish env d imgPaths w) = Exit 0
   /\ ~ on_disk (w_fs (snd (finish env d imgPaths w))) d
   /\ exists evs,
        w_trace (snd (finish env d imgPaths w)) = (w_trace w ++ evs ++ [RmSync d])%list
        /\ Forall no_removal evs)
  \/ (fst (finish env d imgPaths w) <> Exit 0
      /\ w_fs (snd (finish env d imgPaths w)) !! d = Some Dir
      /\ exists evs,
           w_trace (snd (finish env d imgPaths w)) = (w_trace w ++ evs)%list
           /\ Forall no_removal evs).
Proof.
  intros Hd. unfold finish.
  destruct (transcribe env (JS.sort imgPaths) "" w) as [[markdown | e | c] w1] eqn:H1;
    destruct (sound_transcribe d env _ _ _ _ _ H1) as (F1 & (evs1 & T1 & Q1) & X1).
  - left. erewrite bind_ret_eq by exact H1. rewrite finish_tail_eq.
    cbn [fst snd]. split; [reflexivity |]. split; [apply removed_is_gone |].
    exists (evs1 ++ [ConsoleInfo (env_now env (w_clock w1) ++ " - INFO - "
                       ++ format_message "Image conversion to Markdown completed" []);
                     ConsoleLog markdown])%list.
    split.
    + unfold set_fs, record, tick. cbn [w_trace]. rewrite T1, <- !app_assoc. reflexivity.
    + apply Forall_app. split.
      * eapply Forall_impl; [exact Q1 | apply transcribe_event_no_removal].
      * repeat constructor.
  - right. erewrite bind_throw_eq by exact H1. cbn [fst snd].
    split; [discriminate |]. split; [auto |].
    exists evs1. split; [exact T1 |].
    eapply Forall_impl; [exact Q1 | apply transcribe_event_no_removal].
  - right. erewrite bind_exit_eq by exact H1. cbn [fst snd].
    rewrite (X1 c eq_refl). split; [discriminate |]. split; [auto |].
    exists evs1. split; [exact T1 |].
    eapply Forall_impl; [exact Q1 | apply transcribe_event_no_removal].
Qed.

(** C2 (as stated, refuted): the page-count query fails after the working
    directory has been created, the run ends with the error, and the
    directory is still on disk, with the saved input in it. *)
Lemma directory_left_after_failed_page_count :
  let run := main Toy.env_no_tools ["1"] "123" (initial_world ∅) in
  head (w_trace (snd run)) = Some (MkdirSync Toy.dir)
  /\ fst run = Throw (Error "Failed to run pdfinfo: spawn pdfinfo ENOENT")
  /\ removals (w_trace (snd run)) = []
  /\ w_fs (snd run) !! Toy.dir = Some Dir
  /\ on_disk (w_fs (snd run)) Toy.dir.
Proof.
  cbv zeta.
  split; [vm_compute; reflexivity |].
  split; [vm_compute; reflexivity |].
  split; [vm_compute; reflexivity |].
  split; [vm_compute; reflexivity |].
  exists Toy.dir. split; [vm_compute; reflexivity |].
  exists Dir. vm_compute. reflexivity.
Qed.

(** C2 (amended): in a run that creates the working directory, the
    directory is removed, with all that lies below it, as the last action
    of a run that reaches its end and exits with code 0; a run that ends
    in any other way (an error thrown by a step after the creation, or the
    exit for a missing key) removes nothing and leaves the directory. *)
Theorem working_directory_removed_only_on_success (env : Env) (args : list string)
    (stdin : string) (w : World) :
  args <> [] -> stdin <> "" ->
  let d := output_dir (env_now env (w_clock w)) in
  existsb (is_file (w_fs w)) (ancestors d) = false ->
  let run := main env args stdin w in
  (fst run = Exit 0
   /\ ~ on_disk (w_fs (snd run)) d
   /\ exists evs,
        w_trace (snd run) = (w_trace w ++ evs ++ [RmSync d])%list
        /\ Forall no_removal evs)
  \/ (fst run <> Exit 0
      /\ w_fs (snd run) !! d = Some Dir
      /\ exists evs,
           w_trace (snd run) = (w_trace w ++ evs)%list /\ Forall no_removal evs).
Proof.
  intros Ha Hs d Hfree run. subst run. unfold main.
  destruct (prepare_run env args stdin w Ha Hs Hfree) as (F & (evs0 & T0 & Q0) & Hout).
  fold d in F, Hout.
  destruct (prepare env args stdin w) as [out w1] eqn:Hp. cbn [fst snd] in *.
  destruct Hout as [(imgPaths & ->) | (e & ->)].
  - erewrite bind_ret_eq by exact Hp. cbn [fst snd].
    destruct (finish_run env d imgPaths w1 F)
      as [(E & G & (evs & T & HQ)) | (E & G & (evs & T & HQ))].
    + left. split; [exact E |]. split; [exact G |].
      exists (evs0 ++ evs)%list. rewrite T, T0, <- !app_assoc. split; [reflexivity |].
      apply Forall_app. auto.
    + right. split; [exact E |]. split; [exact G |].
      exists (evs0 ++ evs)%list. rewrite T, T0, <- !app_assoc. split; [reflexivity |].
      apply Forall_app. auto.
  - right. erewrite bind_throw_eq by exact Hp. cbn [fst snd].
    split; [discriminate |]. split; [exact F |]. eauto.
Qed.

(** [working_directory_removed_only_on_success] on the scenario. *)
Lemma working_directory_removed_only_on_success_witness :
  (["2"; "3"] <> [] /\ "123" <> ""
   /\ existsb (is_file (w_fs (initial_world ∅)))
        (ancestors (output_dir (env_now Toy.env (w_clock (initial_world ∅))))) = false)
  /\ let d := output_dir (env_now Toy.env (w_clock (initial_world ∅))) in
     let run := main Toy.env ["2"; "3"] "123" (initial_world ∅) in
     (fst run = Exit 0
      /\ ~ on_disk (w_fs (snd run)) d
      /\ exists evs,
           w_trace (snd run) = (w_trace (initial_world ∅) ++ evs ++ [RmSync d])%list
           /\ Forall no_removal evs)
     \/ (fst run <> Exit 0
         /\ w_fs (snd run) !! d = Some Dir
         /\ exists evs,
              w_trace (snd run) = (w_trace (initial_world ∅) ++ evs)%list
              /\ Forall no_removal evs).
Proof.
  split; [split; [discriminate | split; [discriminate | vm_compute; reflexivity]] |].
  apply (working_directory_removed_only_on_success Toy.env ["2"; "3"] "123"
           (initial_world ∅)); [discriminate | discriminate | vm_compute; reflexivity].
Defined.

(** ** A run without an API key *)

Lemma insert_sorted_not_nil (x : string) (l : list string) : JS.insert_sorted x l <> [].
Proof. destruct l as [| y l]; cbn; [discriminate |]. destruct (String.leb x y); discriminate. Qed.

Lemma sort_not_nil (l : list string) : l <> [] -> JS.sort l <> [].
Proof.
  destruct l as [| x l]; [contradiction |]. intros _. cbn [JS.sort fold_right].
  apply insert_sorted_not_nil.
Qed.

(** Without a key the loop ends the process at its first page, after the
    line that announces the page and the line that reports the key. *)
Lemma transcribe_without_key (env : Env) (imgPath : string) (rest : list string)
    (markdown : string) (w : World) :
  has_key env = false ->
  transcribe env (imgPath :: rest) markdown w
  = (Exit 1,
     record (ConsoleError (env_now env (S (w_clock w)) ++ " - ERROR - "
                             ++ "Please set the OPENAI_API_KEY environment variables"))
       (tick
          (record (ConsoleInfo (env_now env (w_clock w) ++ " - INFO - "
                                  ++ format_message "Converting image %1 to Markdown"
                                       [JS.replace_all_chars (Ascii.eqb "\") "/" imgPath]))
             (tick w)))).
Proof.
  intros Hkey. cbn [transcribe].
  erewrite bind_ret_eq by apply logger_info_eq.
  erewrite bind_exit_eq
    by (unfold convertImageToMarkdown; apply completion_without_key; exact Hkey).
  reflexivity.
Qed.

(** The tool invocations of a preparation that returns: [pdfinfo], then
    those of the range resolved with the page count it gave. *)
Lemma prepare_spawns (env : Env) (args : list string) (stdin : string) (w w1 : World)
    (outputDir : string) (imgPaths : list string) :
  prepare env args stdin w = (Ret (outputDir, imgPaths), w1) ->
  let inputPdfPath := path_join outputDir "input.pdf" in
  let w0 := snd (writeFileSync inputPdfPath stdin (snd (mkdirSync outputDir (tick w)))) in
  exists total,
    fst (getTotalPages env inputPdfPath w0) = Ret total
    /\ spawns (w_trace w1)
       = (spawns (w_trace w)
            ++ ("pdfinfo", [inputPdfPath])
            :: range_calls outputDir inputPdfPath total
                 (fst (resolve_range total (fst (parse_args args)) (snd (parse_args args))))
                 (snd (resolve_range total (fst (parse_args args)) (snd (parse_args args)))))%list.
Proof.
  intros H.
  destruct (prepare_ret _ _ _ _ _ _ _ H) as (Ha & Hs & Hd & _).
  rewrite (prepare_accepted env args stdin w Ha Hs) in H. cbv zeta in H.
  rewrite <- Hd in H. cbv zeta.
  apply bind_inv in H as [([] & wa & H1 & H) | [(? & _ & H) | (? & _ & H)]];
    try discriminate.
  apply bind_inv in H as [([] & wb & H2 & H) | [(? & _ & H) | (? & _ & H)]];
    try discriminate.
  apply bind_inv in H as [(imgs & wc & H3 & H) | [(? & _ & H) | (? & _ & H)]];
    try discriminate.
  inversion H; subst imgs wc. clear H.
  rewrite H1. cbn [snd]. rewrite H2. cbn [snd].
  destruct (mkdirSync_ret outputDir _ _ (eq_ind_r (fun d => d <> "")
              (output_dir_not_empty _) Hd) H1) as (_ & T1).
  pose proof (writeFileSync_ret _ _ _ _ H2) as T2.
  unfold rasterize in H3.
  apply bind_inv in H3 as [(total & wd & H4 & H3) | [(? & _ & H3) | (? & _ & H3)]];
    try discriminate.
  pose proof (getTotalPages_trace env (path_join outputDir "input.pdf") wb) as T4.
  rewrite H4 in T4. cbn [snd] in T4.
  exists total. split; [rewrite H4; reflexivity |].
  destruct (render_range_spawns env outputDir (path_join outputDir "input.pdf") total
              (fst (parse_args args)) (snd (parse_args args)) wd) as (evs & T5 & S5).
  rewrite H3 in T5, S5. cbn [fst snd] in T5, S5.
  rewrite T5, T4, T2, T1. cbn [tick w_trace].
  rewrite !spawns_app, S5.
  change (spawns [MkdirSync outputDir]) with (@nil (string * list string)).
  change (spawns [WriteFileSync (path_join outputDir "input.pdf") stdin])
    with (@nil (string * list string)).
  rewrite !app_nil_r, <- app_assoc. reflexivity.
Qed.

(** C10: with OPENAI_API_KEY unset or empty, a run whose arguments and
    input are accepted and whose tools succeed with at least one image has
    created the working directory, saved the input, run [pdfinfo] and
    [pdftoppm], and only then, at the first page of the transcription
    loop, logs the missing key and exits with code 1.  No request has been
    sent, nothing has been removed, and the working directory is on disk
    as the preparation left it.  The tools run before the exit are
    [pdfinfo], then, for the range resolved with the page count it gave,
    [pdftk] on that range and [pdftoppm] on the extracted PDF when the
    range is not the whole document, and [pdftoppm] on the saved input
    otherwise. *)
Theorem missing_key_stops_at_first_transcription (env : Env) (args : list string)
    (stdin : string) (w : World) (outputDir : string) (imgPaths : list string) :
  has_key env = false ->
  fst (prepare env args stdin w) = Ret (outputDir, imgPaths) ->
  imgPaths <> [] ->
  let w1 := snd (prepare env args stdin w) in
  let run := main env args stdin w in
  (exists evs pdfPath,
     w_trace w1
     = (w_trace w
          ++ MkdirSync outputDir
          :: WriteFileSync (path_join outputDir "input.pdf") stdin
          :: Spawn "pdfinfo" [path_join outputDir "input.pdf"]
          :: evs)%list
     /\ In (Spawn "pdftoppm" (snd (pdftoppm_call outputDir pdfPath))) evs)
  /\ fst run = Exit 1
  /\ (exists line,
        w_trace (snd run)
        = (w_trace w1
             ++ [ConsoleInfo line;
                 ConsoleError (env_now env (S (w_clock w1)) ++ " - ERROR - "
                                 ++ "Please set the OPENAI_API_KEY environment variables")])%list)
  /\ posts (w_trace (snd run)) = posts (w_trace w)
  /\ removals (w_trace (snd run)) = removals (w_trace w)
  /\ w_fs (snd run) = w_fs w1
  /\ w_fs (snd run) !! outputDir = Some Dir
  /\ exists total,
       fst (getTotalPages env (path_join outputDir "input.pdf")
              (snd (writeFileSync (path_join outputDir "input.pdf") stdin
                      (snd (mkdirSync outputDir (tick w))))))
       = Ret total
       /\ spawns (w_trace (snd run))
          = (spawns (w_trace w)
               ++ ("pdfinfo", [path_join outputDir "input.pdf"])
               :: range_calls outputDir (path_join outputDir "input.pdf") total
                    (fst (resolve_range total (fst (parse_args args))
                            (snd (parse_args args))))
                    (snd (resolve_range total (fst (parse_args args))
                            (snd (parse_args args)))))%list.
Proof.
  intros Hkey Hp Hne w1 run.
  assert (Hp' : prepare env args stdin w = (Ret (outputDir, imgPaths), w1))
    by (subst w1; destruct (prepare env args stdin w); cbn in *; congruence).
  destruct (prepare_ret _ _ _ _ _ _ _ Hp') as (_ & _ & _ & F1 & (evs & pdfPath & T1 & In1 & Q1)).
  destruct (JS.sort imgPaths) as [| imgPath rest] eqn:Hsort;
    [exfalso; exact (sort_not_nil imgPaths Hne Hsort) |].
  assert (Hrun : run
                 = (Exit 1,
                    record (ConsoleError (env_now env (S (w_clock w1)) ++ " - ERROR - "
                              ++ "Please set the OPENAI_API_KEY environment variables"))
                      (tick
                         (record (ConsoleInfo (env_now env (w_clock w1) ++ " - INFO - "
                                    ++ format_message "Converting image %1 to Markdown"
                                         [JS.replace_all_chars (Ascii.eqb "\") "/" imgPath]))
                            (tick w1))))).
  { subst run. unfold main. erewrite bind_ret_eq by exact Hp'.
    cbn [fst snd]. unfold finish. rewrite Hsort.
    erewrite bind_exit_eq by (apply transcribe_without_key; exact Hkey). reflexivity. }
  rewrite Hrun. cbn [fst snd]. unfold record, tick. cbn [w_fs w_trace w_clock].
  split; [eauto |]. split; [reflexivity |].
  split; [eexists; rewrite <- app_assoc; reflexivity |].
  assert (P1 : posts evs = []) by
    (apply posts_none; eapply Forall_impl; [exact Q1 | apply prepare_event_no_post]).
  assert (R1 : removals evs = []) by
    (apply removals_none; eapply Forall_impl; [exact Q1 | apply prepare_event_no_removal]).
  split; [| split; [| split; [reflexivity | split; [exact F1 |]]]].
  - rewrite T1. unfold posts in *. rewrite !omap_app. cbn. rewrite P1, !app_nil_r. reflexivity.
  - rewrite T1. unfold removals in *. rewrite !omap_app. cbn. rewrite R1, !app_nil_r.
    reflexivity.
  - destruct (prepare_spawns _ _ _ _ _ _ _ Hp') as (total & Ht & St).
    exists total. split; [exact Ht |].
    rewrite !spawns_app.
    etransitivity; [apply app_nil_r |]. etransitivity; [apply app_nil_r |]. exact St.
Qed.

(** [missing_key_stops_at_first_transcription] on a PDF of three pages. *)
Lemma missing_key_stops_at_first_transcription_witness :
  (has_key Toy.env_no_key = false
   /\ fst (prepare Toy.env_no_key ["3"] "123" (initial_world ∅))
      = Ret (Toy.dir,
             [path_join (path_join Toy.dir "images") "page-3.jpg";
              path_join (path_join Toy.dir "images") "page-1.jpg";
              path_join (path_join Toy.dir "images") "page-2.jpg"]))
  /\ fst (main Toy.env_no_key ["3"] "123" (initial_world ∅)) = Exit 1
  /\ w_fs (snd (main Toy.env_no_key ["3"] "123" (initial_world ∅))) !! Toy.dir = Some Dir.
Proof.
  split; [split; [reflexivity | vm_compute; reflexivity] |].
  pose proof (missing_key_stops_at_first_transcription Toy.env_no_key ["3"] "123"
                (initial_world ∅) Toy.dir
                [path_join (path_join Toy.dir "images") "page-3.jpg";
                 path_join (path_join Toy.dir "images") "page-1.jpg";
                 path_join (path_join Toy.dir "images") "page-2.jpg"]
                eq_refl) as H.
  destruct H as (_ & E & _ & _ & _ & _ & F & _); [vm_compute; reflexivity | discriminate |].
  split; [exact E | exact F].
Defined.

(** ** The end-to-end scenario *)

(** C3 (as stated, refuted): standard output is not exactly the Markdown.
    It holds the lines of [logger.info] as well, and the Markdown printed
    by [console.log] is followed by one more line feed. *)
Lemma scenario_stdout_is_not_the_markdown :
  stdout (w_trace (snd Toy.scenario)) <> Toy.expected
  /\ String.concat "" (map (fun line => line ++ nl) (console_logs (w_trace (snd Toy.scenario))))
     <> Toy.expected.
Proof. split; vm_compute; discriminate. Qed.

(** C3 (amended): on the PDF of three pages with the arguments [2] and
    [3], [pdftk] extracts the range [2-3], [pdftoppm] renders the extract,
    two images are read and transcribed, the one call of [console.log]
    prints the two fragments, each followed by the separator; standard
    output ends with that text and the line feed [console.log] adds; the
    run exits with code 0 and the working directory is gone. *)
Theorem scenario_pages_2_to_3 :
  fst Toy.scenario = Exit 0
  /\ spawns (w_trace (snd Toy.scenario))
     = [("pdfinfo", [path_join Toy.dir "input.pdf"]);
        ("pdftk", [path_join Toy.dir "input.pdf"; "cat"; "2-3"; "output";
                   path_join Toy.dir "extract_2_3.pdf"]);
        pdftoppm_call Toy.dir (path_join Toy.dir "extract_2_3.pdf")]
  /\ reads (w_trace (snd Toy.scenario))
     = [path_join (path_join Toy.dir "images") "page-1.jpg";
        path_join (path_join Toy.dir "images") "page-2.jpg"]
  /\ length (posts (w_trace (snd Toy.scenario))) = 2%nat
  /\ console_logs (w_trace (snd Toy.scenario)) = [Toy.expected]
  /\ last (omap stdout_chunk (w_trace (snd Toy.scenario))) = Some (Toy.expected ++ nl)
  /\ last (w_trace (snd Toy.scenario)) = Some (RmSync Toy.dir)
  /\ ~ on_disk (w_fs (snd Toy.scenario)) Toy.dir.
Proof.
  split; [vm_compute; reflexivity |].
  split; [vm_compute; reflexivity |].
  split; [vm_compute; reflexivity |].
  split; [vm_compute; reflexivity |].
  split; [vm_compute; reflexivity |].
  split; [vm_compute; reflexivity |].
  split; [vm_compute; reflexivity |].
  assert (E : w_fs (snd Toy.scenario) = {["output" := Dir]}) by (vm_compute; reflexivity).
  rewrite E. intros (p & Hu & Hs).
  apply lookup_singleton_is_Some in Hs. subst p. vm_compute in Hu. discriminate.
Qed.

(** * Further properties *)

(** ** Numbers as text *)

Lemma take_while_all (p : ascii -> bool) (s : string) :
  string_forall p s = true -> JS.take_while p s = s.
Proof.
  induction s as [| c s IH]; cbn; [reflexivity |].
  intros H. apply andb_true_iff in H as [Hc Hs]. rewrite Hc, (IH Hs). reflexivity.
Qed.

Lemma uint_digits (d : Decimal.uint) :
  string_forall JS.is_digit (NilEmpty.string_of_uint d) = true.
Proof. induction d; cbn; auto. Qed.

Lemma digits_value_acc (d : Decimal.uint) (p : positive) :
  JS.digits_value (Z.pos p) (NilEmpty.string_of_uint d) = Z.pos (Pos.of_uint_acc d p).
Proof.
  revert p. induction d; intros p; cbn [NilEmpty.string_of_uint JS.digits_value Pos.of_uint_acc];
    [reflexivity | ..];
    match goal with
    | |- JS.digits_value ?a _ = Z.pos (Pos.of_uint_acc _ ?q) =>
        replace a with (Z.pos q)
          by (unfold JS.digit_value;
              match goal with |- context [Z.of_nat ?n] =>
                let v := eval vm_compute in (Z.of_nat n) in
                change (Z.of_nat n) with v end; lia)
    end; apply IHd.
Qed.

Lemma digits_value_uint (d : Decimal.uint) :
  JS.digits_value 0 (NilEmpty.string_of_uint d) = Z.of_N (Pos.of_uint d).
Proof.
  induction d; cbn [NilEmpty.string_of_uint JS.digits_value Pos.of_uint];
    [reflexivity | exact IHd | ..];
    match goal with
    | |- JS.digits_value ?a _ = Z.of_N (N.pos (Pos.of_uint_acc _ ?q)) =>
        replace a with (Z.pos q) by (vm_compute; reflexivity)
    end; apply digits_value_acc.
Qed.

(** [parseInt] on a string of digits with an optional minus sign. *)
Lemma parseInt_all_digits (c : ascii) (r : string) :
  string_forall JS.is_digit (String c r) = true ->
  JS.parseInt (String c r) = JS.Num (JS.digits_value 0 (String c r))
  /\ JS.parseInt (String "-" (String c r)) = JS.Num (- JS.digits_value 0 (String c r)).
Proof.
  intros Hall. pose proof (take_while_all _ _ Hall) as Ht.
  assert (Hd : JS.is_digit c = true) by (cbn in Hall; apply andb_true_iff in Hall; tauto).
  destruct (digit_is_plain c Hd) as (Hs & Hm & Hp).
  split.
  - unfold JS.parseInt. cbn [JS.drop_while]. rewrite Hs.
    assert (E : match String c r with
                | String "-" r0 => ((-1)%Z, r0)
                | String "+" r0 => (1%Z, r0)
                | _ => (1%Z, String c r)
                end = (1%Z, String c r)).
    { destruct c as [[] [] [] [] [] [] [] []]; try discriminate Hd; reflexivity. }
    rewrite E, Ht.
    destruct (JS.digits_value 0 (String c r)); reflexivity.
  - change (JS.parseInt (String "-" (String c r)))
      with (match JS.take_while JS.is_digit (String c r) with
            | EmptyString => JS.NaN
            | _ => JS.Num (-1 * JS.digits_value 0 (JS.take_while JS.is_digit (String c r)))
            end).
    rewrite Ht. destruct (JS.digits_value 0 (String c r)); reflexivity.
Qed.

Lemma parseInt_of_string_of_Z (z : Z) : JS.parseInt (JS.string_of_Z z) = JS.Num z.
Proof.
  unfold JS.string_of_Z.
  destruct z as [| p | p]; [reflexivity | |].
  - cbn [Z.to_int NilZero.string_of_int]. unfold NilZero.string_of_uint.
    pose proof (DecimalPos.Unsigned.to_uint_nonnil p) as Hn.
    pose proof (uint_digits (Pos.to_uint p)) as Hall.
    pose proof (digits_value_uint (Pos.to_uint p)) as Hv.
    rewrite DecimalPos.Unsigned.of_to in Hv.
    destruct (Pos.to_uint p) eqn:E; [contradiction | ..];
      (cbn [NilEmpty.string_of_uint] in *;
       match goal with |- JS.parseInt (String ?c ?r) = _ =>
         destruct (parseInt_all_digits c r Hall) as (-> & _) end;
       rewrite Hv; reflexivity).
  - cbn [Z.to_int NilZero.string_of_int]. unfold NilZero.string_of_uint.
    pose proof (DecimalPos.Unsigned.to_uint_nonnil p) as Hn.
    pose proof (uint_digits (Pos.to_uint p)) as Hall.
    pose proof (digits_value_uint (Pos.to_uint p)) as Hv.
    rewrite DecimalPos.Unsigned.of_to in Hv.
    destruct (Pos.to_uint p) eqn:E; [contradiction | ..];
      (cbn [NilEmpty.string_of_uint] in *;
       match goal with |- JS.parseInt (String "-" (String ?c ?r)) = _ =>
         destruct (parseInt_all_digits c r Hall) as (_ & ->) end;
       rewrite Hv; reflexivity).
Qed.

(** X1: a safe integer written out by [String(n)], as in the range
    handed to [pdftk] and in the log lines, reads back through [parseInt]
    as the same integer; [NaN] is written as a text that reads back as
    [NaN]. *)
Theorem number_text_round_trip (n : JS.number) :
  safe_number n -> JS.parseInt (JS.string_of_number n) = n.
Proof.
  intros _. destruct n as [z |]; [apply parseInt_of_string_of_Z | reflexivity].
Qed.

Lemma number_text_round_trip_witness :
  safe_number (JS.Num (-42))
  /\ JS.parseInt (JS.string_of_number (JS.Num (-42))) = JS.Num (-42).
Proof.
  assert (H : safe_number (JS.Num (-42))) by (cbn; lia).
  split; [exact H | exact (number_text_round_trip (JS.Num (-42)) H)].
Defined.

(** ** More on the page range *)

(** X2: one argument is the end page, the start being 1.  On a document
    of [t] pages the resolved start is 1, and no extraction takes place
    exactly when the argument is 0 or at least [t]. *)
Theorem single_argument_is_the_end_page (a : string) (t n : Z) :
  parse_args [a] = (JS.Num 1, JS.parseInt a)
  /\ fst (resolve_range (JS.Num t) (JS.Num 1) (JS.Num n)) = JS.Num 1
  /\ (needs_extraction (JS.Num t) (JS.Num 1)
        (snd (resolve_range (JS.Num t) (JS.Num 1) (JS.Num n))) = false
      <-> (n = 0 \/ t <= n)%Z).
Proof.
  split; [reflexivity |].
  unfold resolve_range, needs_extraction, JS.gt, JS.lt, JS.strict_eq, JS.strict_neq.
  cbn [fst snd]. split.
  - destruct (1 <? 1)%Z, (t <? 1)%Z; reflexivity.
  - change (1 =? 1)%Z with true. cbn [negb orb].
    destruct (Z.eqb_spec n 0), (Z.ltb_spec t n); cbn [orb JS.strict_eq];
      repeat match goal with
             | |- context [(?a =? ?b)%Z] => destruct (Z.eqb_spec a b)
             end;
      cbn [negb]; split; intros; try lia; try discriminate; reflexivity.
Qed.

(** X3: bounds that both lie in [1, t] are kept as they are, in either
    order; a range whose end is below its start is not reordered or
    rejected, and the extraction step is taken with it. *)
Theorem in_range_bounds_are_kept (t s e : Z) :
  (1 <= s <= t)%Z -> (1 <= e <= t)%Z ->
  resolve_range (JS.Num t) (JS.Num s) (JS.Num e) = (JS.Num s, JS.Num e)
  /\ ((e < s)%Z -> needs_extraction (JS.Num t) (JS.Num s) (JS.Num e) = true).
Proof.
  intros Hs He. split.
  - unfold resolve_range, JS.gt, JS.lt, JS.strict_eq.
    replace (s <? 1)%Z with false by (symmetry; apply Z.ltb_ge; lia).
    replace (t <? s)%Z with false by (symmetry; apply Z.ltb_ge; lia).
    replace (e =? 0)%Z with false by (symmetry; apply Z.eqb_neq; lia).
    replace (t <? e)%Z with false by (symmetry; apply Z.ltb_ge; lia).
    reflexivity.
  - intros Hes. unfold needs_extraction, JS.strict_neq, JS.strict_eq.
    replace (e =? t)%Z with false by (symmetry; apply Z.eqb_neq; lia).
    apply orb_true_r.
Qed.

(** [in_range_bounds_are_kept] on the range from page 3 back to page 2. *)
Lemma in_range_bounds_are_kept_witness :
  ((1 <= 3 <= 5)%Z /\ (1 <= 2 <= 5)%Z)
  /\ resolve_range (JS.Num 5) (JS.Num 3) (JS.Num 2) = (JS.Num 3, JS.Num 2)
  /\ ((2 < 3)%Z -> needs_extraction (JS.Num 5) (JS.Num 3) (JS.Num 2) = true).
Proof.
  split; [lia |]. apply (in_range_bounds_are_kept 5 3 2); lia.
Defined.

(** X4: on a document with at least one page, whatever the arguments
    were, a resolved start is [NaN] or lies in [1, t], a resolved end is
    [NaN] or at most [t] and not 0, and resolving the resolved range again
    changes nothing. *)
Theorem resolved_range_is_bounded (t : Z) (s e : JS.number) :
  (1 <= t)%Z ->
  let s' := fst (resolve_range (JS.Num t) s e) in
  let e' := snd (resolve_range (JS.Num t) s e) in
  (s' = JS.NaN \/ exists z, s' = JS.Num z /\ (1 <= z <= t)%Z)
  /\ (e' = JS.NaN \/ exists z, e' = JS.Num z /\ (z <= t)%Z /\ z <> 0%Z)
  /\ resolve_range (JS.Num t) s' e' = (s', e').
Proof.
  intros Ht s' e'. subst s' e'.
  unfold resolve_range, JS.gt, JS.lt, JS.strict_eq. cbn [fst snd].
  destruct s as [s |], e as [e |]; cbn [orb].
  - destruct (Z.ltb_spec s 1), (Z.ltb_spec t s), (Z.eqb_spec e 0), (Z.ltb_spec t e);
      cbn [orb];
      (split; [right; eexists; split; [reflexivity | lia] |]);
      (split; [right; eexists; split; [reflexivity | lia] |]);
      repeat match goal with
             | |- context [(?a <? ?b)%Z] => destruct (Z.ltb_spec a b); try lia
             | |- context [(?a =? ?b)%Z] => destruct (Z.eqb_spec a b); try lia
             end; reflexivity.
  - destruct (Z.ltb_spec s 1), (Z.ltb_spec t s); cbn [orb];
      (split; [right; eexists; split; [reflexivity | lia] |]);
      (split; [left; reflexivity |]);
      repeat match goal with
             | |- context [(?a <? ?b)%Z] => destruct (Z.ltb_spec a b); try lia
             end; reflexivity.
  - destruct (Z.eqb_spec e 0), (Z.ltb_spec t e); cbn [orb];
      (split; [left; reflexivity |]);
      (split; [right; eexists; split; [reflexivity | lia] |]);
      repeat match goal with
             | |- context [(?a <? ?b)%Z] => destruct (Z.ltb_spec a b); try lia
             | |- context [(?a =? ?b)%Z] => destruct (Z.eqb_spec a b); try lia
             end; reflexivity.
  - split; [left; reflexivity |]. split; [left; reflexivity | reflexivity].
Qed.

(** [resolved_range_is_bounded] on the arguments [-4] and [9], 3 pages. *)
Lemma resolved_range_is_bounded_witness :
  (1 <= 3)%Z
  /\ let s' := fst (resolve_range (JS.Num 3) (JS.Num (-4)) (JS.Num 9)) in
     let e' := snd (resolve_range (JS.Num 3) (JS.Num (-4)) (JS.Num 9)) in
     (s' = JS.NaN \/ exists z, s' = JS.Num z /\ (1 <= z <= 3)%Z)
     /\ (e' = JS.NaN \/ exists z, e' = JS.Num z /\ (z <= 3)%Z /\ z <> 0%Z)
     /\ resolve_range (JS.Num 3) s' e' = (s', e').
Proof.
  split; [lia |]. apply (resolved_range_is_bounded 3 (JS.Num (-4)) (JS.Num 9)). lia.
Defined.

(** ** Rejected invocations *)

(** X5: without arguments the run logs one usage line to standard error
    and exits with code 1, whatever standard input holds: nothing is
    written to standard output, no tool is started and the disk is left as
    it was. *)
Theorem no_arguments_is_a_usage_error (env : Env) (stdin : string) (w : World) :
  fst (main env [] stdin w) = Exit 1
  /\ w_fs (snd (main env [] stdin w)) = w_fs w
  /\ w_trace (snd (main env [] stdin w))
     = (w_trace w
          ++ [ConsoleError
                (env_now env (w_clock w) ++ " - ERROR - "
                   ++ "Usage: ts-node index.ts [start_page] [end_page] < path_to_input.md")])%list.
Proof. repeat split. Qed.

(** X6: with arguments and an empty standard input the run logs two lines
    to standard error and exits with code 1 before any directory is
    created: the disk is left as it was and no tool is started. *)
Theorem empty_input_is_rejected (env : Env) (args : list string) (w : World) :
  args <> [] ->
  fst (main env args "" w) = Exit 1
  /\ w_fs (snd (main env args "" w)) = w_fs w
  /\ w_trace (snd (main env args "" w))
     = (w_trace w
          ++ [ConsoleError (env_now env (w_clock w) ++ " - ERROR - "
                              ++ "No input data received");
              ConsoleError
                (env_now env (S (w_clock w)) ++ " - ERROR - "
                   ++ "Usage: ts-node index.ts [start_page] [end_page] < path_to_input.pdf")])%list.
Proof.
  intros Ha. destruct args as [| a args]; [contradiction |].
  unfold main, prepare. destruct (parse_args (a :: args)) as [s e].
  split; [reflexivity |]. split; [reflexivity |].
  cbn. rewrite <- app_assoc. reflexivity.
Qed.

(** [empty_input_is_rejected] on the argument [3]. *)
Lemma empty_input_is_rejected_witness :
  ["3"] <> []
  /\ fst (main Toy.env ["3"] "" (initial_world ∅)) = Exit 1
  /\ w_fs (snd (main Toy.env ["3"] "" (initial_world ∅))) = w_fs (initial_world ∅)
  /\ w_trace (snd (main Toy.env ["3"] "" (initial_world ∅)))
     = (w_trace (initial_world ∅)
          ++ [ConsoleError (env_now Toy.env (w_clock (initial_world ∅)) ++ " - ERROR - "
                              ++ "No input data received");
              ConsoleError
                (env_now Toy.env (S (w_clock (initial_world ∅))) ++ " - ERROR - "
                   ++ "Usage: ts-node index.ts [start_page] [end_page] < path_to_input.pdf")])%list.
Proof.
  split; [discriminate |].
  apply (empty_input_is_rejected Toy.env ["3"] (initial_world ∅)). discriminate.
Defined.

(** ** Relations every step keeps *)

Section Steps.

Variable R : World -> World -> Prop.
Hypothesis R_refl : forall w, R w w.
Hypothesis R_trans : forall w1 w2 w3, R w1 w2 -> R w2 w3 -> R w1 w3.

Lemma steps_ret {A} (a : A) : steps R (ret a).
Proof. intros w out w' H. inversion H; subst. apply R_refl. Qed.

Lemma steps_throw {A} (e : JSError) : steps R (@throw A e).
Proof. intros w out w' H. inversion H; subst. apply R_refl. Qed.

Lemma steps_exit {A} (c : Z) : steps R (@process_exit A c).
Proof. intros w out w' H. inversion H; subst. apply R_refl. Qed.

Lemma steps_lift {A} (r : result A) : steps R (lift r).
Proof. destruct r; [apply steps_ret | apply steps_throw]. Qed.

Lemma steps_bind {A B} (m : M A) (k : A -> M B) :
  steps R m -> (forall a, steps R (k a)) -> steps R (bind m k).
Proof.
  intros Hm Hk w out w' H.
  apply bind_inv in H as [(a & w1 & H1 & H2) | [(e & H1 & _) | (c & H1 & _)]].
  - eapply R_trans; [exact (Hm _ _ _ H1) | exact (Hk a _ _ _ H2)].
  - exact (Hm _ _ _ H1).
  - exact (Hm _ _ _ H1).
Qed.

Lemma steps_try_catch {A} (m : M A) (h : JSError -> M A) :
  steps R m -> (forall e, steps R (h e)) -> steps R (try_catch m h).
Proof.
  intros Hm Hh w out w' H.
  apply try_catch_inv in H as [(e & w1 & H1 & H2) | (H1 & _)].
  - eapply R_trans; [exact (Hm _ _ _ H1) | exact (Hh e _ _ _ H2)].
  - exact (Hm _ _ _ H1).
Qed.

(** Once the primitives keep [R], so does every part of the program up to
    the removal of the working directory. *)
Variable env : Env.
Hypothesis R_emit : forall e, steps R (emit e).
Hypothesis R_date_now : steps R (date_now env).
Hypothesis R_mkdirSync : forall p, steps R (mkdirSync p).
Hypothesis R_writeFileSync : forall p data, steps R (writeFileSync p data).
Hypothesis R_readFileSync : forall p, steps R (readFileSync p).
Hypothesis R_readdirSync : forall p, steps R (readdirSync p).
Hypothesis R_spawn : forall cmd args, steps R (spawn env cmd args).
Hypothesis R_post : forall url headers payload, steps R (axios_post env url headers payload).

Lemma steps_logger_info (message : string) (args : list string) :
  steps R (logger_info env message args).
Proof. apply steps_bind; [apply R_date_now | intros; apply R_emit]. Qed.

Lemma steps_logger_error (message : string) : steps R (logger_error env message).
Proof. apply steps_bind; [apply R_date_now | intros; apply R_emit]. Qed.

Lemma steps_read_images (imagePaths : list string) : steps R (read_images imagePaths).
Proof.
  induction imagePaths as [| p rest IH]; cbn [read_images]; [apply steps_ret |].
  apply steps_bind.
  - apply steps_try_catch.
    + apply steps_bind; [apply R_readFileSync | intros; apply steps_ret].
    + intros e. apply steps_bind; [apply R_emit | intros; apply steps_throw].
  - intros item. apply steps_bind; [exact IH | intros; apply steps_ret].
Qed.

Lemma steps_client_completion (client : LLMClient) (userMessage : string)
    (systemPrompt : option string) (imagePaths : option (list string))
    (temperature : option Q) (maxTokens : option Z) :
  steps R (client_completion env client userMessage systemPrompt imagePaths temperature
             maxTokens).
Proof.
  unfold client_completion. apply steps_bind.
  - destruct imagePaths as [[| p ps] |]; try apply steps_ret.
    apply steps_bind; [apply steps_read_images | intros; apply steps_ret].
  - intros userContent. apply steps_try_catch.
    + apply steps_bind; [apply R_post | intros; apply steps_lift].
    + intros e. apply steps_bind; [apply R_emit | intros; apply steps_throw].
Qed.

Lemma steps_retry_loop (attempt : M value) (n : nat) :
  steps R attempt -> steps R (retry_loop env attempt n).
Proof.
  intros Ha. induction n as [| n IH]; cbn [retry_loop]; [apply steps_ret |].
  apply steps_try_catch; [exact Ha | intros e].
  apply steps_bind; [apply steps_logger_error | intros _].
  apply steps_bind; [apply R_emit | intros _; exact IH].
Qed.

Lemma steps_completion (message : string) (model systemPrompt : option string)
    (imagePaths : option (list string)) (temperature : option Q)
    (maxTokens retryTimes : option Z) :
  steps R (completion env message model systemPrompt imagePaths temperature maxTokens
             retryTimes).
Proof.
  unfold completion. destruct (negb _).
  - apply steps_bind; [apply steps_logger_error | intros; apply steps_exit].
  - apply steps_retry_loop, steps_client_completion.
Qed.

Lemma steps_transcribe (imgPaths : list string) (markdown : string) :
  steps R (transcribe env imgPaths markdown).
Proof.
  revert markdown. induction imgPaths as [| p rest IH]; intros markdown; cbn [transcribe];
    [apply steps_ret |].
  apply steps_bind; [apply steps_logger_info | intros _].
  apply steps_bind; [apply steps_completion | intros imgMarkdown].
  apply steps_bind; [apply steps_lift | intros text].
  apply steps_bind; [apply steps_logger_info | intros _; apply IH].
Qed.

Lemma steps_getTotalPages (pdfPath : string) : steps R (getTotalPages env pdfPath).
Proof.
  apply steps_bind; [apply R_spawn | intros run].
  destruct (tool_exit run) as [msg | code]; [apply steps_throw |].
  destruct (code_not_zero code); [apply steps_throw |].
  destruct (match_pages (tool_stdout run)); [apply steps_ret | apply steps_throw].
Qed.

Lemma steps_extractPages (pdfPath : string) (s e : JS.number) (outputDir : string) :
  steps R (extractPages env pdfPath s e outputDir).
Proof.
  apply steps_bind; [apply R_spawn | intros run].
  destruct (tool_exit run) as [msg | code]; [apply steps_throw |].
  destruct (code_not_zero code); [apply steps_throw | apply steps_ret].
Qed.

Lemma steps_convertToImages (pdfPath outputDir : string) :
  steps R (convertToImages env pdfPath outputDir).
Proof.
  apply steps_bind; [apply R_mkdirSync | intros _].
  apply steps_bind; [apply R_spawn | intros run].
  destruct (tool_exit run) as [msg | code]; [apply steps_throw |].
  destruct (code_not_zero code); [apply steps_throw |].
  apply steps_try_catch.
  - apply steps_bind; [apply R_readdirSync | intros; apply steps_ret].
  - intros e. apply steps_throw.
Qed.

Lemma steps_rasterize (outputDir inputPdfPath : string) (s e : JS.number) :
  steps R (rasterize env outputDir inputPdfPath s e).
Proof.
  apply steps_bind; [apply steps_getTotalPages | intros total].
  unfold render_range. destruct (resolve_range total s e) as [s' e'].
  apply steps_bind; [apply steps_logger_info | intros _].
  apply steps_bind.
  - destruct (needs_extraction total s' e'); [| apply steps_ret].
    apply steps_bind; [apply steps_extractPages | intros p].
    apply steps_bind; [apply steps_logger_info | intros; apply steps_ret].
  - intros p. apply steps_bind; [apply steps_convertToImages | intros imgs].
    apply steps_bind; [apply steps_logger_info | intros; apply steps_ret].
Qed.

Lemma steps_prepare (args : list string) (stdin : string) :
  steps R (prepare env args stdin).
Proof.
  unfold prepare. destruct args as [| a args].
  - apply steps_bind; [apply steps_logger_error | intros; apply steps_exit].
  - destruct (parse_args (a :: args)) as [s e].
    destruct (String.length stdin =? 0)%nat.
    + apply steps_bind; [apply steps_logger_error | intros _].
      apply steps_bind; [apply steps_logger_error | intros; apply steps_exit].
    + apply steps_bind; [apply R_date_now | intros now].
      apply steps_bind; [apply R_mkdirSync | intros _].
      apply steps_bind; [apply R_writeFileSync | intros _].
      apply steps_bind; [apply steps_rasterize | intros; apply steps_ret].
Qed.

End Steps.

(** ** Nothing outside the working directory is removed *)

Lemma fs_grows_refl (w : World) : fs_grows w w.
Proof. intros p H. exact H. Qed.

Lemma fs_grows_trans (w1 w2 w3 : World) : fs_grows w1 w2 -> fs_grows w2 w3 -> fs_grows w1 w3.
Proof. intros H1 H2 p H. apply H2, H1, H. Qed.

Lemma fs_grows_same (w w' : World) : w_fs w' = w_fs w -> fs_grows w w'.
Proof. intros E p H. rewrite E. exact H. Qed.

Lemma insert_keeps_some (fs : gmap string Node) (q : string) (x : Node) (p : string) :
  is_Some (fs !! p) -> is_Some (<[q := x]> fs !! p).
Proof.
  intros H. destruct (decide (q = p)) as [-> | Hne].
  - rewrite lookup_insert_eq. eauto.
  - rewrite lookup_insert_ne by exact Hne. exact H.
Qed.

Lemma grows_emit (e : Event) : steps fs_grows (emit e).
Proof. intros w out w' H. inversion H; subst. apply fs_grows_same. reflexivity. Qed.

Lemma grows_date_now (env : Env) : steps fs_grows (date_now env).
Proof. intros w out w' H. inversion H; subst. apply fs_grows_same. reflexivity. Qed.

Lemma grows_mkdirSync (p : string) : steps fs_grows (mkdirSync p).
Proof.
  intros w out w' H. unfold mkdirSync, bind, emit in H. cbn in H.
  destruct (existsb _ _); inversion H; subst; [apply fs_grows_same; reflexivity |].
  clear H. intros q Hq. cbn. induction (ancestors p) as [| a l IH]; [exact Hq |].
  cbn [foldr]. apply insert_keeps_some, IH.
Qed.

Lemma grows_writeFileSync (p data : string) : steps fs_grows (writeFileSync p data).
Proof.
  intros w out w' H. unfold writeFileSync, bind, emit in H. cbn in H.
  destruct (w_fs w !! p) as [[| old] |]; inversion H; subst;
    [apply fs_grows_same; reflexivity | |];
    intros q Hq; cbn; apply insert_keeps_some, Hq.
Qed.

Lemma grows_readFileSync (p : string) : steps fs_grows (readFileSync p).
Proof.
  intros w out w' H. unfold readFileSync, bind, emit in H. cbn in H.
  destruct (w_fs w !! p) as [[| old] |]; inversion H; subst; apply fs_grows_same; reflexivity.
Qed.

Lemma grows_readdirSync (p : string) : steps fs_grows (readdirSync p).
Proof.
  intros w out w' H. unfold readdirSync, bind, emit in H. cbn in H.
  destruct (w_fs w !! p) as [[| old] |]; inversion H; subst; apply fs_grows_same; reflexivity.
Qed.

Lemma add_files_keep_some (files : list (string * string)) (fs : gmap string Node)
    (p : string) :
  is_Some (fs !! p) -> is_Some (fold_left add_file files fs !! p).
Proof.
  revert fs. induction files as [| f files IH]; intros fs H; [exact H |].
  cbn [fold_left]. apply IH. unfold add_file.
  destruct (fs !! f.1) as [[| old] |]; [exact H | |]; apply insert_keeps_some, H.
Qed.

Lemma grows_spawn (env : Env) (cmd : string) (args : list string) :
  steps fs_grows (spawn env cmd args).
Proof.
  intros w out w' H. unfold spawn, bind, emit in H. cbn in H. inversion H; subst.
  intros p Hp. cbn. apply add_files_keep_some, Hp.
Qed.

Lemma grows_axios_post (env : Env) (url : string) (headers : list (string * string))
    (payload : Payload) :
  steps fs_grows (axios_post env url headers payload).
Proof.
  intros w out w' H. unfold axios_post, bind, emit in H. cbn in H.
  destruct (env_post _ _ _ _ _); inversion H; subst; apply fs_grows_same; reflexivity.
Qed.

Ltac grows_primitive :=
  first [ exact fs_grows_refl | exact fs_grows_trans | exact grows_emit
        | apply grows_date_now | exact grows_mkdirSync | exact grows_writeFileSync
        | exact grows_readFileSync | exact grows_readdirSync
        | apply grows_spawn | apply grows_axios_post ].

(** X7: a run never removes anything that was on disk outside its working
    directory: every path that existed before the run and does not lie at
    or below [output/<timestamp>] still exists after it, however the run
    ends. *)
Theorem nothing_outside_working_directory_is_removed (env : Env) (args : list string)
    (stdin : string) (w : World) (p : string) :
  is_Some (w_fs w !! p) ->
  under (output_dir (env_now env (w_clock w))) p = false ->
  is_Some (w_fs (snd (main env args stdin w)) !! p).
Proof.
  intros Hp Hout. unfold main.
  assert (SP : steps fs_grows (prepare env args stdin))
    by (apply steps_prepare; grows_primitive).
  destruct (prepare env args stdin w) as [[[d imgPaths] | e | c] w1] eqn:H1.
  - pose proof (SP _ _ _ H1 p Hp) as Hp1.
    destruct (prepare_ret _ _ _ _ _ _ _ H1) as (_ & _ & -> & _).
    erewrite bind_ret_eq by exact H1. cbn [fst snd]. unfold finish.
    assert (ST : steps fs_grows
                   (transcribe env (JS.sort imgPaths) ""))
      by (apply steps_transcribe; grows_primitive).
    destruct (transcribe env (JS.sort imgPaths) "" w1) as [[markdown | e | c] w2] eqn:H2;
      pose proof (ST _ _ _ H2 p Hp1) as Hp2.
    + erewrite bind_ret_eq by exact H2. rewrite finish_tail_eq. cbn [snd].
      unfold set_fs. cbn [w_fs]. destruct Hp2 as (x & Hx). exists x.
      apply map_lookup_filter_Some. split; [exact Hx | exact Hout].
    + erewrite bind_throw_eq by exact H2. exact Hp2.
    + erewrite bind_exit_eq by exact H2. exact Hp2.
  - erewrite bind_throw_eq by exact H1. exact (SP _ _ _ H1 p Hp).
  - erewrite bind_exit_eq by exact H1. exact (SP _ _ _ H1 p Hp).
Qed.

(** [nothing_outside_working_directory_is_removed] on the scenario, with a
    file next to the [output] directory. *)
Lemma nothing_outside_working_directory_is_removed_witness :
  (is_Some (w_fs (initial_world {["notes.txt" := File "keep"]}) !! "notes.txt")
   /\ under (output_dir (env_now Toy.env
                           (w_clock (initial_world {["notes.txt" := File "keep"]}))))
        "notes.txt" = false)
  /\ is_Some (w_fs (snd (main Toy.env ["2"; "3"] "123"
                           (initial_world {["notes.txt" := File "keep"]}))) !! "notes.txt").
Proof.
  assert (H1 : is_Some (w_fs (initial_world {["notes.txt" := File "keep"]}) !! "notes.txt"))
    by (exists (File "keep"); vm_compute; reflexivity).
  assert (H2 : under (output_dir (env_now Toy.env
                                    (w_clock (initial_world {["notes.txt" := File "keep"]}))))
                 "notes.txt" = false)
    by (vm_compute; reflexivity).
  split; [split; [exact H1 | exact H2] |].
  exact (nothing_outside_working_directory_is_removed Toy.env ["2"; "3"] "123"
           (initial_world {["notes.txt" := File "keep"]}) "notes.txt" H1 H2).
Defined.

(** ** What a page costs *)

Lemma reads_app (t1 t2 : list Event) : reads (t1 ++ t2) = (reads t1 ++ reads t2)%list.
Proof. unfold reads. apply omap_app. Qed.

Lemma sleeps_app (t1 t2 : list Event) : sleeps (t1 ++ t2) = (sleeps t1 ++ sleeps t2)%list.
Proof. unfold sleeps. apply omap_app. Qed.

Lemma costs_nothing {A} (f : World -> Outcome A * World) :
  (forall w, w_trace (snd (f w)) = w_trace w) -> costs_at_most 0 0 0 f.
Proof.
  intros Hf w out w' H. exists []. specialize (Hf w). rewrite H in Hf. cbn in Hf.
  rewrite Hf, app_nil_r. cbn. repeat split; lia.
Qed.

Lemma costs_ret {A} (a : A) : costs_at_most 0 0 0 (ret a).
Proof. apply costs_nothing. reflexivity. Qed.

Lemma costs_throw {A} (e : JSError) : costs_at_most 0 0 0 (@throw A e).
Proof. apply costs_nothing. reflexivity. Qed.

Lemma costs_exit {A} (c : Z) : costs_at_most 0 0 0 (@process_exit A c).
Proof. apply costs_nothing. reflexivity. Qed.

Lemma costs_lift {A} (r : result A) : costs_at_most 0 0 0 (lift r).
Proof. destruct r; [apply costs_ret | apply costs_throw]. Qed.

Lemma costs_date_now (env : Env) : costs_at_most 0 0 0 (date_now env).
Proof. apply costs_nothing. reflexivity. Qed.

Lemma costs_weaken (r p s r' p' s' : nat) {A} (m : M A) :
  (r <= r')%nat -> (p <= p')%nat -> (s <= s')%nat ->
  costs_at_most r p s m -> costs_at_most r' p' s' m.
Proof.
  intros Hr Hp Hs Hm w out w' H. destruct (Hm _ _ _ H) as (evs & T & R1 & P1 & S1).
  exists evs. repeat split; [exact T | lia | lia | lia].
Qed.

Lemma costs_bind (r1 p1 s1 r2 p2 s2 : nat) {A B} (m : M A) (k : A -> M B) :
  costs_at_most r1 p1 s1 m -> (forall a, costs_at_most r2 p2 s2 (k a)) ->
  costs_at_most (r1 + r2) (p1 + p2) (s1 + s2) (bind m k).
Proof.
  intros Hm Hk w out w' H.
  apply bind_inv in H as [(a & w1 & H1 & H2) | [(e & H1 & _) | (c & H1 & _)]].
  - destruct (Hm _ _ _ H1) as (evs1 & T1 & R1 & P1 & S1).
    destruct (Hk a _ _ _ H2) as (evs2 & T2 & R2 & P2 & S2).
    exists (evs1 ++ evs2)%list. rewrite T2, T1, app_assoc.
    rewrite reads_app, posts_app, sleeps_app, !length_app.
    repeat split; lia.
  - destruct (Hm _ _ _ H1) as (evs1 & T1 & R1 & P1 & S1).
    exists evs1. repeat split; [exact T1 | lia | lia | lia].
  - destruct (Hm _ _ _ H1) as (evs1 & T1 & R1 & P1 & S1).
    exists evs1. repeat split; [exact T1 | lia | lia | lia].
Qed.

Lemma costs_try_catch (r1 p1 s1 r2 p2 s2 : nat) {A} (m : M A) (h : JSError -> M A) :
  costs_at_most r1 p1 s1 m -> (forall e, costs_at_most r2 p2 s2 (h e)) ->
  costs_at_most (r1 + r2) (p1 + p2) (s1 + s2) (try_catch m h).
Proof.
  intros Hm Hh w out w' H.
  apply try_catch_inv in H as [(e & w1 & H1 & H2) | (H1 & _)].
  - destruct (Hm _ _ _ H1) as (evs1 & T1 & R1 & P1 & S1).
    destruct (Hh e _ _ _ H2) as (evs2 & T2 & R2 & P2 & S2).
    exists (evs1 ++ evs2)%list. rewrite T2, T1, app_assoc.
    rewrite reads_app, posts_app, sleeps_app, !length_app.
    repeat split; lia.
  - destruct (Hm _ _ _ H1) as (evs1 & T1 & R1 & P1 & S1).
    exists evs1. repeat split; [exact T1 | lia | lia | lia].
Qed.

Lemma costs_emit (e : Event) :
  costs_at_most (length (reads [e])) (length (posts [e])) (length (sleeps [e])) (emit e).
Proof.
  intros w out w' H. inversion H; subst. exists [e]. repeat split; lia.
Qed.

Lemma costs_logger_info (env : Env) (message : string) (args : list string) :
  costs_at_most 0 0 0 (logger_info env message args).
Proof.
  apply (costs_bind 0 0 0 0 0 0); [apply costs_date_now | intros now].
  apply (costs_emit (ConsoleInfo _)).
Qed.

Lemma costs_logger_error (env : Env) (message : string) :
  costs_at_most 0 0 0 (logger_error env message).
Proof.
  apply (costs_bind 0 0 0 0 0 0); [apply costs_date_now | intros now].
  apply (costs_emit (ConsoleError _)).
Qed.

Lemma costs_readFileSync (p : string) : costs_at_most 1 0 0 (readFileSync p).
Proof.
  apply (costs_bind 1 0 0 0 0 0); [apply (costs_emit (ReadFileSync p)) | intros _].
  apply costs_nothing. intros w. destruct (w_fs w !! p) as [[| d] |]; reflexivity.
Qed.

Lemma costs_axios_post (env : Env) (url : string) (headers : list (string * string))
    (payload : Payload) :
  costs_at_most 0 1 0 (axios_post env url headers payload).
Proof.
  apply (costs_bind 0 1 0 0 0 0); [apply (costs_emit (HttpPost url headers payload)) |].
  intros _. apply costs_nothing. intros w.
  destruct (env_post env (w_requests w) url headers payload); reflexivity.
Qed.

Lemma costs_read_images (imagePaths : list string) :
  costs_at_most (length imagePaths) 0 0 (read_images imagePaths).
Proof.
  induction imagePaths as [| p rest IH]; cbn [read_images length]; [apply costs_ret |].
  apply (costs_bind 1 0 0 (length rest) 0 0).
  - apply (costs_try_catch 1 0 0 0 0 0).
    + apply (costs_bind 1 0 0 0 0 0); [apply costs_readFileSync | intros; apply costs_ret].
    + intros e. apply (costs_bind 0 0 0 0 0 0);
        [apply (costs_emit (ConsoleError _)) | intros; apply costs_throw].
  - intros item. eapply costs_weaken; [| | | apply (costs_bind (length rest) 0 0 0 0 0)];
      [lia | lia | lia | exact IH | intros; apply costs_ret].
Qed.

(** One call of the client reads each image once and sends at most one
    request. *)
Lemma costs_client_completion (env : Env) (client : LLMClient) (userMessage : string)
    (systemPrompt : option string) (imagePaths : option (list string))
    (temperature : option Q) (maxTokens : option Z) :
  costs_at_most (length (default [] imagePaths)) 1 0
    (client_completion env client userMessage systemPrompt imagePaths temperature
       maxTokens).
Proof.
  unfold client_completion.
  eapply costs_weaken;
    [| | | apply (costs_bind (length (default [] imagePaths)) 0 0 0 1 0)];
    [lia | lia | lia | |].
  - destruct imagePaths as [[| p ps] |]; try apply costs_ret.
    eapply costs_weaken; [| | | apply (costs_bind (length (p :: ps)) 0 0 0 0 0)];
      [cbn; lia | lia | lia | apply costs_read_images | intros; apply costs_ret].
  - intros userContent. apply (costs_try_catch 0 1 0 0 0 0).
    + apply (costs_bind 0 1 0 0 0 0); [apply costs_axios_post | intros; apply costs_lift].
    + intros e. apply (costs_bind 0 0 0 0 0 0);
        [apply (costs_emit (ConsoleError _)) | intros; apply costs_throw].
Qed.

Lemma costs_retry_loop (env : Env) (attempt : M value) (r p n : nat) :
  costs_at_most r p 0 attempt ->
  costs_at_most (n * r) (n * p) n (retry_loop env attempt n).
Proof.
  intros Ha. induction n as [| n IH]; cbn [retry_loop]; [apply costs_ret |].
  eapply costs_weaken; [| | | apply (costs_try_catch r p 0 (n * r) (n * p) (S n))];
    [lia | lia | lia | exact Ha | intros e].
  eapply costs_weaken; [| | | apply (costs_bind 0 0 0 (n * r) (n * p) (S n))];
    [lia | lia | lia | apply costs_logger_error | intros _].
  eapply costs_weaken; [| | | apply (costs_bind 0 0 1 (n * r) (n * p) n)];
    [lia | lia | lia | apply (costs_emit (Sleep 500)) | intros _; exact IH].
Qed.

Lemma costs_completion (env : Env) (message : string) (model systemPrompt : option string)
    (imagePaths : option (list string)) (temperature : option Q)
    (maxTokens retryTimes : option Z) :
  let n := Z.to_nat (default 3%Z retryTimes) in
  costs_at_most (n * length (default [] imagePaths)) n n
    (completion env message model systemPrompt imagePaths temperature maxTokens retryTimes).
Proof.
  intros n. unfold completion. destruct (negb _).
  - eapply costs_weaken; [| | | apply (costs_bind 0 0 0 0 0 0)];
      [lia | lia | lia | apply costs_logger_error | intros; apply costs_exit].
  - eapply costs_weaken; [| | | apply costs_retry_loop, costs_client_completion];
      fold n; lia.
Qed.

(** The transcription loop, page by page. *)
Lemma costs_transcribe (env : Env) (imgPaths : list string) (markdown : string) :
  costs_at_most (3 * length imgPaths) (3 * length imgPaths) (3 * length imgPaths)
    (transcribe env imgPaths markdown).
Proof.
  revert markdown. induction imgPaths as [| p rest IH]; intros markdown;
    cbn [transcribe length]; [apply costs_ret |].
  eapply costs_weaken;
    [| | | apply (costs_bind 0 0 0 (3 + 3 * length rest) (3 + 3 * length rest)
                    (3 + 3 * length rest))];
    [lia | lia | lia | apply costs_logger_info | intros _].
  apply (costs_bind 3 3 3).
  - apply (costs_completion env userPrompt (Some "gemini-1.5-pro") (Some "") (Some [_])
             (Some (3 # 10)%Q) (Some 8192%Z) None).
  - intros imgMarkdown.
    eapply costs_weaken; [| | | apply (costs_bind 0 0 0 (3 * length rest)
                                        (3 * length rest) (3 * length rest))];
      [lia | lia | lia | apply costs_lift | intros text].
    eapply costs_weaken; [| | | apply (costs_bind 0 0 0 (3 * length rest)
                                        (3 * length rest) (3 * length rest))];
      [lia | lia | lia | apply costs_logger_info | intros _; apply IH].
Qed.

(** X8: the transcription of [n] page images reads at most [3n] files,
    sends at most [3n] requests and waits at most [3n] times, each wait
    being one of 500ms: three attempts per page at most. *)
Theorem transcription_cost_is_bounded (env : Env) (imgPaths : list string)
    (markdown : string) (w : World) :
  exists evs,
    w_trace (snd (transcribe env imgPaths markdown w)) = (w_trace w ++ evs)%list
    /\ (length (reads evs) <= 3 * length imgPaths)%nat
    /\ (length (posts evs) <= 3 * length imgPaths)%nat
    /\ (length (sleeps evs) <= 3 * length imgPaths)%nat
    /\ Forall (fun ms => ms = 500%Z) (sleeps evs).
Proof.
  destruct (transcribe env imgPaths markdown w) as [out w'] eqn:H.
  destruct (costs_transcribe env imgPaths markdown _ _ _ H) as (evs & T & R1 & P1 & S1).
  destruct (sound_transcribe "" env imgPaths markdown _ _ _ H) as (_ & (evs' & T' & Q') & _).
  cbn [snd]. rewrite T in T'. apply app_inv_head in T'. subst evs'.
  exists evs. repeat split; try assumption.
  clear - Q'. induction Q' as [| e evs He _ IH]; [constructor |].
  destruct e; cbn in *; try exact IH. constructor; [exact He | exact IH].
Qed.

(** ** The order of the pages *)






(** ** The accumulated Markdown *)

Lemma length_append (a b : string) :
  String.length (a ++ b) = (String.length a + String.length b)%nat.
Proof.
  induction a as [| c a IH]; [reflexivity |].
  change (S (String.length (a ++ b)) = S (String.length a + String.length b)).
  f_equal. exact IH.
Qed.

(** X11: the Markdown only grows.  When the loop over [n] pages returns,
    its result is the Markdown it started from followed by an addition of
    at least [2n] characters, the separators. *)
Theorem markdown_is_append_only (env : Env) (imgPaths : list string)
    (markdown markdown' : string) (w : World) :
  fst (transcribe env imgPaths markdown w) = Ret markdown' ->
  exists added,
    markdown' = markdown ++ added
    /\ (2 * length imgPaths <= String.length added)%nat.
Proof.
  revert markdown w. induction imgPaths as [| p rest IH]; intros markdown w H.
  - cbn in H. inversion H; subst. exists "". split; [symmetry; apply append_empty_r | cbn; lia].
  - destruct (transcribe env (p :: rest) markdown w) as [out w'] eqn:E.
    cbn [transcribe] in E. cbn [fst] in H. subst out.
    apply bind_inv in E as [([] & w1 & _ & E) | [(? & _ & E) | (? & _ & E)]];
      try discriminate.
    apply bind_inv in E as [(imgMarkdown & w2 & _ & E) | [(? & _ & E) | (? & _ & E)]];
      try discriminate.
    apply bind_inv in E as [(text & w2' & _ & E) | [(? & _ & E) | (? & _ & E)]];
      try discriminate.
    apply bind_inv in E as [([] & w3 & _ & E) | [(? & _ & E) | (? & _ & E)]];
      try discriminate.
    destruct (IH ((markdown ++ text) ++ nl ++ nl) w3) as (added & -> & Hl);
      [rewrite E; reflexivity |].
    exists ((text ++ nl ++ nl) ++ added). split.
    + rewrite <- !append_assoc. reflexivity.
    + rewrite !length_append. cbn [length String.length nl]. lia.
Qed.

(** [markdown_is_append_only] on the two pages of the scenario. *)
Lemma markdown_is_append_only_witness :
  fst (transcribe Toy.env ["a.jpg"; "b.jpg"] "# Title" (initial_world Cases.two_images))
  = Ret ("# Title" ++ "# Page 1" ++ nl ++ nl ++ nl ++ "# Page 2" ++ nl ++ nl ++ nl)
  /\ exists added,
       "# Title" ++ "# Page 1" ++ nl ++ nl ++ nl ++ "# Page 2" ++ nl ++ nl ++ nl
       = "# Title" ++ added
       /\ (2 * length ["a.jpg"; "b.jpg"] <= String.length added)%nat.
Proof.
  assert (H : fst (transcribe Toy.env ["a.jpg"; "b.jpg"] "# Title"
                     (initial_world Cases.two_images))
              = Ret ("# Title" ++ "# Page 1" ++ nl ++ nl ++ nl ++ "# Page 2" ++ nl ++ nl ++ nl))
    by (vm_compute; reflexivity).
  split; [exact H |].
  exact (markdown_is_append_only Toy.env ["a.jpg"; "b.jpg"] "# Title" _
           (initial_world Cases.two_images) H).
Defined.

(** ** The requests of the client *)

(** X12: the request of a client call whose images are all on disk.  The
    images are read once each, in order; then one request goes to
    [<baseUrl>models/<model>:generateContent] with the JSON content type
    and the bearer token.  Its body names the client's model, the
    temperature and the token budget, and holds a system turn only for a
    non-empty system prompt, then the user turn: the text alone without
    images, otherwise the text followed by one base64 JPEG item per image.
    The call returns what the parser makes of the response body and throws
    what the transport or the parser throws, after reporting it. *)
Theorem client_request_shape (env : Env) (client : LLMClient) (userMessage : string)
    (systemPrompt : option string) (paths datas : list string)
    (temperature : option Q) (maxTokens : option Z) (w : World) :
  Forall2 (fun p d => w_fs w !! p = Some (File d)) paths datas ->
  let run :=
    client_completion env client userMessage systemPrompt (Some paths) temperature
      maxTokens w in
  let payload :=
    mkPayload (model client)
      (request_messages (default "" systemPrompt) userMessage datas)
      (default (1 # 2)%Q temperature) (default 8192%Z maxTokens) in
  let answer :=
    env_post env (w_requests w) (request_url client) (request_headers client) payload in
  match answer with
  | HttpOk data =>
      match extract_text data with
      | Ok text =>
          run = (Ret text,
                 count_request
                   (add_events
                      (map ReadFileSync paths
                         ++ [HttpPost (request_url client) (request_headers client) payload])
                      w))
      | Raise e =>
          run = (Throw e,
                 count_request
                   (add_events
                      (map ReadFileSync paths
                         ++ [HttpPost (request_url client) (request_headers client) payload;
                             ConsoleError ("Error calling LLM API: " ++ string_of_error e)])
                      w))
      end
  | HttpFail e =>
      run = (Throw e,
             count_request
               (add_events
                  (map ReadFileSync paths
                     ++ [HttpPost (request_url client) (request_headers client) payload;
                         ConsoleError ("Error calling LLM API: " ++ string_of_error e)])
                  w))
  end.
Proof.
  intros H run payload answer. subst run payload answer.
  unfold request_url, request_headers, request_messages, client_completion.
  assert (E1 : (match Some paths with
                | Some ((_ :: _) as paths0) =>
                    images <- read_images paths0 ;;
                    ret (ContentList (TextItem userMessage :: images))
                | _ => ret (ContentObject (TextItem userMessage))
                end) w
               = (Ret (user_content userMessage datas),
                  add_events (map ReadFileSync paths) w)).
  { destruct H as [| p d paths datas Hp Hrest].
    - cbn. rewrite add_events_nil. reflexivity.
    - erewrite bind_ret_eq
        by (apply read_images_ok; constructor; [exact Hp | exact Hrest]).
      reflexivity. }
  erewrite bind_ret_eq by exact E1.
  rewrite post_and_parse. cbn [add_events w_requests].
  destruct (env_post _ _ _ _ _) as [data | e].
  - destruct (extract_text data) as [text | e];
      rewrite add_events_app; reflexivity.
  - rewrite add_events_app. reflexivity.
Qed.


Lemma client_request_shape_witness :
  Forall2 (fun p d => w_fs (initial_world Cases.two_images) !! p = Some (File d))
    ["a.jpg"; "b.jpg"] ["1"; "2"]
  /\ fst (client_completion Toy.env (client_of Toy.env "gemini-1.5-pro") "read" None
            (Some ["a.jpg"; "b.jpg"]) None None (initial_world Cases.two_images))
     = Ret (VStr ("# Page 2" ++ nl)).
Proof.
  assert (H : Forall2 (fun p d => w_fs (initial_world Cases.two_images) !! p = Some (File d))
                ["a.jpg"; "b.jpg"] ["1"; "2"]).
  { constructor; [vm_compute; reflexivity |].
    constructor; [vm_compute; reflexivity |]. constructor. }
  split; [exact H |].
  pose proof (client_request_shape Toy.env (client_of Toy.env "gemini-1.5-pro") "read" None
                ["a.jpg"; "b.jpg"] ["1"; "2"] None None (initial_world Cases.two_images) H) as G.
  cbv zeta in G.
  change (env_post Toy.env (w_requests (initial_world Cases.two_images))
            (request_url (client_of Toy.env "gemini-1.5-pro"))
            (request_headers (client_of Toy.env "gemini-1.5-pro"))
            (mkPayload (model (client_of Toy.env "gemini-1.5-pro"))
               (request_messages (default "" None) "read" ["1"; "2"])
               (default (1 # 2)%Q None) (default 8192%Z None)))
    with (HttpOk (Toy.answer (VStr ("# Page 2" ++ nl)))) in G.
  change (extract_text (Toy.answer (VStr ("# Page 2" ++ nl))))
    with (@Ok value (VStr ("# Page 2" ++ nl))) in G.
  cbv beta iota in G. rewrite G. reflexivity.
Defined.
(** ** How a run can end *)

Lemma omap_none {A B} (f : A -> option B) (Q : A -> Prop) (l : list A) :
  (forall a, Q a -> f a = None) -> Forall Q l -> omap f l = [].
Proof.
  intros HQ H. induction H as [| a l Ha _ IH]; [reflexivity |].
  cbn. rewrite (HQ a Ha). exact IH.
Qed.

Lemma early_events_observed (evs : list Event) :
  Forall early_event evs ->
  console_logs evs = [] /\ removals evs = [] /\ posts evs = [] /\ reads evs = [].
Proof.
  intros H. repeat split;
    (eapply omap_none; [| exact H]); intros [] Q; cbn in *; solve [reflexivity | contradiction].
Qed.

Lemma transcribe_events_observed (evs : list Event) :
  Forall transcribe_event evs -> console_logs evs = [] /\ removals evs = [].
Proof.
  intros H. split;
    (eapply omap_none; [| exact H]); intros [] Q; cbn in *; solve [reflexivity | contradiction].
Qed.

Lemma console_logs_app (t1 t2 : list Event) :
  console_logs (t1 ++ t2) = (console_logs t1 ++ console_logs t2)%list.
Proof. apply omap_app. Qed.

Lemma removals_app (t1 t2 : list Event) :
  removals (t1 ++ t2) = (removals t1 ++ removals t2)%list.
Proof. apply omap_app. Qed.

(** The steps up to the image paths end the process with code 1 only. *)
Lemma sound_prepare (d : string) (env : Env) (args : list string) (stdin : string) :
  sound d early_event (fun c => c = 1%Z) (prepare env args stdin).
Proof.
  unfold prepare. destruct args as [| a rest].
  - apply sound_bind; [apply sound_logger_error; intros; exact I | intros _].
    apply sound_exit. reflexivity.
  - destruct (parse_args (a :: rest)) as [s e].
    destruct (String.length stdin =? 0)%nat.
    + apply sound_bind; [apply sound_logger_error; intros; exact I | intros _].
      apply sound_bind; [apply sound_logger_error; intros; exact I | intros _].
      apply sound_exit. reflexivity.
    + apply sound_bind; [apply sound_date_now | intros now].
      apply sound_bind; [apply sound_mkdirSync; exact I | intros _].
      apply sound_bind; [apply sound_writeFileSync; exact I | intros _].
      apply sound_bind; [| intros imgs; apply sound_ret].
      eapply sound_weaken; [| | apply (sound_rasterize d env (fun c => c = 1%Z))].
      * intros [] Q; cbn in *; solve [exact I | contradiction].
      * auto.
Qed.

(** A transcription never rejects: the retry loop swallows every error. *)
Lemma convertImageToMarkdown_no_throw (env : Env) (imagePath : string) (w : World)
    (e : JSError) :
  fst (convertImageToMarkdown env imagePath w) <> Throw e.
Proof.
  destruct (has_key env) eqn:K.
  - rewrite (convertImageToMarkdown_with_key env imagePath K).
    destruct (retry_loop_spec env (page_attempt env imagePath) 3 w)
      as (k & w1 & _ & [[_ H] | (_ & _ & H)]).
    + rewrite H. discriminate.
    + apply H.
  - unfold convertImageToMarkdown. rewrite completion_without_key by exact K.
    discriminate.
Qed.

(** The loop rejects only when a text cannot be converted to a string. *)
Lemma transcribe_throw (env : Env) (imgPaths : list string) (markdown : string)
    (w : World) (e : JSError) :
  fst (transcribe env imgPaths markdown w) = Throw e -> e = cannot_convert.
Proof.
  revert markdown w. induction imgPaths as [| p rest IH]; intros markdown w.
  - discriminate.
  - cbn [transcribe]. cbv zeta.
    erewrite bind_ret_eq by apply logger_info_eq.
    match goal with
    | |- context [bind (convertImageToMarkdown env ?q) ?k ?w0] =>
        pose proof (convertImageToMarkdown_no_throw env q w0) as N;
        destruct (convertImageToMarkdown env q w0) as [[v | e' | c] w1] eqn:H
    end.
    + erewrite bind_ret_eq by exact H.
      destruct (string_of_value v) as [text | e'] eqn:Hv.
      * erewrite bind_ret_eq by reflexivity.
        erewrite bind_ret_eq by apply logger_info_eq. apply IH.
      * erewrite bind_throw_eq by reflexivity. cbn [fst].
        intros X; inversion X; subst. exact (string_of_value_raise _ _ Hv).
    + exfalso. exact (N e' eq_refl).
    + erewrite bind_exit_eq by exact H. discriminate.
Qed.

(** X13: how a run can end.  [main] never returns normally: it ends the
    process with code 0 or 1, or the handler of the end of standard input
    rejects.  With code 0 exactly one [console.log] has been made and the
    only removal is that of the working directory; with code 1 there was
    neither a [console.log] nor a removal.  A rejection also prints and
    removes nothing; it happens before any image is read or sent, unless
    it is the [TypeError] of [markdown += imgMarkdown] for a text that
    cannot be converted to a string. *)
Theorem run_outcomes (env : Env) (args : list string) (stdin : string) (w : World) :
  let run := main env args stdin w in
  exists evs,
    w_trace (snd run) = (w_trace w ++ evs)%list
    /\ match fst run with
       | Ret _ => False
       | Exit c =>
           (c = 0%Z
            /\ (exists markdown, console_logs evs = [markdown])
            /\ removals evs = [output_dir (env_now env (w_clock w))])
           \/ (c = 1%Z /\ console_logs evs = [] /\ removals evs = [])
       | Throw e =>
           console_logs evs = [] /\ removals evs = []
           /\ ((posts evs = [] /\ reads evs = []) \/ e = cannot_convert)
       end.
Proof.
  cbv zeta. unfold main.
  destruct (prepare env args stdin w) as [[[d imgs] | e | c] w1] eqn:H1;
    destruct (sound_prepare "" env args stdin _ _ _ H1) as (_ & (evs1 & T1 & Q1) & X1);
    destruct (early_events_observed evs1 Q1) as (L1 & R1 & P1 & D1).
  - erewrite bind_ret_eq by exact H1. cbn [fst snd]. unfold finish.
    destruct (prepare_ret env args stdin w w1 d imgs H1) as (_ & _ & Hd & _).
    pose proof (transcribe_throw env (JS.sort imgs) "" w1) as N.
    destruct (transcribe env (JS.sort imgs) "" w1) as [[markdown | e | c] w2] eqn:H2;
      destruct (sound_transcribe "" env _ _ _ _ _ H2) as (_ & (evs2 & T2 & Q2) & X2);
      destruct (transcribe_events_observed evs2 Q2) as (L2 & R2).
    + erewrite bind_ret_eq by exact H2. rewrite finish_tail_eq. cbn [fst snd].
      exists (evs1 ++ evs2
                ++ [ConsoleInfo (env_now env (w_clock w2) ++ " - INFO - "
                                   ++ format_message "Image conversion to Markdown completed" []);
                    ConsoleLog markdown; RmSync d])%list.
      split.
      * unfold set_fs, record, tick. cbn [w_trace]. rewrite T2, T1, <- !app_assoc.
        reflexivity.
      * left. split; [reflexivity |]. split.
        -- exists markdown. rewrite !console_logs_app, L1, L2. reflexivity.
        -- rewrite !removals_app, R1, R2, Hd. reflexivity.
    + erewrite bind_throw_eq by exact H2. cbn [fst snd].
      exists (evs1 ++ evs2)%list. split; [rewrite T2, T1, app_assoc; reflexivity |].
      rewrite console_logs_app, removals_app, L1, L2, R1, R2.
      split; [reflexivity |]. split; [reflexivity |]. right. exact (N e eq_refl).
    + erewrite bind_exit_eq by exact H2. cbn [fst snd].
      exists (evs1 ++ evs2)%list. split; [rewrite T2, T1, app_assoc; reflexivity |].
      right. split; [exact (X2 c eq_refl) |].
      rewrite console_logs_app, removals_app, L1, L2, R1, R2. split; reflexivity.
  - erewrite bind_throw_eq by exact H1. cbn [fst snd].
    exists evs1. split; [exact T1 |]. split; [assumption |]. split; [assumption |].
    left. split; assumption.
  - erewrite bind_exit_eq by exact H1. cbn [fst snd].
    exists evs1. split; [exact T1 |]. right. split; [exact (X1 c eq_refl) |].
    split; assumption.
Qed.

(** X21: a document without page images.  When the steps up to the image
    paths give no image, the run prints the empty Markdown and ends with
    code 0 after removing the working directory: no request is made and
    the API key is not looked at, so a missing key goes unnoticed. *)
Theorem no_image_needs_no_key (env : Env) (args : list string) (stdin : string)
    (w : World) (outputDir : string) :
  fst (prepare env args stdin w) = Ret (outputDir, []) ->
  let w1 := snd (prepare env args stdin w) in
  let run := main env args stdin w in
  fst run = Exit 0
  /\ w_trace (snd run)
     = (w_trace w1
          ++ [ConsoleInfo (env_now env (w_clock w1) ++ " - INFO - "
                             ++ "Image conversion to Markdown completed");
              ConsoleLog "";
              RmSync outputDir])%list
  /\ w_requests (snd run) = w_requests w1
  /\ ~ on_disk (w_fs (snd run)) outputDir.
Proof.
  intros H w1 run. subst w1 run. unfold main.
  destruct (prepare env args stdin w) as [out w1] eqn:E. cbn [fst snd] in H |- *.
  subst out. rewrite (bind_ret_eq _ _ _ _ _ E). cbn [fst snd].
  unfold finish. cbn [JS.sort fold_right transcribe].
  rewrite (bind_ret_eq (ret "") _ w1 "" w1 eq_refl).
  rewrite finish_tail_eq. cbn [fst snd].
  split; [reflexivity |]. split.
  - unfold set_fs, record, tick. cbn [w_trace]. rewrite <- ?app_assoc. reflexivity.
  - split; [reflexivity |]. apply removed_is_gone.
Qed.

Lemma no_image_needs_no_key_witness :
  fst (prepare Cases.env_blank ["1"] "x" (initial_world ∅)) = Ret (Toy.dir, [])
  /\ has_key Cases.env_blank = false
  /\ fst (main Cases.env_blank ["1"] "x" (initial_world ∅)) = Exit 0.
Proof.
  assert (H : fst (prepare Cases.env_blank ["1"] "x" (initial_world ∅))
              = Ret (Toy.dir, [])) by (vm_compute; reflexivity).
  split; [exact H |]. split; [reflexivity |].
  exact (proj1 (no_image_needs_no_key Cases.env_blank ["1"] "x" (initial_world ∅)
                  Toy.dir H)).
Defined.
(** ** An image that cannot be read *)

Lemma readFileSync_not_file (p : string) (w : World) :
  is_file (w_fs w) p = false ->
  exists err, readFileSync p w = (Throw err, add_events [ReadFileSync p] w).
Proof.
  unfold is_file, readFileSync, bind, emit. cbn [record w_fs]. intros H.
  destruct (w_fs w !! p) as [[| data] |]; [| discriminate |]; eexists; reflexivity.
Qed.

(** The first unreadable image ends the reading: the error is reported
    and thrown again. *)
Lemma read_images_unreadable (p : string) (rest : list string) (w : World) :
  is_file (w_fs w) p = false ->
  exists err,
    read_images (p :: rest) w
    = (Throw err,
       add_events
         [ReadFileSync p;
          ConsoleError ("Error reading image file " ++ p ++ ": " ++ string_of_error err)]
         w).
Proof.
  intros H. destruct (readFileSync_not_file p w H) as (err & E). exists err.
  cbn [read_images].
  erewrite bind_throw_eq; [reflexivity |].
  unfold try_catch. erewrite bind_throw_eq by exact E.
  unfold console_error, bind, emit, throw, add_events, record. cbn.
  rewrite <- app_assoc. reflexivity.
Qed.

(** A client call with an unreadable image throws before any request. *)
Lemma client_completion_unreadable (env : Env) (client : LLMClient) (userMessage : string)
    (systemPrompt : option string) (p : string) (rest : list string)
    (temperature : option Q) (maxTokens : option Z) (w : World) :
  is_file (w_fs w) p = false ->
  exists err,
    client_completion env client userMessage systemPrompt (Some (p :: rest)) temperature
      maxTokens w
    = (Throw err,
       add_events
         [ReadFileSync p;
          ConsoleError ("Error reading image file " ++ p ++ ": " ++ string_of_error err)]
         w).
Proof.
  intros H. destruct (read_images_unreadable p rest w H) as (err & E). exists err.
  unfold client_completion.
  erewrite bind_throw_eq; [reflexivity |].
  erewrite bind_throw_eq by exact E. reflexivity.
Qed.

Lemma failed_unreadable (env : Env) (p : string) (n : nat) (w : World) :
  is_file (w_fs w) p = false ->
  exists w',
    failed_attempts env (page_attempt env p) n w w'
    /\ w_fs w' = w_fs w
    /\ w_requests w' = w_requests w
    /\ exists evs,
         w_trace w' = (w_trace w ++ evs)%list
         /\ posts evs = []
         /\ reads evs = repeat p n
         /\ sleeps evs = repeat 500%Z n
         /\ length (console_errors evs) = (2 * n)%nat.
Proof.
  revert w. induction n as [| n IH]; intros w H.
  - exists w. split; [constructor |]. split; [reflexivity |]. split; [reflexivity |].
    exists []. rewrite app_nil_r. repeat split.
  - destruct (client_completion_unreadable env (client_of env "gemini-1.5-pro") userPrompt
                (Some "") p [] (Some (3 # 10)%Q) (Some 8192%Z) w H) as (err & E).
    fold (page_attempt env p) in E.
    set (w1 := add_events
                 [ReadFileSync p;
                  ConsoleError ("Error reading image file " ++ p ++ ": "
                                  ++ string_of_error err)] w) in *.
    destruct (IH (after_failure env err w1)) as (w' & F & Hfs & Hrq & evs & T & P & R & S & CE).
    { exact H. }
    exists w'. split; [econstructor; [exact E | exact F] |].
    split; [rewrite Hfs; reflexivity |]. split; [rewrite Hrq; reflexivity |].
    exists ([ReadFileSync p;
             ConsoleError ("Error reading image file " ++ p ++ ": " ++ string_of_error err);
             ConsoleError (env_now env (w_clock w1) ++ " - ERROR - "
                             ++ "LLM call failed: " ++ err_message err);
             Sleep 500] ++ evs)%list.
    split.
    { rewrite T, after_failure_trace. unfold w1, add_events. cbn [w_trace].
      rewrite <- !app_assoc. reflexivity. }
    unfold posts, reads, sleeps, console_errors in *.
    rewrite !omap_app, P, R, S, length_app, CE. cbn. repeat split. lia.
Qed.

(** X14: a page image that is not a readable file.  With the key set,
    the transcription of such an image reads it three times, reports each
    failure twice, waits three times 500ms and gives the empty string: no
    request is sent and the file system is left as it was. *)
Theorem unreadable_image_is_never_sent (env : Env) (imagePath : string) (w : World) :
  has_key env = true ->
  is_file (w_fs w) imagePath = false ->
  let run := convertImageToMarkdown env imagePath w in
  fst run = Ret (VStr "")
  /\ w_fs (snd run) = w_fs w
  /\ w_requests (snd run) = w_requests w
  /\ exists evs,
       w_trace (snd run) = (w_trace w ++ evs)%list
       /\ posts evs = []
       /\ reads evs = [imagePath; imagePath; imagePath]
       /\ sleeps evs = [500; 500; 500]%Z
       /\ length (console_errors evs) = 6%nat.
Proof.
  intros K H run. subst run.
  rewrite (convertImageToMarkdown_with_key env imagePath K).
  destruct (failed_unreadable env imagePath 3 w H) as (w' & F & Hfs & Hrq & G).
  rewrite (retry_loop_all_failed env _ 3 w w' F). cbn [fst snd].
  split; [reflexivity |]. split; [exact Hfs |]. split; [exact Hrq |]. exact G.
Qed.

Lemma unreadable_image_is_never_sent_witness :
  has_key Toy.env = true
  /\ is_file (w_fs (initial_world Cases.two_images)) "c.jpg" = false
  /\ fst (convertImageToMarkdown Toy.env "c.jpg" (initial_world Cases.two_images))
     = Ret (VStr "").
Proof.
  assert (K : has_key Toy.env = true) by reflexivity.
  assert (H : is_file (w_fs (initial_world Cases.two_images)) "c.jpg" = false)
    by (vm_compute; reflexivity).
  split; [exact K |]. split; [exact H |].
  exact (proj1 (unreadable_image_is_never_sent Toy.env "c.jpg"
                  (initial_world Cases.two_images) K H)).
Defined.
(** ** What the tool adapters return *)

Lemma substring_whole (s : string) : String.substring 0 (String.length s) s = s.
Proof. induction s as [| c s IH]; cbn; [reflexivity | rewrite IH; reflexivity]. Qed.

Lemma prefix_split (pre s : string) :
  String.prefix pre s = true ->
  s = pre ++ String.substring (String.length pre) (String.length s - String.length pre) s.
Proof.
  revert s. induction pre as [| a pre IH]; intros s H.
  - cbn [String.length]. rewrite Nat.sub_0_r, substring_whole. reflexivity.
  - destruct s as [| b s]; [discriminate |]. cbn [String.prefix] in H.
    destruct (ascii_dec a b) as [-> |]; [| discriminate].
    change (String b pre ++ ?x) with (String b (pre ++ x)).
    cbn [String.length String.substring Nat.sub]. f_equal. apply IH, H.
Qed.

Lemma take_drop_while (p : ascii -> bool) (s : string) :
  s = JS.take_while p s ++ JS.drop_while p s.
Proof.
  induction s as [| c s IH]; [reflexivity |]. cbn [JS.take_while JS.drop_while].
  destruct (p c); [| reflexivity].
  change (String c ?a ++ ?b) with (String c (a ++ b)). f_equal. exact IH.
Qed.

Lemma take_while_forall (p : ascii -> bool) (s : string) :
  string_forall p (JS.take_while p s) = true.
Proof.
  induction s as [| c s IH]; [reflexivity |]. cbn [JS.take_while].
  destruct (p c) eqn:E; [| reflexivity]. cbn [string_forall]. rewrite E. exact IH.
Qed.

Lemma take_while_drop_while (p : ascii -> bool) (s : string) :
  JS.take_while p (JS.drop_while p s) = "".
Proof.
  induction s as [| c s IH]; [reflexivity |]. cbn [JS.drop_while].
  destruct (p c) eqn:E; [exact IH |]. cbn [JS.take_while]. rewrite E. reflexivity.
Qed.

Lemma digit_value_nonneg (c : ascii) : JS.is_digit c = true -> (0 <= JS.digit_value c)%Z.
Proof.
  unfold JS.is_digit, JS.digit_value. cbv zeta. intros H.
  apply andb_prop in H as [H _]. apply Nat.leb_le in H. lia.
Qed.

Lemma digits_value_nonneg (s : string) (acc : Z) :
  (0 <= acc)%Z -> string_forall JS.is_digit s = true -> (0 <= JS.digits_value acc s)%Z.
Proof.
  revert acc. induction s as [| c s IH]; intros acc Hacc H; [exact Hacc |].
  cbn [string_forall] in H. apply andb_prop in H as [Hc Hs].
  cbn [JS.digits_value]. apply IH; [| exact Hs].
  pose proof (digit_value_nonneg c Hc). lia.
Qed.

Lemma length_drop_while (p : ascii -> bool) (s : string) :
  String.length s
  = (String.length (JS.take_while p s) + String.length (JS.drop_while p s))%nat.
Proof.
  induction s as [| c s IH]; [reflexivity |]. cbn [JS.take_while JS.drop_while].
  destruct (p c); [| reflexivity]. cbn [String.length]. rewrite IH. reflexivity.
Qed.

(** A match of [/Pages:\s+(\d+)/] at the start of [s]. *)
Lemma match_pages_here_sound (s digits : string) :
  match_pages_here s = Some digits ->
  exists spaces after,
    s = "Pages:" ++ spaces ++ digits ++ after
    /\ spaces <> "" /\ string_forall JS.is_space spaces = true
    /\ digits <> "" /\ string_forall JS.is_digit digits = true
    /\ JS.take_while JS.is_digit after = "".
Proof.
  unfold match_pages_here. intros H.
  destruct (String.prefix "Pages:" s) eqn:Hp; [| discriminate].
  apply prefix_split in Hp. cbv zeta in H.
  change (String.length "Pages:") with 6%nat in Hp.
  set (rest := String.substring 6 (String.length s - 6) s) in *.
  destruct (Nat.eqb_spec (String.length (JS.drop_while JS.is_space rest))
              (String.length rest)) as [| Hne]; [discriminate |].
  destruct (JS.take_while JS.is_digit (JS.drop_while JS.is_space rest)) as [| c r] eqn:Ht;
    [discriminate |].
  inversion H; subst digits; clear H.
  exists (JS.take_while JS.is_space rest),
    (JS.drop_while JS.is_digit (JS.drop_while JS.is_space rest)).
  split.
  { rewrite Hp at 1. f_equal. rewrite <- Ht.
    rewrite <- (take_drop_while JS.is_digit). apply take_drop_while. }
  split.
  { intros E. pose proof (length_drop_while JS.is_space rest) as L.
    rewrite E in L. cbn in L. congruence. }
  split; [apply take_while_forall |].
  split; [discriminate |].
  split; [rewrite <- Ht; apply take_while_forall |].
  apply take_while_drop_while.
Qed.

Lemma match_pages_sound (s digits : string) :
  match_pages s = Some digits ->
  exists before spaces after,
    s = before ++ "Pages:" ++ spaces ++ digits ++ after
    /\ spaces <> "" /\ string_forall JS.is_space spaces = true
    /\ digits <> "" /\ string_forall JS.is_digit digits = true
    /\ JS.take_while JS.is_digit after = "".
Proof.
  induction s as [| a s IH]; cbn [match_pages].
  - cbn. discriminate.
  - destruct (match_pages_here (String a s)) as [ds |] eqn:Hh.
    + intros H. inversion H; subst ds.
      destruct (match_pages_here_sound _ _ Hh) as (sp & af & E & R).
      exists "", sp, af. split; [exact E | exact R].
    + intros H. destruct (IH H) as (b & sp & af & E & R).
      exists (String a b), sp, af. split; [| exact R].
      change (String a b ++ ?x) with (String a (b ++ x)). f_equal. exact E.
Qed.

(** X15: the page count.  [getTotalPages] resolves only when [pdfinfo]
    closed with code 0 and its output holds [Pages:], white space and a
    run of digits; the count is then what [parseInt] makes of the whole
    run of digits, which is the number they write when that is a safe
    integer. *)
Theorem page_count_is_read_from_the_pages_line (env : Env) (pdfPath : string)
    (w : World) (total : JS.number) :
  fst (getTotalPages env pdfPath w) = Ret total ->
  let run := env_spawn env "pdfinfo" [pdfPath] (w_fs w) in
  tool_exit run = Closed (Some 0%Z)
  /\ exists before spaces digits after,
       tool_stdout run = before ++ "Pages:" ++ spaces ++ digits ++ after
       /\ spaces <> "" /\ string_forall JS.is_space spaces = true
       /\ digits <> "" /\ string_forall JS.is_digit digits = true
       /\ JS.take_while JS.is_digit after = ""
       /\ total = JS.parseInt digits
       /\ (0 <= JS.digits_value 0 digits)%Z
       /\ (safe_number (JS.Num (JS.digits_value 0 digits)) ->
           total = JS.Num (JS.digits_value 0 digits)).
Proof.
  intros H run. subst run. unfold getTotalPages, spawn, bind, emit in H.
  cbn [record w_fs] in H.
  destruct (tool_exit (env_spawn env "pdfinfo" [pdfPath] (w_fs w))) as [msg | code];
    [discriminate |].
  destruct code as [z |]; [| discriminate]. cbn [code_not_zero] in H.
  destruct (z =? 0)%Z eqn:Ez; [| discriminate].
  apply Z.eqb_eq in Ez. subst z. cbn [negb] in H.
  split; [reflexivity |].
  destruct (match_pages (tool_stdout (env_spawn env "pdfinfo" [pdfPath] (w_fs w))))
    as [digits |] eqn:Hm; [| discriminate].
  destruct (match_pages_sound _ _ Hm) as (b & sp & af & E & S1 & S2 & D1 & D2 & Mx).
  exists b, sp, digits, af.
  repeat (split; [assumption |]).
  cbn [ret fst] in H. inversion H; subst total. clear H.
  split; [reflexivity |].
  split; [apply digits_value_nonneg; [lia | exact D2] |].
  intros _. destruct digits as [| c r]; [contradiction |].
  exact (proj1 (parseInt_all_digits c r D2)).
Qed.

Lemma page_count_is_read_from_the_pages_line_witness :
  fst (getTotalPages Toy.env "a.jpg" (initial_world Cases.two_images)) = Ret (JS.Num 1)
  /\ tool_exit (env_spawn Toy.env "pdfinfo" ["a.jpg"] (w_fs (initial_world Cases.two_images)))
     = Closed (Some 0%Z).
Proof.
  assert (H : fst (getTotalPages Toy.env "a.jpg" (initial_world Cases.two_images))
              = Ret (JS.Num 1)) by (vm_compute; reflexivity).
  split; [exact H |].
  exact (proj1 (page_count_is_read_from_the_pages_line Toy.env "a.jpg"
                  (initial_world Cases.two_images) (JS.Num 1) H)).
Defined.

(** An entry's name is what follows the directory and the separator. *)
Lemma entry_name_sound (dir p name : string) :
  entry_name dir p = Some name ->
  p = path_join dir name /\ name <> "" /\ JS.find_first "/" name = None.
Proof.
  unfold entry_name. cbv zeta.
  destruct (String.prefix (dir ++ "/") p) eqn:Hp; [| discriminate].
  apply prefix_split in Hp.
  destruct (String.substring _ _ p) as [| c r] eqn:Hn; [discriminate |].
  destruct (JS.find_first "/" (String c r)) eqn:Hf; [discriminate |].
  intros H. inversion H; subst name. clear H.
  split; [| split; [discriminate | exact Hf]].
  rewrite Hp at 1. unfold path_join. apply append_assoc.
Qed.

(** X16: the image paths.  When [convertToImages] resolves, every path it
    gives is [<outputDir>/images/<name>] for a name that ends in [.jpg]
    and holds no separator, and something exists at that path. *)
Theorem image_paths_are_jpegs_of_the_images_directory (env : Env)
    (pdfPath outputDir : string) (w : World) (files : list string) :
  fst (convertToImages env pdfPath outputDir w) = Ret files ->
  Forall
    (fun file =>
       exists name,
         file = path_join (path_join outputDir "images") name
         /\ JS.endsWith name ".jpg" = true
         /\ JS.find_first "/" name = None
         /\ is_Some (w_fs (snd (convertToImages env pdfPath outputDir w)) !! file))
    files.
Proof.
  intros H.
  destruct (convertToImages env pdfPath outputDir w) as [out w'] eqn:E.
  cbn [fst snd] in H |- *. subst out.
  unfold convertToImages in E. cbv zeta in E.
  set (dir := path_join outputDir "images") in *.
  apply bind_inv in E as [(u & w1 & _ & E) | [(e & _ & X) | (c & _ & X)]];
    try discriminate.
  apply bind_inv in E as [(run & w2 & _ & E) | [(e & _ & X) | (c & _ & X)]];
    try discriminate.
  destruct (tool_exit run) as [msg | code]; [discriminate |].
  destruct (code_not_zero code); [discriminate |].
  apply try_catch_inv in E as [(e & w3 & _ & X) | (E & _)]; [discriminate |].
  apply bind_inv in E as [(names & w3 & Hr & E) | [(e & _ & X) | (c & _ & X)]];
    try discriminate.
  inversion E; subst files w'. clear E.
  unfold readdirSync, bind, emit in Hr. cbn [record w_fs] in Hr.
  destruct (w_fs w2 !! dir) as [[| data] |]; try discriminate.
  inversion Hr; subst names w3. clear Hr.
  apply Forall_forall. intros file Hin.
  apply list_elem_of_In, in_map_iff in Hin as (name & <- & Hin).
  apply filter_In in Hin as [Hin Hjpg].
  apply list_elem_of_In, list_elem_of_omap in Hin as ([k v] & Hkv & Hname).
  apply elem_of_map_to_list in Hkv. cbn [fst] in Hname.
  destruct (entry_name_sound dir k name Hname) as (-> & _ & Hsep).
  exists name. split; [reflexivity |]. split; [exact Hjpg |]. split; [exact Hsep |].
  unfold record. cbn [w_fs]. rewrite Hkv. eauto.
Qed.

Lemma image_paths_are_jpegs_of_the_images_directory_witness :
  fst (convertToImages Toy.env "b.jpg" "out" (initial_world Cases.two_images))
  = Ret ["out/images/page-1.jpg"]
  /\ Forall
       (fun file =>
          exists name,
            file = path_join (path_join "out" "images") name
            /\ JS.endsWith name ".jpg" = true
            /\ JS.find_first "/" name = None
            /\ is_Some
                 (w_fs (snd (convertToImages Toy.env "b.jpg" "out"
                               (initial_world Cases.two_images))) !! file))
       ["out/images/page-1.jpg"].
Proof.
  assert (H : fst (convertToImages Toy.env "b.jpg" "out" (initial_world Cases.two_images))
              = Ret ["out/images/page-1.jpg"]) by (vm_compute; reflexivity).
  split; [exact H |].
  exact (image_paths_are_jpegs_of_the_images_directory Toy.env "b.jpg" "out"
           (initial_world Cases.two_images) ["out/images/page-1.jpg"] H).
Defined.
(** ** Names and log lines *)

(** Removing the characters of a class keeps the others, in order. *)
Lemma strip_is_filter (p : ascii -> bool) (s : string) :
  JS.replace_all_chars p "" s
  = string_of_list_ascii (List.filter (fun c => negb (p c)) (list_ascii_of_string s)).
Proof.
  induction s as [| c s IH]; [reflexivity |].
  cbn [JS.replace_all_chars list_ascii_of_string List.filter].
  destruct (p c); cbn [negb string_of_list_ascii].
  - exact IH.
  - rewrite IH. reflexivity.
Qed.

(** X17: the name of the working directory.  It is [output/<name>], where
    [<name>] is exactly the timestamp without its colons and dots: the
    other characters are all kept, in their order.  The directory lies
    below [output]. *)
Theorem working_directory_name (now : string) :
  output_dir now
  = "output/"
      ++ string_of_list_ascii
           (List.filter (fun c => negb (Ascii.eqb c ":" || Ascii.eqb c "."))
              (list_ascii_of_string now))
  /\ under "output" (output_dir now) = true.
Proof.
  split.
  - unfold output_dir, path_join. rewrite strip_is_filter. reflexivity.
  - unfold under, output_dir, path_join. apply orb_true_iff. right.
    generalize (JS.replace_all_chars (fun c => Ascii.eqb c ":" || Ascii.eqb c ".") "" now).
    intros name.
    change ("output" ++ "/" ++ name) with (String "o" (String "u" (String "t" (String "p"
             (String "u" (String "t" (String "/" name))))))).
    change ("output" ++ "/") with "output/".
    cbn. destruct name; reflexivity.
Qed.

Lemma find_first_placeholder (pre post : string) :
  string_forall (fun c => negb (Ascii.eqb c "%")) pre = true ->
  JS.find_first "%1" (pre ++ "%1" ++ post) = Some (pre, post).
Proof.
  induction pre as [| c pre IH]; intros H.
  - change ("" ++ "%1" ++ post) with (String "%" (String "1" post)).
    unfold JS.find_first.
    replace (String.prefix "%1" (String "%" (String "1" post))) with true
      by (cbn; destruct post; reflexivity).
    cbn [String.length Nat.sub String.substring].
    rewrite Nat.sub_0_r, substring_whole. reflexivity.
  - cbn [string_forall] in H. apply andb_prop in H as [Hc Hs].
    change (String c pre ++ ?x) with (String c (pre ++ x)).
    cbn [JS.find_first].
    replace (String.prefix "%1" (String c (pre ++ "%1" ++ post))) with false.
    + rewrite (IH Hs). reflexivity.
    + cbn [String.prefix]. destruct (ascii_dec "%" c) as [<- |]; [discriminate | reflexivity].
Qed.

(** A replacement text without a dollar is taken literally. *)
Lemma substitution_plain (repl matched before after : string) :
  string_forall (fun c => negb (Ascii.eqb c "$")) repl = true ->
  JS.substitution repl matched before after = repl.
Proof.
  induction repl as [| c r IH]; [reflexivity |]. cbn [string_forall].
  intros H. apply andb_prop in H as [Hc Hr].
  assert (E : JS.substitution (String c r) matched before after
              = String c (JS.substitution r matched before after)).
  { destruct c as [[] [] [] [] [] [] [] []]; try discriminate Hc;
      cbn [JS.substitution]; destruct r as [| [[] [] [] [] [] [] [] []] r'];
      reflexivity. }
  rewrite E, (IH Hr). reflexivity.
Qed.

(** X18: a log line with one placeholder.  When the text before [%1]
    holds no percent sign and the argument no dollar, [logger.info] prints
    the timestamp, [ - INFO - ] and the message with the argument in the
    place of [%1], whatever follows the placeholder; nothing else is
    done. *)
Theorem log_line_shows_a_plain_argument (env : Env) (pre post arg : string) (w : World) :
  string_forall (fun c => negb (Ascii.eqb c "%")) pre = true ->
  string_forall (fun c => negb (Ascii.eqb c "$")) arg = true ->
  logger_info env (pre ++ "%1" ++ post) [arg] w
  = (Ret tt,
     record (ConsoleInfo (env_now env (w_clock w) ++ " - INFO - " ++ pre ++ arg ++ post))
       (tick w)).
Proof.
  intros Hpre Harg. rewrite logger_info_eq. do 3 f_equal.
  unfold format_message. cbn [fold_left fst snd].
  change ("%" ++ string_of_nat (0 + 1)) with "%1".
  unfold JS.replace_first. rewrite (find_first_placeholder pre post Hpre).
  rewrite (substitution_plain arg _ _ _ Harg). reflexivity.
Qed.

Lemma log_line_shows_a_plain_argument_witness :
  (string_forall (fun c => negb (Ascii.eqb c "%")) "Extract pages to " = true
   /\ string_forall (fun c => negb (Ascii.eqb c "$")) "out/extract_2_3.pdf" = true)
  /\ logger_info Toy.env ("Extract pages to " ++ "%1" ++ "") ["out/extract_2_3.pdf"]
       (initial_world ∅)
     = (Ret tt,
        record (ConsoleInfo (env_now Toy.env (w_clock (initial_world ∅)) ++ " - INFO - "
                               ++ "Extract pages to " ++ "out/extract_2_3.pdf" ++ ""))
          (tick (initial_world ∅))).
Proof.
  split; [split; reflexivity |].
  apply log_line_shows_a_plain_argument; reflexivity.
Defined.
(** ** The parser of the response body *)

Lemma get_prop_truthy (v : value) (prop : string) :
  truthy v = true -> exists r, get_prop v prop = Ok r.
Proof.
  destruct v; cbn; try discriminate; intros _;
    try (destruct (String.eqb prop "length")); eauto.
Qed.

Lemma get_first_truthy (v : value) :
  truthy v = true -> exists r, get_first v = Ok r.
Proof.
  destruct v as [| | b | n | s | l | ms]; cbn; try discriminate; intros _; eauto.
  destruct s; eauto.
Qed.

Lemma get_prop_raise (v : value) (prop : string) (e : JSError) :
  get_prop v prop = Raise e ->
  e = cannot_read "undefined" prop \/ e = cannot_read "null" prop.
Proof.
  destruct v; cbn; try discriminate;
    try (destruct (String.eqb prop "length"); discriminate);
    intros H; inversion H; auto.
Qed.

(** What [has_text_shape] has read when it neither answers [false] nor
    fails to convert a length. *)
Lemma has_text_shape_inv (data : value) (r : result bool) :
  has_text_shape data = r ->
  r = Ok false
  \/ r = Raise cannot_convert
  \/ exists candidates c0,
       get_prop data "candidates" = Ok candidates
       /\ get_first candidates = Ok c0
       /\ ((exists e, get_prop c0 "content" = Raise e /\ r = Raise e)
           \/ exists content parts,
                get_prop c0 "content" = Ok content
                /\ get_prop content "parts" = Ok parts
                /\ truthy parts = true
                /\ r = Ok true).
Proof.
  unfold has_text_shape. intros <-.
  destruct (truthy data) eqn:T0; cbn [negb]; [| left; reflexivity].
  destruct (get_prop_truthy data "candidates" T0) as (candidates & E1).
  rewrite E1. cbn [result_bind].
  destruct (truthy candidates) eqn:T1; cbn [negb]; [| left; reflexivity].
  destruct (get_prop_truthy candidates "length" T1) as (n & E2).
  rewrite E2. cbn [result_bind].
  destruct (gt_zero n) as [[] | e] eqn:G1; cbn [result_bind negb];
    [| left; reflexivity
     | right; left; rewrite (gt_zero_raise _ _ G1); reflexivity].
  destruct (get_first_truthy candidates T1) as (c0 & E3).
  rewrite E3. cbn [result_bind].
  destruct (get_prop c0 "content") as [content | e] eqn:E4; cbn [result_bind].
  - destruct (truthy content) eqn:T2; cbn [negb]; [| left; reflexivity].
    destruct (get_prop_truthy content "parts" T2) as (parts & E5).
    rewrite E5. cbn [result_bind].
    destruct (truthy parts) eqn:T3; cbn [negb]; [| left; reflexivity].
    destruct (get_prop_truthy parts "length" T3) as (m & E6).
    rewrite E6. cbn [result_bind].
    destruct (gt_zero m) as [[] | e] eqn:G2;
      [| left; reflexivity
       | right; left; rewrite (gt_zero_raise _ _ G2); reflexivity].
    right. right. exists candidates, c0. split; [reflexivity |]. split; [exact E3 |].
    right. exists content, parts. auto.
  - right. right. exists candidates, c0. split; [reflexivity |]. split; [exact E3 |].
    left. exists e. auto.
Qed.

(** X19: when the parser throws.  Reading the text of a response body
    throws only a [TypeError]: for a member read from [undefined] or
    [null], and then only for [content] (the first candidate is missing or
    [null]) or for [text] (the first part is), or for a [length] that
    cannot be converted to a primitive value to be compared with 0. *)
Theorem parser_throws_only_on_a_missing_first_entry (data : value) (e : JSError) :
  extract_text data = Raise e ->
  err_name e = "TypeError"
  /\ (e = cannot_convert
      \/ exists base prop,
           (base = "undefined" \/ base = "null")
           /\ (prop = "content" \/ prop = "text")
           /\ e = cannot_read base prop).
Proof.
  intros H.
  assert (G : e = cannot_convert
              \/ exists base prop,
                   (base = "undefined" \/ base = "null")
                   /\ (prop = "content" \/ prop = "text")
                   /\ e = cannot_read base prop).
  { unfold extract_text in H.
    destruct (has_text_shape_inv data _ eq_refl)
      as [E | [E | (candidates & c0 & E1 & E3
                    & [(e' & E4 & E) | (content & parts & E4 & E5 & T & E)])]];
      rewrite E in H; cbn [result_bind] in H; try discriminate.
    - inversion H; subst e. left. reflexivity.
    - inversion H; subst e'. right.
      destruct (get_prop_raise _ _ _ E4) as [-> | ->]; eauto 10.
    - right. unfold first_part_text in H. rewrite E1 in H. cbn [result_bind] in H.
      rewrite E3 in H. cbn [result_bind] in H. rewrite E4 in H. cbn [result_bind] in H.
      rewrite E5 in H. cbn [result_bind] in H.
      destruct (get_first_truthy parts T) as (p0 & E6). rewrite E6 in H.
      cbn [result_bind] in H.
      destruct (get_prop_raise _ _ _ H) as [-> | ->]; eauto 10. }
  split; [| exact G].
  destruct G as [-> | (base & prop & _ & _ & ->)]; reflexivity.
Qed.

Lemma parser_throws_only_on_a_missing_first_entry_witness :
  extract_text Cases.null_candidate = Raise (cannot_read "null" "content")
  /\ err_name (cannot_read "null" "content") = "TypeError".
Proof.
  assert (H : extract_text Cases.null_candidate = Raise (cannot_read "null" "content"))
    by reflexivity.
  split; [exact H |].
  exact (proj1 (parser_throws_only_on_a_missing_first_entry Cases.null_candidate _ H)).
Defined.

(** X20: the text of a well-formed response.  When the body is an object
    whose [candidates] start with an object, whose [content] is an object,
    whose [parts] start with an object that has a [text], the parser gives
    that text: the other candidates, parts and members are not looked
    at. *)
Theorem response_text_is_first_part_of_first_candidate
    (ms cm km pm : list (string * value)) (cs ps : list value) (text : value) :
  assoc "candidates" ms = Some (VArr (VObj cm :: cs)) ->
  assoc "content" cm = Some (VObj km) ->
  assoc "parts" km = Some (VArr (VObj pm :: ps)) ->
  assoc "text" pm = Some text ->
  extract_text (VObj ms) = Ok text.
Proof.
  intros H1 H2 H3 H4.
  rewrite (extract_text_shaped ms cm km pm cs ps H1 H2 H3), H4. reflexivity.
Qed.

Lemma response_text_is_first_part_of_first_candidate_witness :
  extract_text
    (VObj [("usage", VNum (JS.Num 7));
           ("candidates",
            VArr [VObj [("content",
                         VObj [("role", VStr "model");
                               ("parts", VArr [VObj [("text", VStr "# A")];
                                               VObj [("text", VStr "# B")]])])];
                  VNull])])
  = Ok (VStr "# A").
Proof.
  eapply response_text_is_first_part_of_first_candidate; reflexivity.
Defined.
